(** * Saturating numeric conversion: the cast / classify / saturate core

    A shallow embedding of [saturated_cast], the range classifier
    [DstRangeRelationToSrcRange], the bound adjuster [NarrowingRange] and the
    portable accelerated path [SaturateFastOp], followed by the properties the
    design document states about them.

    C++ types are the fixed-width integer types ([int8_t] ... [int64_t],
    [uint8_t] ... [uint64_t], with [int] of 32 bits) and the two IEEE 754
    binary formats [float] and [double].  An integer value is its
    mathematical value in [Z], and every conversion and operator writes the
    wrap-around and the integral promotions out.  A floating-point value is
    a [spec_float] of the format's precision; conversions round to nearest,
    ties to even.  A conversion the language leaves undefined (a
    floating-point value whose truncation does not fit the integer type)
    yields [None].  A template over types is a function of [NumericType]
    arguments; a specialisation is a case of that function. *)

From Stdlib Require Import ZArith Bool Lia List ZifyBool.
From Stdlib Require Import Floats.SpecFloat.
Import ListNotations.

Local Open Scope Z_scope.

(* ================================================================== *)
(** ** Type descriptors *)

Inductive IntegerRepresentation := kUnsigned | kSigned.

Inductive NumericRangeRepresentation := kNotContained | kContained.

Inductive IntWidth := W8 | W16 | W32 | W64.

Inductive FloatKind := Binary32 | Binary64.

(** An integer type: [int8_t] ... [int64_t], [uint8_t] ... [uint64_t]. *)
Record IntType := MkInt { int_sign : IntegerRepresentation; int_width : IntWidth }.

(** An arithmetic type: an integer type, [float] or [double]. *)
Inductive NumericType :=
| Integral (t : IntType)
| Floating (k : FloatKind).

(** The values of a type. *)
Definition Value (T : NumericType) : Type :=
  match T with
  | Integral _ => Z
  | Floating _ => spec_float
  end.

Definition Int8 := MkInt kSigned W8.
Definition Int16 := MkInt kSigned W16.
Definition Int32 := MkInt kSigned W32.
Definition Int64 := MkInt kSigned W64.
Definition UInt8 := MkInt kUnsigned W8.
Definition UInt16 := MkInt kUnsigned W16.
Definition UInt32 := MkInt kUnsigned W32.
Definition UInt64 := MkInt kUnsigned W64.

Definition all_int_types : list IntType :=
  [Int8; Int16; Int32; Int64; UInt8; UInt16; UInt32; UInt64].

Definition bits (w : IntWidth) : Z :=
  match w with W8 => 8 | W16 => 16 | W32 => 32 | W64 => 64 end.

Definition int_is_signed (t : IntType) : bool :=
  match int_sign t with kSigned => true | kUnsigned => false end.

(** [std::numeric_limits<T>::digits] of an integer type. *)
Definition int_digits (t : IntType) : Z :=
  bits (int_width t) - (if int_is_signed t then 1 else 0).

Definition int_max (t : IntType) : Z := 2 ^ int_digits t - 1.

Definition int_lowest (t : IntType) : Z :=
  if int_is_signed t then - 2 ^ int_digits t else 0.

(** Mantissa width (with the implicit bit) and [max_exponent] of a format. *)
Definition prec (k : FloatKind) : Z :=
  match k with Binary32 => 24 | Binary64 => 53 end.

Definition emax (k : FloatKind) : Z :=
  match k with Binary32 => 128 | Binary64 => 1024 end.

Definition float_max (k : FloatKind) : spec_float :=
  S754_finite false (Z.to_pos (2 ^ prec k - 1)) (emax k - prec k).

Definition is_signed (T : NumericType) : bool :=
  match T with
  | Integral t => int_is_signed t
  | Floating _ => true
  end.

Definition is_integral (T : NumericType) : bool :=
  match T with Integral _ => true | Floating _ => false end.

Definition is_floating_point (T : NumericType) : bool :=
  match T with Integral _ => false | Floating _ => true end.

Definition digits (T : NumericType) : Z :=
  match T with
  | Integral t => int_digits t
  | Floating k => prec k
  end.

Definition max_exponent (T : NumericType) : Z :=
  match T with
  | Integral _ => 0
  | Floating k => emax k
  end.

Definition has_infinity (T : NumericType) : bool := is_floating_point T.
Definition has_quiet_NaN (T : NumericType) : bool := is_floating_point T.

(** [T()], the value-initialised (zero) value. *)
Definition zero (T : NumericType) : Value T :=
  match T with
  | Integral _ => 0
  | Floating _ => S754_zero false
  end.

Definition numeric_limits_max (T : NumericType) : Value T :=
  match T with
  | Integral t => int_max t
  | Floating k => float_max k
  end.

Definition numeric_limits_lowest (T : NumericType) : Value T :=
  match T with
  | Integral t => int_lowest t
  | Floating k => SFopp (float_max k)
  end.

Definition numeric_limits_infinity (T : NumericType) : Value T :=
  match T with
  | Integral _ => 0
  | Floating _ => S754_infinity false
  end.

Definition numeric_limits_quiet_NaN (T : NumericType) : Value T :=
  match T with
  | Integral _ => 0
  | Floating _ => S754_nan
  end.

(** A value the type can hold: an integer within the limits, a
    floating-point datum in the format's canonical form. *)
Definition has_type (T : NumericType) : Value T -> bool :=
  match T with
  | Integral t => fun z => (int_lowest t <=? z) && (z <=? int_max t)
  | Floating k => fun f => valid_binary (prec k) (emax k) f
  end.

(* ================================================================== *)
(** ** Integer conversions and the usual arithmetic conversions *)

(** Conversion of an integer to an integer type: the value modulo [2^N],
    taken in the type's range. *)
Definition wrap (t : IntType) (z : Z) : Z :=
  let m := 2 ^ bits (int_width t) in
  if int_is_signed t then (z + m / 2) mod m - m / 2 else z mod m.

Definition make_unsigned (t : IntType) : IntType := MkInt kUnsigned (int_width t).
Definition make_signed (t : IntType) : IntType := MkInt kSigned (int_width t).

(** Integral promotion: a type narrower than [int] becomes [int]. *)
Definition promote (t : IntType) : IntType :=
  match int_width t with
  | W8 | W16 => Int32
  | _ => t
  end.

(** Conversion rank of the integer types follows their width. *)
Definition width_leb (a b : IntWidth) : bool :=
  match a, b with
  | W8, _ => true
  | W16, W8 => false
  | W16, _ => true
  | W32, (W8 | W16) => false
  | W32, _ => true
  | W64, W64 => true
  | W64, _ => false
  end.

(** The type in which a binary operator on two integers is evaluated. *)
Definition common_int (a b : IntType) : IntType :=
  let a' := promote a in
  let b' := promote b in
  match int_sign a', int_sign b' with
  | kSigned, kSigned | kUnsigned, kUnsigned =>
      if width_leb (int_width a') (int_width b') then b' else a'
  | kUnsigned, kSigned =>
      if width_leb (int_width b') (int_width a') then a' else b'
  | kSigned, kUnsigned =>
      if width_leb (int_width a') (int_width b') then b' else a'
  end.

Definition wider_float (a b : FloatKind) : FloatKind :=
  match a, b with
  | Binary32, Binary32 => Binary32
  | _, _ => Binary64
  end.

(** [decltype(A() + B())]. *)
Definition Promotion (A B : NumericType) : NumericType :=
  match A, B with
  | Integral a, Integral b => Integral (common_int a b)
  | Integral _, Floating k => Floating k
  | Floating k, Integral _ => Floating k
  | Floating k1, Floating k2 => Floating (wider_float k1 k2)
  end.

(** Integer operators, evaluated in the common type of their operands. *)
Definition int_sub (a b : IntType) (x y : Z) : Z :=
  let c := common_int a b in wrap c (wrap c x - wrap c y).

Definition int_add (a b : IntType) (x y : Z) : Z :=
  let c := common_int a b in wrap c (wrap c x + wrap c y).

Definition int_and (a b : IntType) (x y : Z) : Z :=
  let c := common_int a b in wrap c (Z.land (wrap c x) (wrap c y)).

Definition int_xor (a b : IntType) (x y : Z) : Z :=
  let c := common_int a b in wrap c (Z.lxor (wrap c x) (wrap c y)).

Definition int_not (a : IntType) (x : Z) : Z :=
  let c := promote a in wrap c (Z.lnot (wrap c x)).

Definition int_neg (a : IntType) (x : Z) : Z :=
  let c := promote a in wrap c (- wrap c x).

Definition int_shl (a : IntType) (x n : Z) : Z :=
  let c := promote a in wrap c (Z.shiftl (wrap c x) n).

(* ================================================================== *)
(** ** Floating-point conversions *)

(** An integer converted to a floating-point format. *)
Definition int_to_float (k : FloatKind) (z : Z) : spec_float :=
  binary_normalize (prec k) (emax k) z 0 false.

(** A floating-point value converted from one format to another: unchanged
    within a format, rounded otherwise. *)
Definition float_to_float (from to : FloatKind) (f : spec_float) : spec_float :=
  match from, to with
  | Binary32, Binary32 | Binary64, Binary64 => f
  | _, _ =>
      match f with
      | S754_finite s m e => binary_round (prec to) (emax to) s m e
      | _ => f
      end
  end.

(** The integer part of a finite floating-point value. *)
Definition SFtrunc (f : spec_float) : option Z :=
  match f with
  | S754_zero _ => Some 0
  | S754_finite s m e =>
      Some (cond_Zopp s
              (match e with
               | Z0 => Zpos m
               | Zpos p => Zpos m * 2 ^ Zpos p
               | Zneg p => Zpos m / 2 ^ Zpos p
               end))
  | _ => None
  end.

(** Floating-point to integer: the fractional part is discarded; the
    conversion is undefined when the result does not fit. *)
Definition float_to_int (t : IntType) (f : spec_float) : option Z :=
  match SFtrunc f with
  | Some z => if (int_lowest t <=? z) && (z <=? int_max t) then Some z else None
  | None => None
  end.

Definition static_cast (Dst Src : NumericType) : Value Src -> option (Value Dst) :=
  match Dst as D, Src as S return Value S -> option (Value D) with
  | Integral d, Integral _ => fun z => Some (wrap d z)
  | Integral d, Floating _ => fun f => float_to_int d f
  | Floating k, Integral _ => fun z => Some (int_to_float k z)
  | Floating k, Floating k' => fun f => Some (float_to_float k' k f)
  end.

(* ================================================================== *)
(** ** Built-in comparisons *)

(** Both operands are brought to their common type and compared there;
    [None] is the unordered outcome of a comparison with a NaN. *)
Definition compare_values (A B : NumericType) : Value A -> Value B -> option comparison :=
  match A as A', B as B' return Value A' -> Value B' -> option comparison with
  | Integral a, Integral b =>
      fun x y => let c := common_int a b in Some (Z.compare (wrap c x) (wrap c y))
  | Integral _, Floating k =>
      fun x y => SFcompare (int_to_float k x) y
  | Floating k, Integral _ =>
      fun x y => SFcompare x (int_to_float k y)
  | Floating k1, Floating k2 =>
      fun x y => let k := wider_float k1 k2 in
                 SFcompare (float_to_float k1 k x) (float_to_float k2 k y)
  end.

Definition op_lt {A B : NumericType} (x : Value A) (y : Value B) : bool :=
  match compare_values A B x y with Some Lt => true | _ => false end.

Definition op_le {A B : NumericType} (x : Value A) (y : Value B) : bool :=
  match compare_values A B x y with Some (Lt | Eq) => true | _ => false end.

Definition op_gt {A B : NumericType} (x : Value A) (y : Value B) : bool :=
  match compare_values A B x y with Some Gt => true | _ => false end.

Definition op_ge {A B : NumericType} (x : Value A) (y : Value B) : bool :=
  match compare_values A B x y with Some (Gt | Eq) => true | _ => false end.

Definition op_eq {A B : NumericType} (x : Value A) (y : Value B) : bool :=
  match compare_values A B x y with Some Eq => true | _ => false end.

(** The literals [0] and [-1] of type [int], and [T{n}] for a small [n]. *)
Definition int_literal (n : Z) : Value (Integral Int32) := n.

Definition literal (T : NumericType) (n : Z) : Value T :=
  match T with
  | Integral _ => n
  | Floating k => int_to_float k n
  end.

(* ================================================================== *)
(** ** Evaluation that may be undefined *)

Definition bind {A B : Type} (m : option A) (f : A -> option B) : option B :=
  match m with
  | Some a => f a
  | None => None
  end.

Notation "x <- m ;; k" := (bind m (fun x => k))
  (at level 61, m at next level, right associativity).

(** [a || b] and [a && b]: the right operand is evaluated only when the
    left one does not decide the result. *)
Definition lazy_or (a b : option bool) : option bool :=
  x <- a ;; if x then Some true else b.

Definition lazy_and (a b : option bool) : option bool :=
  x <- a ;; if x then b else Some false.

Notation "a ||| b" := (lazy_or a b) (at level 50, left associativity).
Notation "a &&& b" := (lazy_and a b) (at level 40, left associativity).

(* ================================================================== *)
(** ** Sign helpers *)

(** [IsValueNegative]: [value < 0] for a signed type, [false] otherwise. *)
Definition IsValueNegative (T : NumericType) (value : Value T) : bool :=
  if is_signed T then op_lt value (int_literal 0) else false.

(** [ConditionalNegate<T>(x, is_negative)]; the result has type
    [make_signed T]. *)
Definition ConditionalNegate (T : IntType) (x : Z) (is_negative : bool) : Z :=
  let SignedT := make_signed T in
  let UnsignedT := make_unsigned T in
  let neg := Z.b2z is_negative in
  wrap SignedT
    (int_add (common_int UnsignedT UnsignedT) Int32
       (int_xor UnsignedT UnsignedT
          (wrap UnsignedT x)
          (wrap UnsignedT (int_neg SignedT (wrap SignedT neg))))
       neg).

(** [SafeUnsignedAbs<T>(value)]; the result has type [make_unsigned T]. *)
Definition SafeUnsignedAbs (T : IntType) (value : Z) : Z :=
  let UnsignedT := make_unsigned T in
  if IsValueNegative (Integral T) value
  then wrap UnsignedT (int_sub UInt32 UnsignedT 0 (wrap UnsignedT value))
  else wrap UnsignedT value.

(* ================================================================== *)
(** ** Bounds and the narrowing range *)

(** A [template <typename> class Bounds]: a maximum and a lowest value for
    every type. *)
Record Bounds := {
  bounds_max : forall T : NumericType, Value T;
  bounds_lowest : forall T : NumericType, Value T
}.

Definition std_numeric_limits : Bounds :=
  {| bounds_max := numeric_limits_max; bounds_lowest := numeric_limits_lowest |}.

Definition kMaxExponent (T : NumericType) : Z :=
  if is_floating_point T then max_exponent T else digits T + 1.

Definition kShift (Dst Src : NumericType) : Z :=
  if (kMaxExponent Dst <? kMaxExponent Src) && (digits Src <? digits Dst)
  then digits Dst - digits Src
  else 0.

(** The constraint under which [Adjust] can be instantiated. *)
Definition Adjust_requires (Dst Src : NumericType) : bool :=
  (is_integral Dst && (kShift Dst Src <? digits Dst))
  || (is_floating_point Dst && (kShift Dst Src =? 0)).

(** The integral branch of [Adjust], for a shift [k]. *)
Definition AdjustIntegral (d : IntType) (k : Z) (value : Z) : Z :=
  let UnsignedDst := make_unsigned d in
  let one := wrap UnsignedDst 1 in
  let T1 := promote UnsignedDst in
  let T2 := common_int T1 UnsignedDst in
  let T3 := promote T2 in
  let T4 := common_int UnsignedDst T3 in
  let mask := int_not T2 (int_sub T1 UnsignedDst (int_shl UnsignedDst one k) one) in
  wrap d
    (ConditionalNegate T4
       (int_and UnsignedDst T3 (SafeUnsignedAbs d value) mask)
       (IsValueNegative (Integral d) value)).

Definition Adjust (Dst Src : NumericType) : Value Dst -> Value Dst :=
  match Dst as D return Value D -> Value D with
  | Integral d => fun value => AdjustIntegral d (kShift (Integral d) Src) value
  | Floating _ => fun value => value
  end.

Definition NarrowingRange_max (Dst Src : NumericType) (B : Bounds) : Value Dst :=
  Adjust Dst Src (bounds_max B Dst).

Definition NarrowingRange_lowest (Dst Src : NumericType) (B : Bounds) : Value Dst :=
  Adjust Dst Src (bounds_lowest B Dst).

(* ================================================================== *)
(** ** The static range relation *)

Definition representation (T : NumericType) : IntegerRepresentation :=
  if is_signed T then kSigned else kUnsigned.

Definition kStaticDstRangeRelationToSrcRange (Dst Src : NumericType)
  : NumericRangeRepresentation :=
  match representation Dst, representation Src with
  | kSigned, kUnsigned =>
      if kMaxExponent Src <? kMaxExponent Dst then kContained else kNotContained
  | kUnsigned, kSigned => kNotContained
  | _, _ =>
      if kMaxExponent Src <=? kMaxExponent Dst then kContained else kNotContained
  end.

(* ================================================================== *)
(** ** The range check result *)

Record RangeCheck := RangeCheckFlags {
  is_underflow_ : bool;
  is_overflow_ : bool
}.

(** The constructor [RangeCheck(is_in_lower_bound, is_in_upper_bound)]. *)
Definition mkRangeCheck (is_in_lower_bound is_in_upper_bound : bool) : RangeCheck :=
  {| is_underflow_ := negb is_in_lower_bound;
     is_overflow_ := negb is_in_upper_bound |}.

Definition IsValid (c : RangeCheck) : bool :=
  negb (is_overflow_ c) && negb (is_underflow_ c).
Definition IsInvalid (c : RangeCheck) : bool :=
  is_overflow_ c && is_underflow_ c.
Definition IsOverflow (c : RangeCheck) : bool :=
  is_overflow_ c && negb (is_underflow_ c).
Definition IsUnderflow (c : RangeCheck) : bool :=
  negb (is_overflow_ c) && is_underflow_ c.
Definition IsOverflowFlagSet (c : RangeCheck) : bool := is_overflow_ c.
Definition IsUnderflowFlagSet (c : RangeCheck) : bool := is_underflow_ c.

(* ================================================================== *)
(** ** The range classifier *)

(** Default case: the range is contained. *)
Definition Check_default (Dst Src : NumericType) (B : Bounds) (value : Value Src)
  : option RangeCheck :=
  let DstLimits_lowest := NarrowingRange_lowest Dst Src B in
  let DstLimits_max := NarrowingRange_max Dst Src B in
  lower <- (x <- static_cast Dst Src (numeric_limits_lowest Src) ;;
            Some (op_ge (A:=Dst) x DstLimits_lowest))
           ||| (x <- static_cast Dst Src value ;;
                Some (op_ge (A:=Dst) x DstLimits_lowest)) ;;
  upper <- (x <- static_cast Dst Src (numeric_limits_max Src) ;;
            Some (op_le (A:=Dst) x DstLimits_max))
           ||| (x <- static_cast Dst Src value ;;
                Some (op_le (A:=Dst) x DstLimits_max)) ;;
  Some (mkRangeCheck lower upper).

(** Signed to signed narrowing. *)
Definition Check_signed_signed (Dst Src : NumericType) (B : Bounds) (value : Value Src)
  : option RangeCheck :=
  let DstLimits_lowest := NarrowingRange_lowest Dst Src B in
  let DstLimits_max := NarrowingRange_max Dst Src B in
  Some (mkRangeCheck (op_ge value DstLimits_lowest) (op_le value DstLimits_max)).

(** Unsigned to unsigned narrowing. *)
Definition Check_unsigned_unsigned (Dst Src : NumericType) (B : Bounds) (value : Value Src)
  : option RangeCheck :=
  let DstLimits_lowest := NarrowingRange_lowest Dst Src B in
  let DstLimits_max := NarrowingRange_max Dst Src B in
  Some (mkRangeCheck
          (op_eq DstLimits_lowest (literal Dst 0) || op_ge value DstLimits_lowest)
          (op_le value DstLimits_max)).

(** Unsigned to signed. *)
Definition Check_unsigned_signed (Dst Src : NumericType) (B : Bounds) (value : Value Src)
  : option RangeCheck :=
  let DstLimits_lowest := NarrowingRange_lowest Dst Src B in
  let DstLimits_max := NarrowingRange_max Dst Src B in
  let P := Promotion Src Dst in
  lower <- Some (op_le DstLimits_lowest (literal Dst 0))
           ||| (x <- static_cast P Src value ;;
                y <- static_cast P Dst DstLimits_lowest ;;
                Some (op_ge (A:=P) (B:=P) x y)) ;;
  upper <- (x <- static_cast P Src value ;;
            y <- static_cast P Dst DstLimits_max ;;
            Some (op_le (A:=P) (B:=P) x y)) ;;
  Some (mkRangeCheck lower upper).

(** Signed to unsigned. *)
Definition Check_signed_unsigned (Dst Src : NumericType) (B : Bounds) (value : Value Src)
  : option RangeCheck :=
  let DstLimits_lowest := NarrowingRange_lowest Dst Src B in
  let DstLimits_max := NarrowingRange_max Dst Src B in
  let P := Promotion Src Dst in
  let ge_zero :=
    if is_floating_point Src
    then op_gt value (literal Src (-1))
    else op_ge value (literal Src 0) in
  lower <- Some ge_zero
           &&& (Some (op_eq DstLimits_lowest (int_literal 0))
                ||| (x <- static_cast Dst Src value ;;
                     Some (op_ge (A:=Dst) x DstLimits_lowest))) ;;
  upper <- (x <- static_cast P Src (numeric_limits_max Src) ;;
            y <- static_cast P Dst DstLimits_max ;;
            Some (op_le (A:=P) (B:=P) x y))
           ||| (x <- static_cast P Src value ;;
                y <- static_cast P Dst DstLimits_max ;;
                Some (op_le (A:=P) (B:=P) x y)) ;;
  Some (mkRangeCheck lower upper).

(** [DstRangeRelationToSrcRangeImpl<Dst, Src, Bounds>::Check]: the
    specialisation is selected by the signedness of both types and the
    static range relation. *)
Definition DstRangeRelationToSrcRangeImpl_Check
  (Dst Src : NumericType) (B : Bounds) (value : Value Src) : option RangeCheck :=
  match representation Dst, representation Src,
        kStaticDstRangeRelationToSrcRange Dst Src with
  | kSigned, kSigned, kNotContained => Check_signed_signed Dst Src B value
  | kUnsigned, kUnsigned, kNotContained => Check_unsigned_unsigned Dst Src B value
  | kSigned, kUnsigned, kNotContained => Check_unsigned_signed Dst Src B value
  | kUnsigned, kSigned, kNotContained => Check_signed_unsigned Dst Src B value
  | _, _, _ => Check_default Dst Src B value
  end.

(** The constraint of [DstRangeRelationToSrcRange]:
    [Bounds<Dst>::lowest() < Bounds<Dst>::max()]. *)
Definition DstRangeRelationToSrcRange_requires (Dst : NumericType) (B : Bounds) : bool :=
  op_lt (bounds_lowest B Dst) (bounds_max B Dst).

Definition DstRangeRelationToSrcRange
  (Dst : NumericType) (B : Bounds) (Src : NumericType) (value : Value Src)
  : option RangeCheck :=
  DstRangeRelationToSrcRangeImpl_Check Dst Src B value.

(* ================================================================== *)
(** ** Saturation handlers *)

(** [x * n] for an integer literal [n], converted back to [T]. *)
Definition mul_literal (T : NumericType) : Value T -> Z -> Value T :=
  match T as T' return Value T' -> Z -> Value T' with
  | Integral t => fun x n => wrap t (x * n)
  | Floating k => fun x n => SFmul (prec k) (emax k) x (int_to_float k n)
  end.

Definition DefaultLimits_NaN (T : NumericType) : Value T :=
  if has_quiet_NaN T then numeric_limits_quiet_NaN T else zero T.

Definition DefaultLimits_Overflow (T : NumericType) : Value T :=
  if has_infinity T then numeric_limits_infinity T else numeric_limits_max T.

Definition DefaultLimits_Underflow (T : NumericType) : Value T :=
  if has_infinity T
  then mul_literal T (numeric_limits_infinity T) (-1)
  else numeric_limits_lowest T.

(** The members a handler class provides. *)
Record HandlerClass := {
  handler_bounds : Bounds;
  handler_NaN : forall T : NumericType, Value T;
  handler_Overflow : forall T : NumericType, Value T;
  handler_Underflow : forall T : NumericType, Value T
}.

(** A [template <typename> class SaturationHandler] argument: the default
    handler, or a class of the caller's.  A caller's class is a different
    type from the default one, whatever its members return. *)
Inductive SaturationHandler :=
| SaturationDefaultLimits
| CustomHandler (h : HandlerClass).

Definition is_SaturationDefaultLimits (S : SaturationHandler) : bool :=
  match S with SaturationDefaultLimits => true | CustomHandler _ => false end.

Definition S_bounds (S : SaturationHandler) : Bounds :=
  match S with
  | SaturationDefaultLimits => std_numeric_limits
  | CustomHandler h => handler_bounds h
  end.

Definition S_NaN (S : SaturationHandler) (T : NumericType) : Value T :=
  match S with
  | SaturationDefaultLimits => DefaultLimits_NaN T
  | CustomHandler h => handler_NaN h T
  end.

Definition S_Overflow (S : SaturationHandler) (T : NumericType) : Value T :=
  match S with
  | SaturationDefaultLimits => DefaultLimits_Overflow T
  | CustomHandler h => handler_Overflow h T
  end.

Definition S_Underflow (S : SaturationHandler) (T : NumericType) : Value T :=
  match S with
  | SaturationDefaultLimits => DefaultLimits_Underflow T
  | CustomHandler h => handler_Underflow h T
  end.

(* ================================================================== *)
(** ** The saturating cast, general path *)

Definition saturated_cast_impl
  (Dst : NumericType) (S : SaturationHandler) (Src : NumericType)
  (value : Value Src) (constraint : RangeCheck) : option (Value Dst) :=
  if negb (IsOverflowFlagSet constraint)
  then (if negb (IsUnderflowFlagSet constraint)
        then static_cast Dst Src value
        else Some (S_Underflow S Dst))
  else (if is_integral Src || negb (IsUnderflowFlagSet constraint)
        then Some (S_Overflow S Dst)
        else Some (S_NaN S Dst)).

(* ================================================================== *)
(** ** The accelerated path and the public entry point *)

Section FastPath.

(** The comparison helpers [IsGreaterOrEqual<L, R>::Test] and
    [IsLessOrEqual<L, R>::Test], the constant
    [kIsTypeInRangeForNumericType<Dst, Src>], the conversion [as_unsigned]
    and the target-specific [SaturateFastAsmOp<Dst, Src>] are used by the
    code below and declared elsewhere; they are parameters here. *)
Variable IsGreaterOrEqual_Test : forall L R : NumericType, Value L -> Value R -> bool.
Variable IsLessOrEqual_Test : forall L R : NumericType, Value L -> Value R -> bool.
Variable kIsTypeInRangeForNumericType : NumericType -> NumericType -> bool.
Variable as_unsigned : IntType -> Z -> Z.
Variable SaturateFastAsmOp_is_supported : NumericType -> NumericType -> bool.
Variable SaturateFastAsmOp_Do : forall Dst Src : NumericType, Value Src -> Value Dst.

Definition kIsMaxInRangeForNumericType (Dst Src : NumericType) : bool :=
  IsGreaterOrEqual_Test Dst Src (numeric_limits_max Dst) (numeric_limits_max Src).

Definition kIsMinInRangeForNumericType (Dst Src : NumericType) : bool :=
  IsLessOrEqual_Test Dst Src (numeric_limits_lowest Dst) (numeric_limits_lowest Src).

Definition kCommonMax (Dst Src : NumericType) : option (Value Dst) :=
  if kIsMaxInRangeForNumericType Dst Src
  then static_cast Dst Src (numeric_limits_max Src)
  else Some (numeric_limits_max Dst).

Definition kCommonMin (Dst Src : NumericType) : option (Value Dst) :=
  if kIsMinInRangeForNumericType Dst Src
  then static_cast Dst Src (numeric_limits_lowest Src)
  else Some (numeric_limits_lowest Dst).

Definition CommonMaxOrMin (Dst Src : NumericType) (is_min : bool) : option (Value Dst) :=
  if is_min then kCommonMin Dst Src else kCommonMax Dst Src.

(** Which specialisation of [IsValueInRangeFastOp] a pair selects. *)
Definition IsValueInRangeFastOp_signed_signed (Dst Src : NumericType) : bool :=
  is_integral Dst && is_signed Dst && is_integral Src && is_signed Src
  && negb (kIsTypeInRangeForNumericType Dst Src).

Definition IsValueInRangeFastOp_signed_unsigned (Dst Src : NumericType) : bool :=
  is_integral Dst && negb (is_signed Dst) && is_integral Src && is_signed Src
  && negb (kIsTypeInRangeForNumericType Dst Src).

Definition IsValueInRangeFastOp_is_supported (Dst Src : NumericType) : bool :=
  IsValueInRangeFastOp_signed_signed Dst Src
  || IsValueInRangeFastOp_signed_unsigned Dst Src.

Definition IsValueInRangeFastOp_Do (Dst Src : NumericType) (value : Value Src)
  : option bool :=
  if IsValueInRangeFastOp_signed_signed Dst Src then
    x <- static_cast Dst Src value ;;
    Some (op_eq value (x : Value Dst))
  else if IsValueInRangeFastOp_signed_unsigned Dst Src then
    match Src as S return Value S -> option (Value S) -> option bool with
    | Integral s => fun v common_max =>
        m <- common_max ;;
        let U := Integral (make_unsigned s) in
        Some (op_le (A:=U) (B:=U) (as_unsigned s v) (as_unsigned s m))
    | Floating _ => fun _ _ => None
    end value (kCommonMax Src Dst)
  else None.

Definition IsValueInRangeForNumericType (Dst Src : NumericType) (value : Value Src)
  : option bool :=
  if IsValueInRangeFastOp_is_supported Dst Src
  then IsValueInRangeFastOp_Do Dst Src value
  else c <- DstRangeRelationToSrcRange Dst std_numeric_limits Src value ;;
       Some (IsValid c).

Definition SaturateFastOp_is_supported (Dst Src : NumericType) : bool :=
  is_integral Src && is_integral Dst.

(** [SaturateFastOp<Dst, Src>::Do]: the primary template cannot be
    instantiated; for two integer types the target-specific operation is
    used when there is one, the portable one otherwise. *)
Definition SaturateFastOp_Do (Dst Src : NumericType) (value : Value Src)
  : option (Value Dst) :=
  if negb (is_integral Src && is_integral Dst) then None
  else if SaturateFastAsmOp_is_supported Dst Src
  then Some (SaturateFastAsmOp_Do Dst Src value)
  else
    saturated <- CommonMaxOrMin Dst Src
                   (kIsMaxInRangeForNumericType Dst Src
                    || (negb (kIsMinInRangeForNumericType Dst Src)
                        && IsValueNegative Src value)) ;;
    in_range <- IsValueInRangeForNumericType Dst Src value ;;
    if in_range then static_cast Dst Src value else Some saturated.

(** [saturated_cast<Dst, SaturationHandler>(value)] for a value of an
    arithmetic type [Src] (which is its own underlying type);
    [is_constant_evaluated] tells whether the call is evaluated at
    compile time. *)
Definition saturated_cast
  (Dst : NumericType) (S : SaturationHandler) (Src : NumericType)
  (is_constant_evaluated : bool) (value : Value Src) : option (Value Dst) :=
  if negb is_constant_evaluated
     && SaturateFastOp_is_supported Dst Src
     && is_SaturationDefaultLimits S
  then SaturateFastOp_Do Dst Src value
  else c <- DstRangeRelationToSrcRange Dst (S_bounds S) Src value ;;
       saturated_cast_impl Dst S Src value c.

End FastPath.

(* ================================================================== *)
(** ** A portable build *)

(** An instance of the parameters of [FastPath]: comparisons that are exact
    on integers (the built-in comparison elsewhere), the static range
    relation as [kIsTypeInRangeForNumericType], conversion to the unsigned
    type of the same width as [as_unsigned], and no target-specific
    operation. *)
Module Portable.

Definition IsGreaterOrEqual_Test (L R : NumericType) : Value L -> Value R -> bool :=
  match L as L', R as R' return Value L' -> Value R' -> bool with
  | Integral _, Integral _ => fun x y => y <=? x
  | Integral l, Floating k => fun x y => op_ge (A:=Integral l) (B:=Floating k) x y
  | Floating k, Integral r => fun x y => op_ge (A:=Floating k) (B:=Integral r) x y
  | Floating k, Floating k' => fun x y => op_ge (A:=Floating k) (B:=Floating k') x y
  end.

Definition IsLessOrEqual_Test (L R : NumericType) : Value L -> Value R -> bool :=
  match L as L', R as R' return Value L' -> Value R' -> bool with
  | Integral _, Integral _ => fun x y => x <=? y
  | Integral l, Floating k => fun x y => op_le (A:=Integral l) (B:=Floating k) x y
  | Floating k, Integral r => fun x y => op_le (A:=Floating k) (B:=Integral r) x y
  | Floating k, Floating k' => fun x y => op_le (A:=Floating k) (B:=Floating k') x y
  end.

Definition kIsTypeInRangeForNumericType (Dst Src : NumericType) : bool :=
  match kStaticDstRangeRelationToSrcRange Dst Src with
  | kContained => true
  | kNotContained => false
  end.

Definition as_unsigned (T : IntType) (z : Z) : Z := wrap (make_unsigned T) z.

Definition SaturateFastAsmOp_is_supported (Dst Src : NumericType) : bool := false.

Definition SaturateFastAsmOp_Do (Dst Src : NumericType) (_ : Value Src) : Value Dst :=
  zero Dst.

Definition SaturateFastOp_Do :=
  SaturateFastOp_Do IsGreaterOrEqual_Test IsLessOrEqual_Test
    kIsTypeInRangeForNumericType as_unsigned
    SaturateFastAsmOp_is_supported SaturateFastAsmOp_Do.

Definition saturated_cast :=
  saturated_cast IsGreaterOrEqual_Test IsLessOrEqual_Test
    kIsTypeInRangeForNumericType as_unsigned
    SaturateFastAsmOp_is_supported SaturateFastAsmOp_Do.

End Portable.

(* ================================================================== *)
(** ** Fixed-point storage *)

Section FixedPoint.
Variable IsGreaterOrEqual_Test : forall L R : NumericType, Value L -> Value R -> bool.
Variable IsLessOrEqual_Test : forall L R : NumericType, Value L -> Value R -> bool.
Variable kIsTypeInRangeForNumericType : NumericType -> NumericType -> bool.
Variable as_unsigned : IntType -> Z -> Z.
Variable SaturateFastAsmOp_is_supported : NumericType -> NumericType -> bool.
Variable SaturateFastAsmOp_Do : forall Dst Src : NumericType, Value Src -> Value Dst.

(** [FixedPoint<fractional_bits, Storage>::ClampRawValue<T>(raw_value)]:
    the raw value saturated to the storage type with the default handler. *)
Definition ClampRawValue
  (Storage T : NumericType) (is_constant_evaluated : bool) (raw_value : Value T)
  : option (Value Storage) :=
  saturated_cast IsGreaterOrEqual_Test IsLessOrEqual_Test
    kIsTypeInRangeForNumericType as_unsigned
    SaturateFastAsmOp_is_supported SaturateFastAsmOp_Do
    Storage SaturationDefaultLimits T is_constant_evaluated raw_value.

End FixedPoint.

(* ================================================================== *)
(** ** Notions the stated properties refer to *)

(** The resolution order in the words of the design document: with the
    overflow flag clear, the converted value, or the underflow value when
    the underflow flag is set; with the overflow flag set, the NaN value for
    a floating-point source whose underflow flag is also set, the overflow
    value in every other case. *)
Definition resolution_order
  (Dst : NumericType) (S : SaturationHandler) (Src : NumericType)
  (value : Value Src) (constraint : RangeCheck) : option (Value Dst) :=
  match is_overflow_ constraint, is_underflow_ constraint with
  | false, false => static_cast Dst Src value
  | false, true => Some (S_Underflow S Dst)
  | true, true =>
      if is_floating_point Src then Some (S_NaN S Dst) else Some (S_Overflow S Dst)
  | true, false => Some (S_Overflow S Dst)
  end.

(** A policy in the sense of the design document: the three boundary
    functions are the handler's own, the bounds are the standard limits. *)
Definition standard_limits (S : SaturationHandler) : Prop :=
  S_bounds S = std_numeric_limits.

(** The mathematical value of a floating-point datum compared with an
    integer, without rounding. *)
Definition float_compare_int (f : spec_float) (z : Z) : option comparison :=
  match f with
  | S754_nan => None
  | S754_infinity s => Some (if s then Lt else Gt)
  | S754_zero _ => Some (0 ?= z)
  | S754_finite s m e =>
      let n := cond_Zopp s (Zpos m) in
      match e with
      | Z0 => Some (n ?= z)
      | Zpos p => Some (n * 2 ^ Zpos p ?= z)
      | Zneg p => Some (n ?= z * 2 ^ Zpos p)
      end
  end.

(** The value an integer is clamped to by the limits of a type. *)
Definition clamp (d : IntType) (v : Z) : Z :=
  Z.max (int_lowest d) (Z.min v (int_max d)).

(** Two floating-point data, of any formats, that denote the same number:
    zeros of the same sign, or finite data of the same sign whose
    mantissas agree once brought to the smaller exponent. *)
Definition same_float (r v : spec_float) : bool :=
  match r, v with
  | S754_zero s1, S754_zero s2 => Bool.eqb s1 s2
  | S754_finite s1 m1 e1, S754_finite s2 m2 e2 =>
      Bool.eqb s1 s2
      && (Zpos m1 * 2 ^ (e1 - Z.min e1 e2) =? Zpos m2 * 2 ^ (e2 - Z.min e1 e2))
  | _, _ => false
  end.

(** [represents Dst Src r v]: the datum [r] of [Dst] is the number that the
    value [v] of [Src] denotes, so that [Dst] represents [v] exactly.  The
    integer zero is represented by the positive zero. *)
Definition represents (Dst Src : NumericType) : Value Dst -> Value Src -> bool :=
  match Dst as D, Src as S return Value D -> Value S -> bool with
  | Integral _, Integral _ => fun r v => r =? v
  | Integral _, Floating _ =>
      fun r v => match float_compare_int v r with Some Eq => true | _ => false end
  | Floating _, Integral _ =>
      fun r v =>
        match r with
        | S754_zero true => false
        | _ => match float_compare_int r v with Some Eq => true | _ => false end
        end
  | Floating _, Floating _ => fun r v => same_float r v
  end.

(** What a value is expected to come back as: itself, except that a zero
    that went through an integer type has lost its sign. *)
Definition round_trip_value (Dst Src : NumericType) : Value Src -> Value Src :=
  match Dst, Src as S return Value S -> Value S with
  | Integral _, Floating _ =>
      fun v => match v with S754_zero _ => S754_zero false | _ => v end
  | _, _ => fun v => v
  end.

(* ================================================================== *)
(** * Properties *)

(** ** Integer comparisons as comparisons on [Z] *)

Section IntCompare.
Variables a b : IntType.
Variables x y : Z.
Let c := common_int a b.

Lemma op_lt_int : @op_lt (Integral a) (Integral b) x y = (wrap c x <? wrap c y).
Proof. unfold op_lt, compare_values, Z.ltb. destruct (_ ?= _); reflexivity. Qed.

Lemma op_le_int : @op_le (Integral a) (Integral b) x y = (wrap c x <=? wrap c y).
Proof. unfold op_le, compare_values, Z.leb. destruct (_ ?= _); reflexivity. Qed.

Lemma op_gt_int : @op_gt (Integral a) (Integral b) x y = (wrap c y <? wrap c x).
Proof.
  unfold op_gt, compare_values, Z.ltb. fold c.
  rewrite (Z.compare_antisym (wrap c x) (wrap c y)).
  destruct (wrap c x ?= wrap c y); reflexivity.
Qed.

Lemma op_ge_int : @op_ge (Integral a) (Integral b) x y = (wrap c y <=? wrap c x).
Proof.
  unfold op_ge, compare_values, Z.leb. fold c.
  rewrite (Z.compare_antisym (wrap c x) (wrap c y)).
  destruct (wrap c x ?= wrap c y); reflexivity.
Qed.

Lemma op_eq_int : @op_eq (Integral a) (Integral b) x y = (wrap c x =? wrap c y).
Proof.
  unfold op_eq, compare_values. fold c.
  destruct (Z.compare_spec (wrap c x) (wrap c y)) as [E | L | G]; symmetry.
  - apply Z.eqb_eq; exact E.
  - apply Z.eqb_neq; lia.
  - apply Z.eqb_neq; lia.
Qed.
End IntCompare.

(** ** Normalisation of goals over concrete integer types *)

Ltac int_compare :=
  rewrite ?op_lt_int, ?op_le_int, ?op_gt_int, ?op_ge_int, ?op_eq_int in *.

Ltac norm_types :=
  cbv [common_int promote make_unsigned make_signed width_leb
       int_sign int_width int_is_signed is_signed is_integral is_floating_point
       representation int_literal
       Int8 Int16 Int32 Int64 UInt8 UInt16 UInt32 UInt64] in *.

Ltac norm_limits :=
  repeat match goal with
    | |- context [int_max ?t] =>
        let r := eval vm_compute in (int_max t) in change (int_max t) with r in *
    | |- context [int_lowest ?t] =>
        let r := eval vm_compute in (int_lowest t) in change (int_lowest t) with r in *
    | |- context [int_digits ?t] =>
        let r := eval vm_compute in (int_digits t) in change (int_digits t) with r in *
    | H : context [int_max ?t] |- _ =>
        let r := eval vm_compute in (int_max t) in change (int_max t) with r in *
    | H : context [int_lowest ?t] |- _ =>
        let r := eval vm_compute in (int_lowest t) in change (int_lowest t) with r in *
    | H : context [int_digits ?t] |- _ =>
        let r := eval vm_compute in (int_digits t) in change (int_digits t) with r in *
    end.

Ltac wrap_at w z sg :=
  let m := eval vm_compute in (2 ^ bits w) in
  let h := eval vm_compute in (2 ^ bits w / 2) in
  lazymatch sg with
  | kSigned => change (wrap (MkInt kSigned w) z) with ((z + h) mod m - h) in *
  | kUnsigned => change (wrap (MkInt kUnsigned w) z) with (z mod m) in *
  end.

Ltac norm_wrap :=
  repeat match goal with
    | |- context [wrap (MkInt ?sg ?w) ?z] => wrap_at w z sg
    | H : context [wrap (MkInt ?sg ?w) ?z] |- _ => wrap_at w z sg
    end.

Ltac norm_int := int_compare; norm_types; norm_limits; norm_wrap.

Ltac zsolve := Z.div_mod_to_equations; lia.

Ltac split_ifs :=
  repeat match goal with
    | |- context [if ?c then _ else _] => destruct c eqn:?
    end.

(** ** Bit masks *)

Lemma land_neg_pow2 (a k : Z) : 0 <= k -> Z.land a (- 2 ^ k) = 2 ^ k * (a / 2 ^ k).
Proof.
  intros Hk.
  replace (- 2 ^ k) with (Z.lnot (Z.ones k)).
  - rewrite <- Z.ldiff_land, Z.ldiff_ones_r by assumption.
    rewrite Z.shiftl_mul_pow2, Z.shiftr_div_pow2 by assumption. lia.
  - rewrite Z.ones_equiv. unfold Z.lnot. lia.
Qed.

Lemma land_neg_pow2_mod (a k w : Z) :
  0 <= k -> 0 <= w -> 0 <= a < 2 ^ w ->
  Z.land a ((- 2 ^ k) mod 2 ^ w) = 2 ^ k * (a / 2 ^ k).
Proof.
  intros Hk Hw Ha.
  rewrite <- Z.land_ones by assumption.
  rewrite (Z.land_comm (- 2 ^ k)), Z.land_assoc, Z.land_ones by assumption.
  rewrite Z.mod_small by assumption.
  apply land_neg_pow2; assumption.
Qed.

Lemma lxor_ones (x w : Z) :
  0 <= w -> 0 <= x < 2 ^ w -> Z.lxor x (2 ^ w - 1) = 2 ^ w - 1 - x.
Proof.
  intros Hw Hx.
  replace (2 ^ w - 1) with (Z.ones w) by (rewrite Z.ones_equiv; lia).
  assert (Hdisj : Z.land x (Z.lxor x (Z.ones w)) = 0).
  { apply Z.bits_inj'. intros n Hn.
    rewrite Z.land_spec, Z.lxor_spec, Z.bits_0.
    destruct (Z.lt_ge_cases n w) as [Hlt | Hge].
    - rewrite Z.ones_spec_low by lia. destruct (Z.testbit x n); reflexivity.
    - rewrite <- (Z.mod_small x (2 ^ w)) by assumption.
      rewrite Z.mod_pow2_bits_high by lia. reflexivity. }
  apply Z.add_nocarry_lxor in Hdisj.
  rewrite <- Z.lxor_assoc, Z.lxor_nilpotent, Z.lxor_0_l in Hdisj.
  lia.
Qed.

(** ** [SafeUnsignedAbs] and [ConditionalNegate] *)

Lemma SafeUnsignedAbs_abs (T : IntType) (v : Z) :
  has_type (Integral T) v = true -> SafeUnsignedAbs T v = Z.abs v.
Proof.
  destruct T as [[] []]; unfold SafeUnsignedAbs, IsValueNegative, int_sub, has_type;
    norm_int; intros H; split_ifs; zsolve.
Qed.

Ltac xor_const x :=
  match goal with
  | |- context [Z.lxor ?a ?m] =>
      replace a with x by zsolve;
      let m' := eval vm_compute in m in
      change m with m';
      first [ rewrite Z.lxor_0_r
            | change m' with (2 ^ 8 - 1); rewrite (lxor_ones x 8) by lia
            | change m' with (2 ^ 16 - 1); rewrite (lxor_ones x 16) by lia
            | change m' with (2 ^ 32 - 1); rewrite (lxor_ones x 32) by lia
            | change m' with (2 ^ 64 - 1); rewrite (lxor_ones x 64) by lia ]
  end.

Lemma ConditionalNegate_spec (T : IntType) (x : Z) (b : bool) :
  0 <= x < 2 ^ bits (int_width T) ->
  ConditionalNegate T x b = wrap (make_signed T) (if b then - x else x).
Proof.
  intros Hx.
  destruct T as [[] []]; destruct b;
    unfold ConditionalNegate, int_add, int_xor, int_neg; norm_int; cbn [Z.b2z];
    cbv [bits int_width] in Hx; xor_const x; zsolve.
Qed.

(** ** The integral branch of [Adjust] *)

Lemma IsValueNegative_int (d : IntType) (v : Z) :
  has_type (Integral d) v = true -> IsValueNegative (Integral d) v = (v <? 0).
Proof.
  destruct d as [[] []]; unfold IsValueNegative, has_type; norm_int; intros H; zsolve.
Qed.

Ltac is_Zlit e :=
  lazymatch e with Z0 => idtac | Zpos _ => idtac | Zneg _ => idtac end.

(** Evaluation of the closed arithmetic left by the conversions. *)
Ltac fold_lit op x y :=
  is_Zlit x; is_Zlit y;
  let r := eval vm_compute in (op x y) in change (op x y) with r in *.

Ltac fold_arith :=
  repeat match goal with
    | |- context [Z.add ?x ?y] => fold_lit Z.add x y
    | |- context [Z.sub ?x ?y] => fold_lit Z.sub x y
    | |- context [Z.modulo ?x ?y] => fold_lit Z.modulo x y
    | |- context [Z.pow ?x ?y] => fold_lit Z.pow x y
    | H : context [Z.add ?x ?y] |- _ => fold_lit Z.add x y
    | H : context [Z.sub ?x ?y] |- _ => fold_lit Z.sub x y
    | H : context [Z.pow ?x ?y] |- _ => fold_lit Z.pow x y
    end.

(** The mask keeps the bits of the magnitude from [k] upwards. *)
Lemma Adjust_mask (d : IntType) (k a : Z) :
  0 <= k < int_digits d -> 0 <= a <= Z.max (int_max d) (- int_lowest d) ->
  let U := make_unsigned d in
  let T1 := promote U in
  let T2 := common_int T1 U in
  let T3 := promote T2 in
  int_and U T3 a (int_not T2 (int_sub T1 U (int_shl U (wrap U 1) k) (wrap U 1)))
  = 2 ^ k * (a / 2 ^ k).
Proof.
  intros Hk Ha.
  assert (Hp : 1 <= 2 ^ k) by (apply (Z.pow_le_mono_r 2 0 k); lia).
  assert (Hp' : 2 ^ k <= 2 ^ (int_digits d - 1)) by (apply Z.pow_le_mono_r; lia).
  assert (Hq : 2 ^ k * (a / 2 ^ k) <= a) by (apply Z.mul_div_le; lia).
  assert (Hq0 : 0 <= 2 ^ k * (a / 2 ^ k))
    by (apply Z.mul_nonneg_nonneg; [lia | apply Z.div_pos; lia]).
  pose proof (land_neg_pow2 a k (proj1 Hk)) as Hs.
  assert (H32 : a < 2 ^ 32 -> Z.land a ((- 2 ^ k) mod 2 ^ 32) = 2 ^ k * (a / 2 ^ k))
    by (intros; apply land_neg_pow2_mod; lia).
  assert (H64 : a < 2 ^ 64 -> Z.land a ((- 2 ^ k) mod 2 ^ 64) = 2 ^ k * (a / 2 ^ k))
    by (intros; apply land_neg_pow2_mod; lia).
  destruct d as [[] []]; cbv zeta;
    unfold int_and, int_not, int_sub, int_shl; norm_int;
    rewrite Z.shiftl_mul_pow2 by lia; unfold Z.lnot, Z.pred; fold_arith;
    rewrite ?Z.mul_1_l;
    set (t := 2 ^ k * (a / 2 ^ k)) in *; clearbody t;
    set (p := 2 ^ k) in *; clearbody p.
  all: match goal with
       | |- context [Z.land ?x ?y] =>
           replace x with a by zsolve;
           first [ replace y with (- p) by zsolve; rewrite Hs
                 | replace y with ((- p) mod 4294967296) by zsolve; rewrite H32 by lia
                 | replace y with ((- p) mod 18446744073709551616) by zsolve;
                   rewrite H64 by lia ]
       end.
  all: zsolve.
Qed.

(** [Adjust] clears the low [k] bits of the magnitude and keeps the sign. *)
Lemma AdjustIntegral_spec (d : IntType) (k v : Z) :
  has_type (Integral d) v = true -> 0 <= k < int_digits d ->
  AdjustIntegral d k v = Z.sgn v * (2 ^ k * (Z.abs v / 2 ^ k)).
Proof.
  intros Hv Hk.
  assert (Ha : 0 <= Z.abs v <= Z.max (int_max d) (- int_lowest d))
    by (destruct d as [[] []]; unfold has_type in Hv; norm_int; lia).
  pose proof (Adjust_mask d k (Z.abs v) Hk Ha) as Hm. cbv zeta in Hm.
  unfold AdjustIntegral. cbv zeta.
  rewrite (SafeUnsignedAbs_abs d v Hv), (IsValueNegative_int d v Hv), Hm.
  assert (Hp : 1 <= 2 ^ k) by (apply (Z.pow_le_mono_r 2 0 k); lia).
  assert (Hq : 2 ^ k * (Z.abs v / 2 ^ k) <= Z.abs v) by (apply Z.mul_div_le; lia).
  assert (Hq0 : 0 <= 2 ^ k * (Z.abs v / 2 ^ k))
    by (apply Z.mul_nonneg_nonneg; [lia | apply Z.div_pos; lia]).
  set (t := 2 ^ k * (Z.abs v / 2 ^ k)) in *. clearbody t. clear Hm.
  rewrite ConditionalNegate_spec.
  - destruct d as [[] []]; unfold has_type in Hv; norm_int;
      destruct (v <? 0) eqn:E; zsolve.
  - destruct d as [[] []]; unfold has_type in Hv; norm_int; cbv [bits];
      fold_arith; lia.
Qed.

(** ** The classifier on integer types *)

Lemma bind_Some {A B : Type} (a : A) (f : A -> option B) : bind (Some a) f = f a.
Proof. reflexivity. Qed.

Lemma lazy_or_Some (a b : bool) : lazy_or (Some a) (Some b) = Some (a || b).
Proof. destruct a; reflexivity. Qed.

Lemma lazy_and_Some (a b : bool) : lazy_and (Some a) (Some b) = Some (a && b).
Proof. destruct a; reflexivity. Qed.

Lemma lazy_or_true (b : option bool) : lazy_or (Some true) b = Some true.
Proof. reflexivity. Qed.

Ltac norm_option :=
  repeat (first [ rewrite bind_Some | rewrite lazy_or_Some
                | rewrite lazy_and_Some | rewrite lazy_or_true ];
          cbv beta).

(** Evaluation of the compile-time constants of a pair of concrete types. *)
Ltac eval_head t :=
  let r := eval vm_compute in t in change t with r.

Ltac eval_static :=
  repeat match goal with
    | |- context [kStaticDstRangeRelationToSrcRange ?d ?s] =>
        eval_head (kStaticDstRangeRelationToSrcRange d s)
    | |- context [NarrowingRange_max ?d ?s std_numeric_limits] =>
        eval_head (NarrowingRange_max d s std_numeric_limits)
    | |- context [NarrowingRange_lowest ?d ?s std_numeric_limits] =>
        eval_head (NarrowingRange_lowest d s std_numeric_limits)
    | |- context [numeric_limits_max (Integral ?t)] =>
        eval_head (numeric_limits_max (Integral t))
    | |- context [numeric_limits_lowest (Integral ?t)] =>
        eval_head (numeric_limits_lowest (Integral t))
    | |- context [representation ?t] => eval_head (representation t)
    end.

Ltac unfold_check :=
  unfold DstRangeRelationToSrcRange, DstRangeRelationToSrcRangeImpl_Check;
  eval_static; cbv iota beta;
  unfold Check_default, Check_signed_signed, Check_unsigned_unsigned,
    Check_unsigned_signed, Check_signed_unsigned;
  eval_static; cbv zeta;
  cbv [static_cast Promotion literal is_floating_point];
  norm_option.

Lemma classify_int (d s : IntType) (v : Z) :
  has_type (Integral s) v = true ->
  DstRangeRelationToSrcRange (Integral d) std_numeric_limits (Integral s) v
  = Some (mkRangeCheck (int_lowest d <=? v) (v <=? int_max d)).
Proof.
  destruct d as [[] []], s as [[] []]; unfold has_type; intros Hv;
    unfold_check; norm_int; do 2 f_equal; zsolve.
Qed.

(** ** The general path on integer types *)

Lemma wrap_in_range (d : IntType) (v : Z) :
  int_lowest d <= v <= int_max d -> wrap d v = v.
Proof. destruct d as [[] []]; norm_int; intros H; zsolve. Qed.

Lemma wrap_has_type (d : IntType) (v : Z) : has_type (Integral d) (wrap d v) = true.
Proof. destruct d as [[] []]; unfold has_type; norm_int; zsolve. Qed.

Lemma default_handlers_int (d : IntType) :
  S_Underflow SaturationDefaultLimits (Integral d) = int_lowest d
  /\ S_Overflow SaturationDefaultLimits (Integral d) = int_max d
  /\ S_NaN SaturationDefaultLimits (Integral d) = 0.
Proof. repeat split. Qed.

(** On integers the general path returns the value when it fits, the
    underflow value below the range and the overflow value above it. *)
Lemma general_path_int (S : SaturationHandler) (d s : IntType) (v : Z) :
  standard_limits S ->
  has_type (Integral s) v = true ->
  (c <- DstRangeRelationToSrcRange (Integral d) (S_bounds S) (Integral s) v ;;
   saturated_cast_impl (Integral d) S (Integral s) v c)
  = if v <? int_lowest d then Some (S_Underflow S (Integral d))
    else if int_max d <? v then Some (S_Overflow S (Integral d))
    else Some v.
Proof.
  intros HS Hv. rewrite HS, (classify_int d s v Hv), bind_Some.
  unfold saturated_cast_impl, mkRangeCheck, IsOverflowFlagSet, IsUnderflowFlagSet.
  cbn [is_overflow_ is_underflow_ is_integral orb static_cast].
  rewrite !negb_involutive.
  destruct (v <=? int_max d) eqn:Hmax, (int_lowest d <=? v) eqn:Hmin,
    (v <? int_lowest d) eqn:Hlt, (int_max d <? v) eqn:Hgt; try lia; try reflexivity.
  - rewrite wrap_in_range by lia. reflexivity.
  - exfalso. destruct d as [[] []]; norm_int; lia.
Qed.

(** ** The portable accelerated path *)

Ltac fold_bool :=
  repeat match goal with
    | |- context [Z.leb ?x ?y] => fold_lit Z.leb x y
    | |- context [Z.ltb ?x ?y] => fold_lit Z.ltb x y
    | |- context [Z.eqb ?x ?y] => fold_lit Z.eqb x y
    end;
  cbn [negb andb orb].

Section FastPathFacts.
Variable IsGreaterOrEqual_Test : forall L R : NumericType, Value L -> Value R -> bool.
Variable IsLessOrEqual_Test : forall L R : NumericType, Value L -> Value R -> bool.
Variable kIsTypeInRangeForNumericType : NumericType -> NumericType -> bool.
Variable as_unsigned : IntType -> Z -> Z.
Variable SaturateFastAsmOp_is_supported : NumericType -> NumericType -> bool.
Variable SaturateFastAsmOp_Do : forall Dst Src : NumericType, Value Src -> Value Dst.

(** What the code relies on from the helpers declared elsewhere: the two
    comparisons are exact on integers, and [as_unsigned] converts to the
    unsigned type of the same width. *)
Hypothesis IsGreaterOrEqual_int :
  forall (L R : IntType) (x y : Z),
    IsGreaterOrEqual_Test (Integral L) (Integral R) x y = (y <=? x).
Hypothesis IsLessOrEqual_int :
  forall (L R : IntType) (x y : Z),
    IsLessOrEqual_Test (Integral L) (Integral R) x y = (x <=? y).
Hypothesis as_unsigned_int :
  forall (T : IntType) (z : Z), as_unsigned T z = wrap (make_unsigned T) z.

Local Abbreviation FastDo :=
  (SaturateFastOp_Do IsGreaterOrEqual_Test IsLessOrEqual_Test
     kIsTypeInRangeForNumericType as_unsigned
     SaturateFastAsmOp_is_supported SaturateFastAsmOp_Do).

Lemma SaturateFastOp_clamp (d s : IntType) (v : Z) :
  SaturateFastAsmOp_is_supported (Integral d) (Integral s) = false ->
  has_type (Integral s) v = true ->
  FastDo (Integral d) (Integral s) v
  = Some (clamp d v).
Proof.
  intros Hasm Hv. unfold SaturateFastOp_Do, clamp.
  rewrite Hasm. cbn [is_integral andb negb].
  unfold CommonMaxOrMin, kCommonMin, kCommonMax, kIsMaxInRangeForNumericType,
    kIsMinInRangeForNumericType, IsValueInRangeForNumericType,
    IsValueInRangeFastOp_is_supported, IsValueInRangeFastOp_Do,
    IsValueInRangeFastOp_signed_signed, IsValueInRangeFastOp_signed_unsigned,
    kCommonMax, kIsMaxInRangeForNumericType.
  rewrite (classify_int d s v Hv).
  rewrite (IsValueNegative_int s v Hv).
  cbn [numeric_limits_max numeric_limits_lowest].
  rewrite !IsGreaterOrEqual_int, !IsLessOrEqual_int.
  destruct (kIsTypeInRangeForNumericType (Integral d) (Integral s));
    destruct d as [[] []], s as [[] []]; unfold has_type in Hv;
    cbn [is_integral is_signed int_is_signed int_sign negb andb orb];
    cbv [static_cast IsValid mkRangeCheck is_overflow_ is_underflow_];
    norm_types; norm_limits; fold_bool; norm_option; cbv zeta;
    rewrite ?as_unsigned_int; norm_int; fold_bool;
    repeat (cbn [bind]; split_ifs); f_equal; zsolve.
Qed.

Local Abbreviation saturated_cast' :=
  (saturated_cast IsGreaterOrEqual_Test IsLessOrEqual_Test
     kIsTypeInRangeForNumericType as_unsigned
     SaturateFastAsmOp_is_supported SaturateFastAsmOp_Do).

Lemma clamp_cases (d : IntType) (v : Z) :
  Some (clamp d v)
  = if v <? int_lowest d then Some (int_lowest d)
    else if int_max d <? v then Some (int_max d)
    else Some v.
Proof.
  assert (int_lowest d <= int_max d) by (destruct d as [[] []]; norm_int; lia).
  unfold clamp.
  destruct (v <? int_lowest d) eqn:Hlt; [apply (f_equal (@Some Z)); lia |].
  destruct (int_max d <? v) eqn:Hgt; apply (f_equal (@Some Z)); lia.
Qed.

(** The entry point on integers, on either branch. *)
Lemma saturated_cast_int
  (S : SaturationHandler) (d s : IntType) (ice : bool) (v : Z) :
  SaturateFastAsmOp_is_supported (Integral d) (Integral s) = false ->
  standard_limits S ->
  has_type (Integral s) v = true ->
  saturated_cast' (Integral d) S (Integral s) ice v
  = if v <? int_lowest d then Some (S_Underflow S (Integral d))
    else if int_max d <? v then Some (S_Overflow S (Integral d))
    else Some v.
Proof.
  intros Hasm HS Hv. unfold saturated_cast.
  destruct (negb ice && SaturateFastOp_is_supported (Integral d) (Integral s)
            && is_SaturationDefaultLimits S) eqn:Hfast.
  - destruct S as [| h]; [| rewrite andb_false_r in Hfast; discriminate].
    rewrite (SaturateFastOp_clamp d s v Hasm Hv).
    destruct (default_handlers_int d) as (-> & -> & _).
    apply clamp_cases.
  - apply general_path_int; assumption.
Qed.

Lemma contained_limits (d s : IntType) :
  kStaticDstRangeRelationToSrcRange (Integral d) (Integral s) = kContained ->
  int_lowest d <= int_lowest s /\ int_max s <= int_max d.
Proof.
  destruct d as [[] []], s as [[] []]; intros H; vm_compute in H;
    try discriminate H; norm_limits; lia.
Qed.

(** C2. For every pair of integer types, which is every pair the
    accelerated path supports, and every source value, the portable
    [SaturateFastOp::Do] returns what the general path returns with the
    default handler; so [saturated_cast] yields the same value on its
    run-time branch and on the branch taken in constant evaluation, and
    it does yield one. *)
Theorem SaturateFastOp_matches_general_path (d s : IntType) (v : Z) :
  SaturateFastAsmOp_is_supported (Integral d) (Integral s) = false ->
  has_type (Integral s) v = true ->
  SaturateFastOp_is_supported (Integral d) (Integral s) = true
  /\ FastDo (Integral d) (Integral s) v
     = (c <- DstRangeRelationToSrcRange
               (Integral d) (S_bounds SaturationDefaultLimits) (Integral s) v ;;
        saturated_cast_impl (Integral d) SaturationDefaultLimits (Integral s) v c)
  /\ saturated_cast' (Integral d) SaturationDefaultLimits (Integral s) false v
     = saturated_cast' (Integral d) SaturationDefaultLimits (Integral s) true v
  /\ saturated_cast' (Integral d) SaturationDefaultLimits (Integral s) false v
     = Some (clamp d v).
Proof.
  intros Hasm Hv.
  assert (HS : standard_limits SaturationDefaultLimits) by reflexivity.
  split; [reflexivity |]. split; [| split].
  - rewrite (SaturateFastOp_clamp d s v Hasm Hv), clamp_cases.
    rewrite (general_path_int SaturationDefaultLimits d s v HS Hv).
    reflexivity.
  - rewrite !(saturated_cast_int SaturationDefaultLimits d s _ v Hasm HS Hv).
    reflexivity.
  - rewrite (saturated_cast_int SaturationDefaultLimits d s _ v Hasm HS Hv).
    symmetry. apply clamp_cases.
Qed.

(** Between integer types a source value within the destination's range
    is returned unchanged, whatever the handler and on either branch, and
    converting it back to the source type gives the original value. *)
Lemma round_trip_int
  (S : SaturationHandler) (d s : IntType) (ice : bool) (v : Z) :
  SaturateFastAsmOp_is_supported (Integral d) (Integral s) = false ->
  standard_limits S ->
  has_type (Integral s) v = true ->
  int_lowest d <= v <= int_max d ->
  saturated_cast' (Integral d) S (Integral s) ice v = Some v
  /\ static_cast (Integral s) (Integral d) v = Some v.
Proof.
  intros Hasm HS Hv Hr. split.
  - rewrite (saturated_cast_int S d s ice v Hasm HS Hv).
    destruct (v <? int_lowest d) eqn:Hlt; [lia |].
    destruct (int_max d <? v) eqn:Hgt; [lia | reflexivity].
  - cbn [static_cast]. rewrite wrap_in_range; [reflexivity |].
    unfold has_type in Hv. lia.
Qed.

(** C6. When the destination statically contains the source (both
    integer types), every source value is classified with both flags
    clear, and [saturated_cast] returns [static_cast<Dst>(value)], the
    value itself, whatever the three handler functions are: none of them
    is consulted. *)
Theorem contained_cast_is_static_cast
  (S : SaturationHandler) (d s : IntType) (ice : bool) (v : Z) :
  kStaticDstRangeRelationToSrcRange (Integral d) (Integral s) = kContained ->
  SaturateFastAsmOp_is_supported (Integral d) (Integral s) = false ->
  standard_limits S ->
  has_type (Integral s) v = true ->
  DstRangeRelationToSrcRange (Integral d) std_numeric_limits (Integral s) v
  = Some (RangeCheckFlags false false)
  /\ saturated_cast' (Integral d) S (Integral s) ice v
     = static_cast (Integral d) (Integral s) v
  /\ static_cast (Integral d) (Integral s) v = Some v.
Proof.
  intros Hc Hasm HS Hv.
  destruct (contained_limits d s Hc) as [Hlo Hhi].
  assert (Hr : int_lowest d <= v <= int_max d) by (unfold has_type in Hv; lia).
  assert (Hcast : static_cast (Integral d) (Integral s) v = Some v)
    by (cbn [static_cast]; rewrite wrap_in_range by exact Hr; reflexivity).
  split; [| split].
  - rewrite (classify_int d s v Hv). unfold mkRangeCheck.
    replace (int_lowest d <=? v) with true by lia.
    replace (v <=? int_max d) with true by lia.
    reflexivity.
  - rewrite Hcast, (saturated_cast_int S d s ice v Hasm HS Hv).
    destruct (v <? int_lowest d) eqn:Hlt; [lia |].
    destruct (int_max d <? v) eqn:Hgt; [lia | reflexivity].
  - exact Hcast.
Qed.

End FastPathFacts.

(* ================================================================== *)
(** ** The resolution order *)

(** C1. [saturated_cast_impl] resolves a range check in the documented
    order, for every source and destination type, handler, value and check
    result; in particular an integral source with the overflow flag set
    always gets the overflow value.  Whenever [saturated_cast] runs the
    classifier (as it does in constant evaluation), its result is that
    resolution of the classifier's check. *)
Theorem saturated_cast_impl_resolution_order
  (Dst : NumericType) (S : SaturationHandler) (Src : NumericType)
  (value : Value Src) (constraint : RangeCheck) :
  saturated_cast_impl Dst S Src value constraint
  = resolution_order Dst S Src value constraint
  /\ (forall (s : IntType) (x : Z) (underflow : bool),
        saturated_cast_impl Dst S (Integral s) x (RangeCheckFlags underflow true)
        = Some (S_Overflow S Dst))
  /\ Portable.saturated_cast Dst S Src true value
     = (c <- DstRangeRelationToSrcRange Dst (S_bounds S) Src value ;;
        resolution_order Dst S Src value c).
Proof.
  assert (Hres : forall c, saturated_cast_impl Dst S Src value c
                           = resolution_order Dst S Src value c).
  { intros [uf ovf].
    unfold saturated_cast_impl, resolution_order, IsOverflowFlagSet, IsUnderflowFlagSet.
    cbn [is_overflow_ is_underflow_].
    destruct Src, ovf, uf; reflexivity. }
  split; [apply Hres |]. split.
  - intros s x [|]; reflexivity.
  - unfold Portable.saturated_cast, saturated_cast. cbn [negb andb].
    destruct (DstRangeRelationToSrcRange Dst (S_bounds S) Src value) as [c |];
      [cbn [bind]; apply Hres | reflexivity].
Qed.

(* ================================================================== *)
(** ** The absolute value and the narrowing range *)

(** C10. [SafeUnsignedAbs] returns the absolute value of every value of
    every integer type, as a value of the unsigned type of the same width;
    this includes the lowest value of a signed type, whose absolute value
    exceeds the type's maximum.  The subtraction [0u - x] is evaluated in
    an unsigned type, and a value of an unsigned type is returned
    unchanged. *)
Theorem SafeUnsignedAbs_is_abs (T : IntType) (v : Z) :
  has_type (Integral T) v = true ->
  SafeUnsignedAbs T v = Z.abs v
  /\ has_type (Integral (make_unsigned T)) (SafeUnsignedAbs T v) = true
  /\ SafeUnsignedAbs T (int_lowest T) = - int_lowest T
  /\ (int_is_signed T = true -> int_max T < SafeUnsignedAbs T (int_lowest T))
  /\ int_is_signed (common_int UInt32 (make_unsigned T)) = false
  /\ (int_is_signed T = false -> SafeUnsignedAbs T v = v).
Proof.
  intros Hv.
  assert (Hlow : has_type (Integral T) (int_lowest T) = true)
    by (destruct T as [[] []]; reflexivity).
  rewrite (SafeUnsignedAbs_abs T v Hv), (SafeUnsignedAbs_abs T _ Hlow).
  repeat split.
  - destruct T as [[] []]; unfold has_type in *; norm_int; lia.
  - destruct T as [[] []]; norm_int; lia.
  - destruct T as [[] []]; norm_int; intros; try discriminate; lia.
  - destruct T as [[] []]; reflexivity.
  - destruct T as [[] []]; unfold has_type in *; norm_int; intros; try discriminate; lia.
Qed.

Lemma kShift_range (d : IntType) (Src : NumericType) :
  0 <= kShift (Integral d) Src < int_digits d.
Proof. destruct d as [[] []], Src as [[[] []] | []]; vm_compute; intuition discriminate. Qed.

Lemma Adjust_requires_holds (Dst Src : NumericType) : Adjust_requires Dst Src = true.
Proof. destruct Dst as [[[] []] | []], Src as [[[] []] | []]; reflexivity. Qed.

Lemma DstRangeRelationToSrcRange_requires_holds (Dst : NumericType) :
  DstRangeRelationToSrcRange_requires Dst std_numeric_limits = true.
Proof. destruct Dst as [[[] []] | []]; reflexivity. Qed.

Lemma clear_low_bits (x k : Z) :
  0 <= k -> 2 ^ k * (x / 2 ^ k) = Z.ldiff x (Z.ones k).
Proof.
  intros Hk. rewrite Z.ldiff_ones_r by exact Hk.
  rewrite Z.shiftl_mul_pow2, Z.shiftr_div_pow2 by exact Hk. lia.
Qed.

(** C5, amended.  [Adjust] only narrows: for every integer destination,
    every source type and every value [v] of the destination type, the
    adjusted value is the magnitude of [v] with its low [kShift] bits
    cleared, under the sign of [v].  It lies between zero and [v], so its
    magnitude is at most that of [v]; it has the sign of [v] when the
    magnitude of [v] is at least [2^kShift] and is zero exactly when the
    magnitude is below [2^kShift].  It is [v] itself when [kShift] is 0,
    and a floating-point destination is returned unchanged.  For the
    standard limits the adjusted maximum has the sign of the maximum and is
    at most the maximum, and the adjusted lowest value is the lowest
    value. *)
Theorem Adjust_only_narrows (d : IntType) (Src : NumericType) (v : Z) :
  has_type (Integral d) v = true ->
  let k : Z := kShift (Integral d) Src in
  let a : Z := Adjust (Integral d) Src v in
  a = Z.sgn v * Z.ldiff (Z.abs v) (Z.ones k)
  /\ (0 <= v -> 0 <= a <= v)
  /\ (v <= 0 -> v <= a <= 0)
  /\ Z.abs a <= Z.abs v
  /\ (2 ^ k <= Z.abs v -> Z.sgn a = Z.sgn v)
  /\ (a = 0 <-> Z.abs v < 2 ^ k)
  /\ has_type (Integral d) a = true
  /\ (k = 0 -> a = v)
  /\ (forall (kd : FloatKind) (Src' : NumericType) (f : spec_float),
        Adjust (Floating kd) Src' f = f)
  /\ (0 < NarrowingRange_max (Integral d) Src std_numeric_limits <= int_max d
      /\ Z.sgn (NarrowingRange_max (Integral d) Src std_numeric_limits)
         = Z.sgn (int_max d)
      /\ NarrowingRange_lowest (Integral d) Src std_numeric_limits = int_lowest d).
Proof.
  intros Hv. cbv zeta. cbn [Adjust].
  pose proof (kShift_range d Src) as Hk.
  rewrite (AdjustIntegral_spec d _ v Hv Hk).
  set (k := kShift (Integral d) Src) in *.
  rewrite <- (clear_low_bits (Z.abs v) k) by lia.
  assert (Hp : 1 <= 2 ^ k) by (apply (Z.pow_le_mono_r 2 0 k); lia).
  assert (Hq : 2 ^ k * (Z.abs v / 2 ^ k) <= Z.abs v) by (apply Z.mul_div_le; lia).
  assert (Hq0 : 0 <= 2 ^ k * (Z.abs v / 2 ^ k))
    by (apply Z.mul_nonneg_nonneg; [lia | apply Z.div_pos; lia]).
  assert (H0 : k = 0 -> 2 ^ k * (Z.abs v / 2 ^ k) = Z.abs v)
    by (intros ->; rewrite Z.pow_0_r, Z.div_1_r; lia).
  assert (Hsmall : Z.abs v < 2 ^ k -> 2 ^ k * (Z.abs v / 2 ^ k) = 0)
    by (intros H; rewrite Z.div_small by lia; lia).
  assert (Hbig : 2 ^ k <= Z.abs v -> 0 < 2 ^ k * (Z.abs v / 2 ^ k)).
  { intros H. apply Z.mul_pos_pos; [lia |].
    apply Z.div_str_pos. lia. }
  set (t := 2 ^ k * (Z.abs v / 2 ^ k)) in *. clearbody t.
  assert (Hrange : int_lowest d <= v <= int_max d) by (unfold has_type in Hv; lia).
  assert (Ha : (v < 0 /\ Z.sgn v * t = - t) \/ (v = 0 /\ Z.sgn v * t = 0)
               \/ (0 < v /\ Z.sgn v * t = t)).
  { destruct (Z.lt_trichotomy v 0) as [Hn | [Hz | Hpos]].
    - left. rewrite (Z.sgn_neg v Hn). lia.
    - right; left. subst v. split; reflexivity.
    - right; right. rewrite (Z.sgn_pos v Hpos). lia. }
  set (a := Z.sgn v * t) in *. clearbody a.
  assert (Hz : int_lowest d <= 0 <= int_max d)
    by (clear; destruct d as [[] []]; norm_limits; lia).
  split; [reflexivity |].
  split; [lia |]. split; [lia |]. split; [lia |].
  split; [intros H; specialize (Hbig H); lia |].
  split.
  { split; intros H.
    - destruct (Z.lt_ge_cases (Z.abs v) (2 ^ k)) as [Hlt | Hge]; [exact Hlt |].
      specialize (Hbig Hge). lia.
    - specialize (Hsmall H). lia. }
  split; [unfold has_type; lia |].
  split; [intros E; specialize (H0 E); lia |].
  split; [reflexivity |].
  clear. destruct d as [[] []], Src as [[[] []] | []]; vm_compute;
    intuition discriminate.
Qed.

(** A bound of 5 for [int32_t], as a handler's own limits may give it,
    adjusted for a [float] source: the shift is 7 and the adjusted bound is
    0, which does not have the sign of 5. *)
Lemma Adjust_small_bound_loses_sign :
  has_type (Integral Int32) 5 = true
  /\ kShift (Integral Int32) (Floating Binary32) = 7
  /\ Adjust (Integral Int32) (Floating Binary32) 5 = 0
  /\ Z.sgn (Adjust (Integral Int32) (Floating Binary32) 5) <> Z.sgn 5
  /\ NarrowingRange_max (Integral Int32) (Floating Binary32)
       {| bounds_max := fun T => literal T 5;
          bounds_lowest := fun T => literal T (-5) |} = 0
  /\ NarrowingRange_lowest (Integral Int32) (Floating Binary32)
       {| bounds_max := fun T => literal T 5;
          bounds_lowest := fun T => literal T (-5) |} = 0.
Proof. vm_compute. repeat split; discriminate. Qed.

(* ================================================================== *)
(** ** Floating-point sources and destinations *)

Lemma lazy_or_false (b : option bool) : lazy_or (Some false) b = b.
Proof. reflexivity. Qed.

(** Evaluation of the left operand of [||] when it does not mention [f]. *)
Ltac eval_left f :=
  repeat match goal with
    | |- context [lazy_or (Some ?b) ?r] =>
        lazymatch b with
        | context [f] => fail
        | true => fail
        | false => fail
        | _ => eval_head b
        end
    end;
  norm_option; rewrite ?lazy_or_false; norm_option.

(** A floating-point source and an unsigned destination: the lower bound
    is [value > -1], the upper bound the comparison with the adjusted
    maximum. *)
Lemma classify_float_to_unsigned (d : IntType) (k : FloatKind) (f : spec_float) :
  int_is_signed d = false ->
  DstRangeRelationToSrcRange (Integral d) std_numeric_limits (Floating k) f
  = Some (mkRangeCheck
            (op_gt (A:=Floating k) (B:=Floating k) f (literal (Floating k) (-1)))
            (op_le (A:=Floating k) (B:=Integral d) f
               (NarrowingRange_max (Integral d) (Floating k) std_numeric_limits))).
Proof.
  destruct d as [[] []], k; intros Hd; try discriminate Hd; unfold_check;
    eval_left f; rewrite andb_true_r; reflexivity.
Qed.

(** A floating-point source and a signed destination: both adjusted bounds
    are compared with the value. *)
Lemma classify_float_to_signed (d : IntType) (k : FloatKind) (f : spec_float) :
  int_is_signed d = true ->
  DstRangeRelationToSrcRange (Integral d) std_numeric_limits (Floating k) f
  = Some (mkRangeCheck
            (op_ge (A:=Floating k) (B:=Integral d) f
               (NarrowingRange_lowest (Integral d) (Floating k) std_numeric_limits))
            (op_le (A:=Floating k) (B:=Integral d) f
               (NarrowingRange_max (Integral d) (Floating k) std_numeric_limits))).
Proof.
  destruct d as [[] []], k; intros Hd; try discriminate Hd; reflexivity.
Qed.

(** An integer source and a floating-point destination: contained. *)
Lemma classify_int_to_float (k : FloatKind) (s : IntType) (v : Z) :
  DstRangeRelationToSrcRange (Floating k) std_numeric_limits (Integral s) v
  = Some (RangeCheckFlags false false).
Proof.
  destruct k, s as [[] []]; unfold_check; eval_left v; reflexivity.
Qed.

Lemma compare_nan (k : FloatKind) (B : NumericType) (y : Value B) :
  compare_values (Floating k) B S754_nan y = None.
Proof. destruct B as [b | k']; [reflexivity | destruct k, k'; reflexivity]. Qed.

Lemma classify_nan (d : IntType) (k : FloatKind) :
  DstRangeRelationToSrcRange (Integral d) std_numeric_limits (Floating k) S754_nan
  = Some (RangeCheckFlags true true).
Proof. destruct d as [[] []], k; vm_compute; reflexivity. Qed.

Section FloatSources.
Variable IsGreaterOrEqual_Test : forall L R : NumericType, Value L -> Value R -> bool.
Variable IsLessOrEqual_Test : forall L R : NumericType, Value L -> Value R -> bool.
Variable kIsTypeInRangeForNumericType : NumericType -> NumericType -> bool.
Variable as_unsigned : IntType -> Z -> Z.
Variable SaturateFastAsmOp_is_supported : NumericType -> NumericType -> bool.
Variable SaturateFastAsmOp_Do : forall Dst Src : NumericType, Value Src -> Value Dst.

Local Abbreviation saturated_cast' :=
(saturated_cast IsGreaterOrEqual_Test IsLessOrEqual_Test
   kIsTypeInRangeForNumericType as_unsigned
   SaturateFastAsmOp_is_supported SaturateFastAsmOp_Do).

(** A floating-point source always takes the general path. *)
Lemma saturated_cast_float
(Dst : NumericType) (S : SaturationHandler) (k : FloatKind)
(ice : bool) (f : spec_float) :
saturated_cast' Dst S (Floating k) ice f
= (c <- DstRangeRelationToSrcRange Dst (S_bounds S) (Floating k) f ;;
   saturated_cast_impl Dst S (Floating k) f c).
Proof.
unfold saturated_cast, SaturateFastOp_is_supported. cbn [is_integral andb].
rewrite andb_false_r. reflexivity.
Qed.

(** C8. A NaN of either floating-point type is unordered with every bound;
  for every integer destination the classifier sets both flags, and
  [saturated_cast] returns the handler's NaN value, on either branch;
  the default handler's NaN value of an integer type is 0. *)
Theorem NaN_saturates_to_NaN_value
(S : SaturationHandler) (d : IntType) (k : FloatKind) (ice : bool) :
standard_limits S ->
(forall (B : NumericType) (y : Value B),
    compare_values (Floating k) B S754_nan y = None)
/\ DstRangeRelationToSrcRange (Integral d) (S_bounds S) (Floating k) S754_nan
   = Some (RangeCheckFlags true true)
/\ saturated_cast' (Integral d) S (Floating k) ice S754_nan
   = Some (S_NaN S (Integral d))
/\ S_NaN SaturationDefaultLimits (Integral d) = 0.
Proof.
intros HS. rewrite saturated_cast_float, HS, classify_nan.
split; [apply compare_nan |]. repeat split.
Qed.

End FloatSources.

(** A value in (-1, 0) loses its fractional part on conversion to an
    unsigned type and becomes 0. *)

Lemma digits2_pos_bound (m : positive) : Zpos m < 2 ^ Zpos (digits2_pos m).
Proof.
  induction m as [p IH | p IH |]; cbn [digits2_pos].
  - rewrite Pos2Z.inj_succ, Z.pow_succ_r by lia. lia.
  - rewrite Pos2Z.inj_succ, Z.pow_succ_r by lia. lia.
  - reflexivity.
Qed.

Lemma valid_mantissa_bound (k : FloatKind) (s : bool) (m : positive) (e : Z) :
  has_type (Floating k) (S754_finite s m e) = true -> Zpos m < 2 ^ prec k.
Proof.
  cbn [has_type valid_binary]. unfold bounded, canonical_mantissa, fexp, emin.
  intros H. pose proof (digits2_pos_bound m) as Hm.
  assert (Hd : Zpos (digits2_pos m) <= prec k).
  { apply andb_prop in H. destruct H as [H _]. apply Z.eqb_eq in H.
    destruct k; cbv [prec emax] in *; lia. }
  apply (Z.lt_le_trans _ _ _ Hm). apply Z.pow_le_mono_r; lia.
Qed.

Lemma minus_one_literal (k : FloatKind) :
  literal (Floating k) (-1) = S754_finite true (Z.to_pos (2 ^ (prec k - 1))) (1 - prec k).
Proof. destruct k; vm_compute; reflexivity. Qed.

Lemma gt_minus_one_finite (k : FloatKind) (m : positive) (e : Z) :
  op_gt (A:=Floating k) (B:=Floating k) (S754_finite true m e) (literal (Floating k) (-1)) = true ->
  e < 1 - prec k \/ (e = 1 - prec k /\ Zpos m < 2 ^ (prec k - 1)).
Proof.
  rewrite minus_one_literal. unfold op_gt, compare_values.
  replace (float_to_float k (wider_float k k) (S754_finite true m e))
    with (S754_finite true m e) by (destruct k; reflexivity).
  replace (float_to_float k (wider_float k k)
             (S754_finite true (Z.to_pos (2 ^ (prec k - 1))) (1 - prec k)))
    with (S754_finite true (Z.to_pos (2 ^ (prec k - 1))) (1 - prec k))
    by (destruct k; reflexivity).
  cbn [SFcompare].
  destruct (Z.compare_spec e (1 - prec k)) as [He | He | He].
  - rewrite Pos.compare_cont_spec. cbn [Pos.switch_Eq].
    destruct (Pos.compare_spec m (Z.to_pos (2 ^ (prec k - 1)))) as [Hm | Hm | Hm];
      cbn [CompOpp]; intros H; try discriminate H.
    right. split; [exact He |].
    assert (0 < 2 ^ (prec k - 1)) by (destruct k; reflexivity).
    apply Pos2Z.pos_lt_pos in Hm. rewrite Z2Pos.id in Hm by assumption. exact Hm.
  - intros _. left. exact He.
  - intros H. discriminate H.
Qed.

Lemma trunc_above_minus_one (d : IntType) (k : FloatKind) (f : spec_float) :
  int_is_signed d = false ->
  has_type (Floating k) f = true ->
  op_gt (A:=Floating k) (B:=Floating k) f (literal (Floating k) (-1)) = true ->
  op_lt (A:=Floating k) f (int_literal 0) = true ->
  static_cast (Integral d) (Floating k) f = Some 0.
Proof.
  intros Hd Hf Hgt Hlt.
  assert (Hz : int_to_float k 0 = S754_zero false) by (destruct k; reflexivity).
  unfold op_lt, compare_values, int_literal in Hlt. rewrite Hz in Hlt.
  destruct f as [s | s | | s m e]; try discriminate Hlt.
  - destruct s; [| discriminate Hlt].
    rewrite minus_one_literal in Hgt. destruct k; discriminate Hgt.
  - destruct s; [| discriminate Hlt].
    pose proof (valid_mantissa_bound k true m e Hf) as Hm.
    destruct (gt_minus_one_finite k m e Hgt) as [He | [He Hm']].
    + assert (Hq : Zpos m / 2 ^ (- e) = 0).
      { apply Z.div_small. split; [lia |].
        apply (Z.lt_le_trans _ _ _ Hm). apply Z.pow_le_mono_r; lia. }
      cbn [static_cast]. unfold float_to_int, SFtrunc.
      destruct e as [| p | p]; [destruct k; cbv [prec] in He; lia
                               | destruct k; cbv [prec] in He; lia |].
      change (- Zneg p) with (Zpos p) in Hq. rewrite Hq. cbn [cond_Zopp Z.opp].
      destruct d as [[] []]; try discriminate Hd; reflexivity.
    + assert (Hq : Zpos m / 2 ^ (- e) = 0).
      { apply Z.div_small. split; [lia |]. subst e.
        replace (- (1 - prec k)) with (prec k - 1) by lia. exact Hm'. }
      cbn [static_cast]. unfold float_to_int, SFtrunc.
      destruct e as [| p | p]; [destruct k; cbv [prec] in He; lia
                               | destruct k; cbv [prec] in He; lia |].
      change (- Zneg p) with (Zpos p) in Hq. rewrite Hq. cbn [cond_Zopp Z.opp].
      destruct d as [[] []]; try discriminate Hd; reflexivity.
Qed.

(** C7. For an unsigned destination the static relation to any signed
    source is "not contained".  An integral source value sets the underflow
    flag exactly when it is negative.  A floating-point source value sets it
    exactly when it is not greater than -1: a value greater than -1 (so every
    value in (-1, 0)) does not underflow, a value less than or equal to -1
    does.  A value in (-1, 0) converts to 0. *)
Theorem signed_to_unsigned_underflow (d : IntType) :
  int_is_signed d = false ->
  (forall Src : NumericType,
      is_signed Src = true ->
      kStaticDstRangeRelationToSrcRange (Integral d) Src = kNotContained)
  /\ (forall (s : IntType) (v : Z),
        int_is_signed s = true -> has_type (Integral s) v = true ->
        exists c,
          DstRangeRelationToSrcRange (Integral d) std_numeric_limits (Integral s) v
          = Some c
          /\ is_underflow_ c = (v <? 0))
  /\ (forall (k : FloatKind) (f : spec_float),
        exists c,
          DstRangeRelationToSrcRange (Integral d) std_numeric_limits (Floating k) f
          = Some c
          /\ (op_gt (A:=Floating k) (B:=Floating k) f (literal (Floating k) (-1)) = true ->
              is_underflow_ c = false)
          /\ (op_le (A:=Floating k) (B:=Floating k) f (literal (Floating k) (-1)) = true ->
              is_underflow_ c = true)
          /\ (has_type (Floating k) f = true ->
              op_gt (A:=Floating k) (B:=Floating k) f (literal (Floating k) (-1)) = true ->
              op_lt (A:=Floating k) f (int_literal 0) = true ->
              static_cast (Integral d) (Floating k) f = Some 0)).
Proof.
  intros Hd. split; [| split].
  - intros Src Hs. destruct d as [[] []]; try discriminate Hd;
      destruct Src as [[[] []] | []]; try discriminate Hs; reflexivity.
  - intros s v Hs Hv. eexists. split; [apply (classify_int d s v Hv) |].
    cbn [mkRangeCheck is_underflow_].
    destruct d as [[] []]; try discriminate Hd; norm_limits; lia.
  - intros k f. eexists. split; [apply (classify_float_to_unsigned d k f Hd) |].
    cbn [mkRangeCheck is_underflow_]. unfold op_gt, op_le.
    split; [| split].
    + destruct (compare_values (Floating k) (Floating k) f (literal (Floating k) (-1)))
        as [[] |]; intros H; try discriminate H; reflexivity.
    + destruct (compare_values (Floating k) (Floating k) f (literal (Floating k) (-1)))
        as [[] |]; intros H; try discriminate H; reflexivity.
    + apply trunc_above_minus_one. exact Hd.
Qed.

(** C9. For an integral source, an arithmetic destination and the standard
    limits, the classifier returns a check for every source value, and never
    one with both flags set. *)
Theorem integral_source_never_invalid (s : IntType) (Dst : NumericType) (v : Z) :
  has_type (Integral s) v = true ->
  exists c,
    DstRangeRelationToSrcRange Dst std_numeric_limits (Integral s) v = Some c
    /\ IsInvalid c = false
    /\ (is_underflow_ c = true -> is_overflow_ c = false).
Proof.
  intros Hv. destruct Dst as [d | k].
  - eexists. split; [apply (classify_int d s v Hv) |].
    unfold IsInvalid. cbn [mkRangeCheck is_underflow_ is_overflow_].
    assert (int_lowest d <= int_max d) by (destruct d as [[] []]; norm_limits; lia).
    split; [lia | lia].
  - eexists. split; [apply classify_int_to_float |]. split; [reflexivity |].
    discriminate.
Qed.

(* ================================================================== *)
(** ** Round trips with a floating-point source *)

(** C4 as stated fails for a source value with a fractional part: 1.5f
    lies within the range of [int32_t] and is classified as valid, the cast
    returns 1 on either branch, and 1 converted back to [float] is 1.0f. *)
Lemma round_trip_fails_for_fraction :
  has_type (Floating Binary32) (S754_finite false 12582912 (-23)) = true
  /\ float_compare_int (S754_finite false 12582912 (-23)) (int_lowest Int32) = Some Gt
  /\ float_compare_int (S754_finite false 12582912 (-23)) (int_max Int32) = Some Lt
  /\ DstRangeRelationToSrcRange (Integral Int32) std_numeric_limits
       (Floating Binary32) (S754_finite false 12582912 (-23))
     = Some (RangeCheckFlags false false)
  /\ Portable.saturated_cast (Integral Int32) SaturationDefaultLimits
       (Floating Binary32) true (S754_finite false 12582912 (-23))
     = Some 1
  /\ Portable.saturated_cast (Integral Int32) SaturationDefaultLimits
       (Floating Binary32) false (S754_finite false 12582912 (-23))
     = Some 1
  /\ static_cast (Floating Binary32) (Integral Int32) 1
     = Some (S754_finite false 8388608 (-23))
  /\ S754_finite false 8388608 (-23) <> S754_finite false 12582912 (-23).
Proof. repeat split; try reflexivity. discriminate. Qed.

(* ================================================================== *)
(** ** The scenarios of the design document *)

Example saturate_uint8_300 :
  Portable.saturated_cast (Integral UInt8) SaturationDefaultLimits
    (Integral Int32) false 300 = Some 255
  /\ Portable.saturated_cast (Integral UInt8) SaturationDefaultLimits
       (Integral Int32) true 300 = Some 255.
Proof. split; reflexivity. Qed.

Example saturate_int8_minus_300 :
  Portable.saturated_cast (Integral Int8) SaturationDefaultLimits
    (Integral Int32) false (-300) = Some (-128)
  /\ Portable.saturated_cast (Integral Int8) SaturationDefaultLimits
       (Integral Int32) true (-300) = Some (-128).
Proof. split; reflexivity. Qed.

Example saturate_uint32_minus_one_float :
  Portable.saturated_cast (Integral UInt32) SaturationDefaultLimits
    (Floating Binary32) false (int_to_float Binary32 (-1)) = Some 0.
Proof. reflexivity. Qed.

Example saturate_int32_nan :
  Portable.saturated_cast (Integral Int32) SaturationDefaultLimits
    (Floating Binary32) false S754_nan = Some 0.
Proof. reflexivity. Qed.

Example saturate_float_int64_max :
  Portable.saturated_cast (Floating Binary32) SaturationDefaultLimits
    (Integral Int64) false (int_max Int64)
  = Some (S754_finite false 8388608 40).
Proof. reflexivity. Qed.

(** -0.5f is in (-1, 0): no underflow, and the result is 0. *)
Example saturate_uint32_minus_half :
  Portable.saturated_cast (Integral UInt32) SaturationDefaultLimits
    (Floating Binary32) false (S754_finite true 8388608 (-24)) = Some 0.
Proof. reflexivity. Qed.

(* ================================================================== *)
(** ** The theorems at concrete inputs *)

Lemma Portable_IsGreaterOrEqual_int (L R : IntType) (x y : Z) :
  Portable.IsGreaterOrEqual_Test (Integral L) (Integral R) x y = (y <=? x).
Proof. reflexivity. Defined.

Lemma Portable_IsLessOrEqual_int (L R : IntType) (x y : Z) :
  Portable.IsLessOrEqual_Test (Integral L) (Integral R) x y = (x <=? y).
Proof. reflexivity. Defined.

Lemma Portable_as_unsigned_int (T : IntType) (z : Z) :
  Portable.as_unsigned T z = wrap (make_unsigned T) z.
Proof. reflexivity. Defined.

(** [saturated_cast<uint8_t>(300)] is 255 on the accelerated branch. *)
Lemma SaturateFastOp_matches_general_path_witness :
  has_type (Integral Int32) 300 = true
  /\ Portable.saturated_cast (Integral UInt8) SaturationDefaultLimits
       (Integral Int32) false 300
     = Some 255.
Proof.
  split; [reflexivity |].
  exact (proj2 (proj2 (proj2
    (SaturateFastOp_matches_general_path
       Portable.IsGreaterOrEqual_Test Portable.IsLessOrEqual_Test
       Portable.kIsTypeInRangeForNumericType Portable.as_unsigned
       Portable.SaturateFastAsmOp_is_supported Portable.SaturateFastAsmOp_Do
       Portable_IsGreaterOrEqual_int Portable_IsLessOrEqual_int
       Portable_as_unsigned_int UInt8 Int32 300 eq_refl eq_refl)))).
Defined.

(** [int8_t] to [int32_t] is statically contained. *)
Lemma contained_cast_is_static_cast_witness :
  kStaticDstRangeRelationToSrcRange (Integral Int32) (Integral Int8) = kContained
  /\ Portable.saturated_cast (Integral Int32) SaturationDefaultLimits
       (Integral Int8) false (-128)
     = static_cast (Integral Int32) (Integral Int8) (-128).
Proof.
  split; [reflexivity |].
  exact (proj1 (proj2
    (contained_cast_is_static_cast
       Portable.IsGreaterOrEqual_Test Portable.IsLessOrEqual_Test
       Portable.kIsTypeInRangeForNumericType Portable.as_unsigned
       Portable.SaturateFastAsmOp_is_supported Portable.SaturateFastAsmOp_Do
       Portable_IsGreaterOrEqual_int Portable_IsLessOrEqual_int
       Portable_as_unsigned_int SaturationDefaultLimits Int32 Int8 false (-128)
       eq_refl eq_refl eq_refl eq_refl))).
Defined.

(** The absolute value of the lowest [int8_t]. *)
Lemma SafeUnsignedAbs_is_abs_witness :
  has_type (Integral Int8) (-128) = true /\ SafeUnsignedAbs Int8 (-128) = 128.
Proof.
  split; [reflexivity |].
  exact (proj1 (SafeUnsignedAbs_is_abs Int8 (-128) eq_refl)).
Defined.

(** The maximum of [int32_t] adjusted for a [float] source. *)
Lemma Adjust_only_narrows_witness :
  has_type (Integral Int32) 2147483647 = true
  /\ Adjust (Integral Int32) (Floating Binary32) 2147483647
     = Z.sgn 2147483647
       * Z.ldiff (Z.abs 2147483647) (Z.ones (kShift (Integral Int32) (Floating Binary32))).
Proof.
  split; [reflexivity |].
  exact (proj1 (Adjust_only_narrows Int32 (Floating Binary32) 2147483647 eq_refl)).
Defined.

(** NaN to [int32_t] under the default handler. *)
Lemma NaN_saturates_to_NaN_value_witness :
  standard_limits SaturationDefaultLimits
  /\ Portable.saturated_cast (Integral Int32) SaturationDefaultLimits
       (Floating Binary32) false S754_nan
     = Some 0.
Proof.
  split; [reflexivity |].
  exact (proj1 (proj2 (proj2
    (NaN_saturates_to_NaN_value
       Portable.IsGreaterOrEqual_Test Portable.IsLessOrEqual_Test
       Portable.kIsTypeInRangeForNumericType Portable.as_unsigned
       Portable.SaturateFastAsmOp_is_supported Portable.SaturateFastAsmOp_Do
       SaturationDefaultLimits Int32 Binary32 false eq_refl)))).
Defined.

(** -1 as [int32_t] underflows [uint32_t]. *)
Lemma signed_to_unsigned_underflow_witness :
  int_is_signed UInt32 = false
  /\ exists c,
       DstRangeRelationToSrcRange (Integral UInt32) std_numeric_limits
         (Integral Int32) (-1) = Some c
       /\ is_underflow_ c = true.
Proof.
  split; [reflexivity |].
  exact (proj1 (proj2 (signed_to_unsigned_underflow UInt32 eq_refl))
           Int32 (-1) eq_refl eq_refl).
Defined.

(** 300 as [int32_t] classified for [uint8_t]. *)
Lemma integral_source_never_invalid_witness :
  has_type (Integral Int32) 300 = true
  /\ exists c,
       DstRangeRelationToSrcRange (Integral UInt8) std_numeric_limits
         (Integral Int32) 300 = Some c
       /\ IsInvalid c = false
       /\ (is_underflow_ c = true -> is_overflow_ c = false).
Proof.
  split; [reflexivity |].
  exact (integral_source_never_invalid Int32 (Integral UInt8) 300 eq_refl).
Defined.


(* ================================================================== *)
(** * Further properties of the code *)

(** ** The classifier and the static relation on integer types *)

(** X1. Between integer types the classifier is exact: the underflow flag
    is set exactly for values below the destination's lowest value, the
    overflow flag exactly for values above its maximum. *)
Theorem classifier_exact_on_integers (d s : IntType) (v : Z) :
  has_type (Integral s) v = true ->
  exists c,
    DstRangeRelationToSrcRange (Integral d) std_numeric_limits (Integral s) v = Some c
    /\ (is_underflow_ c = true <-> v < int_lowest d)
    /\ (is_overflow_ c = true <-> int_max d < v)
    /\ (IsValid c = true <-> int_lowest d <= v <= int_max d).
Proof.
  intros Hv. eexists. split; [apply (classify_int d s v Hv) |].
  unfold IsValid. cbn [mkRangeCheck is_underflow_ is_overflow_].
  repeat split; intros; lia.
Qed.

(** X2. Between integer types the static relation is "contained" exactly
    when the destination's limits enclose the source's: the source's
    maximum is at most the destination's and its lowest value at least the
    destination's. *)
Theorem static_relation_is_range_inclusion (d s : IntType) :
  kStaticDstRangeRelationToSrcRange (Integral d) (Integral s) = kContained
  <-> (int_lowest d <= int_lowest s /\ int_max s <= int_max d).
Proof.
  split; [apply contained_limits |].
  destruct d as [[] []], s as [[] []]; intros [H1 H2];
    first [reflexivity | exfalso; norm_limits; lia].
Qed.

(** X3. Every check result is in exactly one of the four states valid,
    underflow, overflow, invalid; a check built from the two bound tests is
    valid exactly when both tests hold. *)
Theorem RangeCheck_states_partition (c : RangeCheck) (lower upper : bool) :
  (IsValid c = true \/ IsUnderflow c = true \/ IsOverflow c = true \/ IsInvalid c = true)
  /\ (IsValid c && IsUnderflow c = false) /\ (IsValid c && IsOverflow c = false)
  /\ (IsValid c && IsInvalid c = false) /\ (IsUnderflow c && IsOverflow c = false)
  /\ (IsUnderflow c && IsInvalid c = false) /\ (IsOverflow c && IsInvalid c = false)
  /\ IsValid (mkRangeCheck lower upper) = lower && upper
  /\ IsInvalid (mkRangeCheck lower upper) = negb lower && negb upper.
Proof.
  destruct c as [[] []], lower, upper; cbv; intuition congruence.
Qed.

(** ** Negation and absolute value *)

Lemma wrap_unsigned_idem (T : IntType) (x : Z) :
  wrap (make_unsigned T) (wrap (make_unsigned T) x) = wrap (make_unsigned T) x.
Proof. destruct T as [[] []]; norm_int; zsolve. Qed.

Lemma ConditionalNegate_wrap_arg (T : IntType) (x : Z) (b : bool) :
  ConditionalNegate T (wrap (make_unsigned T) x) b = ConditionalNegate T x b.
Proof. unfold ConditionalNegate. rewrite wrap_unsigned_idem. reflexivity. Qed.

Lemma ConditionalNegate_any (T : IntType) (x : Z) (b : bool) :
  ConditionalNegate T x b = wrap (make_signed T) (if b then - x else x).
Proof.
  rewrite <- ConditionalNegate_wrap_arg.
  rewrite ConditionalNegate_spec
    by (destruct T as [[] []]; norm_int; cbv [bits]; fold_arith; zsolve).
  destruct T as [[] []], b; norm_int; zsolve.
Qed.

(** X4. On a signed type [ConditionalNegate] leaves a value unchanged when
    the flag is clear and negates it when the flag is set, except that the
    lowest value is its own negation; negating twice gives the value
    back. *)
Theorem ConditionalNegate_signed (T : IntType) (x : Z) :
  int_is_signed T = true ->
  has_type (Integral T) x = true ->
  ConditionalNegate T x false = x
  /\ (x <> int_lowest T -> ConditionalNegate T x true = - x)
  /\ ConditionalNegate T (int_lowest T) true = int_lowest T
  /\ ConditionalNegate T (ConditionalNegate T x true) true = x
  /\ has_type (Integral T) (ConditionalNegate T x true) = true.
Proof.
  intros Hs Hx. rewrite !ConditionalNegate_any.
  destruct T as [[] []]; try discriminate Hs; unfold has_type in *; norm_int;
    repeat split; try intros Hne; zsolve.
Qed.

(** X5. On an unsigned type of [N] bits [ConditionalNegate] with the flag
    set returns [-x] for [x] up to [2^(N-1)]; for a larger [x] it returns
    the positive value [2^N - x], which is not the negation. *)
Theorem ConditionalNegate_unsigned (T : IntType) (x : Z) :
  int_is_signed T = false ->
  has_type (Integral T) x = true ->
  (x <= 2 ^ (bits (int_width T) - 1) -> ConditionalNegate T x true = - x)
  /\ (2 ^ (bits (int_width T) - 1) < x ->
      ConditionalNegate T x true = 2 ^ bits (int_width T) - x
      /\ 0 < ConditionalNegate T x true)
  /\ (x < 2 ^ (bits (int_width T) - 1) -> ConditionalNegate T x false = x).
Proof.
  intros Hs Hx. rewrite !ConditionalNegate_any.
  destruct T as [[] []]; try discriminate Hs; unfold has_type in *; norm_int;
    cbv [bits]; fold_arith; repeat split; intros; zsolve.
Qed.

(** X6. Sign and magnitude recombine: for every value of a signed type,
    [ConditionalNegate] applied to [SafeUnsignedAbs(value)] and
    [IsValueNegative(value)] gives the value back, the lowest value
    included. *)
Theorem abs_then_negate_round_trip (T : IntType) (v : Z) :
  int_is_signed T = true ->
  has_type (Integral T) v = true ->
  ConditionalNegate (make_unsigned T) (SafeUnsignedAbs T v)
    (IsValueNegative (Integral T) v) = v.
Proof.
  intros Hs Hv.
  rewrite ConditionalNegate_any, (SafeUnsignedAbs_abs T v Hv), (IsValueNegative_int T v Hv).
  destruct T as [[] []]; try discriminate Hs; unfold has_type in *; norm_int;
    destruct (v <? 0) eqn:E; zsolve.
Qed.

(** X7. [Adjust] is idempotent: adjusting an adjusted bound changes
    nothing. *)
Theorem Adjust_idempotent (d : IntType) (Src : NumericType) (v : Z) :
  has_type (Integral d) v = true ->
  Adjust (Integral d) Src (Adjust (Integral d) Src v) = Adjust (Integral d) Src v.
Proof.
  intros Hv. cbn [Adjust].
  pose proof (kShift_range d Src) as Hk.
  set (k := kShift (Integral d) Src) in *.
  assert (Hp : 0 < 2 ^ k) by (apply Z.pow_pos_nonneg; lia).
  assert (Hin : has_type (Integral d) (AdjustIntegral d k v) = true).
  { rewrite (AdjustIntegral_spec d k v Hv Hk).
    assert (Hq : 2 ^ k * (Z.abs v / 2 ^ k) <= Z.abs v) by (apply Z.mul_div_le; lia).
    assert (Hq0 : 0 <= 2 ^ k * (Z.abs v / 2 ^ k))
      by (apply Z.mul_nonneg_nonneg; [lia | apply Z.div_pos; lia]).
    assert (Hz : int_lowest d <= 0 <= int_max d)
      by (clear; destruct d as [[] []]; norm_limits; lia).
    unfold has_type in *. destruct (Z.sgn_spec v) as [[? E] | [[? E] | [? E]]];
      rewrite E; lia. }
  rewrite (AdjustIntegral_spec d k _ Hin Hk), (AdjustIntegral_spec d k v Hv Hk).
  set (t := Z.abs v / 2 ^ k).
  assert (Ht : 0 <= t) by (apply Z.div_pos; lia).
  assert (Hdiv : 2 ^ k * t / 2 ^ k = t)
    by (rewrite (Z.mul_comm (2 ^ k) t), Z.div_mul by lia; reflexivity).
  assert (Hu : 0 <= 2 ^ k * t) by (apply Z.mul_nonneg_nonneg; lia).
  set (u := 2 ^ k * t) in *.
  destruct (Z.sgn_spec v) as [[Hpos E] | [[Hzero E] | [Hneg E]]]; rewrite E.
  - rewrite Z.mul_1_l, (Z.abs_eq u Hu), Hdiv. fold u.
    destruct (Z.eq_dec u 0) as [-> | Hne]; [reflexivity |].
    rewrite Z.sgn_pos by lia. lia.
  - reflexivity.
  - replace (-1 * u) with (- u) by lia.
    rewrite Z.abs_opp, (Z.abs_eq u Hu), Hdiv. fold u.
    destruct (Z.eq_dec u 0) as [-> | Hne]; [reflexivity |].
    rewrite Z.sgn_neg by lia. lia.
Qed.


(** ** Range tests, common limits and clamping on integer types *)

Section IntegerPaths.
Variable IsGreaterOrEqual_Test : forall L R : NumericType, Value L -> Value R -> bool.
Variable IsLessOrEqual_Test : forall L R : NumericType, Value L -> Value R -> bool.
Variable kIsTypeInRangeForNumericType : NumericType -> NumericType -> bool.
Variable as_unsigned : IntType -> Z -> Z.
Variable SaturateFastAsmOp_is_supported : NumericType -> NumericType -> bool.
Variable SaturateFastAsmOp_Do : forall Dst Src : NumericType, Value Src -> Value Dst.

Hypothesis IsGreaterOrEqual_int :
  forall (L R : IntType) (x y : Z),
    IsGreaterOrEqual_Test (Integral L) (Integral R) x y = (y <=? x).
Hypothesis IsLessOrEqual_int :
  forall (L R : IntType) (x y : Z),
    IsLessOrEqual_Test (Integral L) (Integral R) x y = (x <=? y).
Hypothesis as_unsigned_int :
  forall (T : IntType) (z : Z), as_unsigned T z = wrap (make_unsigned T) z.
Hypothesis no_asm_op :
  forall Dst Src : NumericType, SaturateFastAsmOp_is_supported Dst Src = false.

Local Abbreviation saturated_cast' :=
  (saturated_cast IsGreaterOrEqual_Test IsLessOrEqual_Test
     kIsTypeInRangeForNumericType as_unsigned
     SaturateFastAsmOp_is_supported SaturateFastAsmOp_Do).

Local Abbreviation ClampRawValue' :=
  (ClampRawValue IsGreaterOrEqual_Test IsLessOrEqual_Test
     kIsTypeInRangeForNumericType as_unsigned
     SaturateFastAsmOp_is_supported SaturateFastAsmOp_Do).

(** X8. Between integer types [IsValueInRangeForNumericType] is true
    exactly for the values within the destination's limits, whichever of
    the two shortcuts or the classifier decides it. *)
Theorem IsValueInRangeForNumericType_exact (d s : IntType) (v : Z) :
  has_type (Integral s) v = true ->
  IsValueInRangeForNumericType IsGreaterOrEqual_Test
    kIsTypeInRangeForNumericType as_unsigned (Integral d) (Integral s) v
  = Some ((int_lowest d <=? v) && (v <=? int_max d)).
Proof.
  intros Hv.
  unfold IsValueInRangeForNumericType,
    IsValueInRangeFastOp_is_supported, IsValueInRangeFastOp_Do,
    IsValueInRangeFastOp_signed_signed, IsValueInRangeFastOp_signed_unsigned,
    kCommonMax, kIsMaxInRangeForNumericType.
  rewrite (classify_int d s v Hv).
  cbn [numeric_limits_max numeric_limits_lowest].
  rewrite !IsGreaterOrEqual_int.
  destruct (kIsTypeInRangeForNumericType (Integral d) (Integral s));
    destruct d as [[] []], s as [[] []]; unfold has_type in Hv;
    cbn [is_integral is_signed int_is_signed int_sign negb andb orb];
    cbv [static_cast IsValid mkRangeCheck is_overflow_ is_underflow_];
    norm_types; norm_limits; fold_bool; norm_option; cbv zeta;
    rewrite ?as_unsigned_int; norm_int; fold_bool;
    apply (f_equal (@Some bool)); zsolve.
Qed.

(** X9. The common limits of two integer types are those of the
    intersection of their ranges: [kCommonMax] is the smaller maximum,
    [kCommonMin] the larger lowest value, and [CommonMaxOrMin] selects
    between them. *)
Theorem common_limits_intersect (d s : IntType) (is_min : bool) :
  kCommonMax IsGreaterOrEqual_Test (Integral d) (Integral s)
  = Some (Z.min (int_max d) (int_max s))
  /\ kCommonMin IsLessOrEqual_Test (Integral d) (Integral s)
     = Some (Z.max (int_lowest d) (int_lowest s))
  /\ CommonMaxOrMin IsGreaterOrEqual_Test IsLessOrEqual_Test
       (Integral d) (Integral s) is_min
     = Some (if is_min then Z.max (int_lowest d) (int_lowest s)
             else Z.min (int_max d) (int_max s)).
Proof.
  assert (Hmax : kCommonMax IsGreaterOrEqual_Test (Integral d) (Integral s)
                 = Some (Z.min (int_max d) (int_max s))).
  { unfold kCommonMax, kIsMaxInRangeForNumericType.
    cbn [numeric_limits_max static_cast]. rewrite IsGreaterOrEqual_int.
    destruct d as [[] []], s as [[] []]; norm_limits; fold_bool; reflexivity. }
  assert (Hmin : kCommonMin IsLessOrEqual_Test (Integral d) (Integral s)
                 = Some (Z.max (int_lowest d) (int_lowest s))).
  { unfold kCommonMin, kIsMinInRangeForNumericType.
    cbn [numeric_limits_lowest static_cast]. rewrite IsLessOrEqual_int.
    destruct d as [[] []], s as [[] []]; norm_limits; fold_bool; reflexivity. }
  split; [exact Hmax |]. split; [exact Hmin |].
  unfold CommonMaxOrMin. destruct is_min; assumption.
Qed.

(** X10. Between integer types, with any handler that keeps the standard
    limits and on either branch, [saturated_cast] returns the handler's
    underflow value for a value below the destination's range, its overflow
    value for a value above it, and the value itself otherwise. *)
Theorem saturated_cast_integers
  (S : SaturationHandler) (d s : IntType) (ice : bool) (v : Z) :
  standard_limits S ->
  has_type (Integral s) v = true ->
  (v < int_lowest d ->
   saturated_cast' (Integral d) S (Integral s) ice v = Some (S_Underflow S (Integral d)))
  /\ (int_max d < v ->
      saturated_cast' (Integral d) S (Integral s) ice v = Some (S_Overflow S (Integral d)))
  /\ (int_lowest d <= v <= int_max d ->
      saturated_cast' (Integral d) S (Integral s) ice v = Some v).
Proof.
  intros HS Hv.
  rewrite (saturated_cast_int _ _ _ _ _ _ IsGreaterOrEqual_int IsLessOrEqual_int
             as_unsigned_int S d s ice v (no_asm_op _ _) HS Hv).
  assert (int_lowest d <= int_max d) by (destruct d as [[] []]; norm_limits; lia).
  repeat split; intros H1.
  - replace (v <? int_lowest d) with true by lia. reflexivity.
  - replace (v <? int_lowest d) with false by lia.
    replace (int_max d <? v) with true by lia. reflexivity.
  - replace (v <? int_lowest d) with false by lia.
    replace (int_max d <? v) with false by lia. reflexivity.
Qed.

Lemma ClampRawValue_int (d s : IntType) (ice : bool) (v : Z) :
  has_type (Integral s) v = true ->
  ClampRawValue' (Integral d) (Integral s) ice v = Some (clamp d v).
Proof.
  intros Hv. unfold ClampRawValue.
  rewrite (saturated_cast_int _ _ _ _ _ _ IsGreaterOrEqual_int IsLessOrEqual_int
             as_unsigned_int SaturationDefaultLimits d s ice v (no_asm_op _ _)
             eq_refl Hv).
  destruct (default_handlers_int d) as (-> & -> & _).
  symmetry. apply clamp_cases.
Qed.

Lemma clamp_has_type (d : IntType) (v : Z) : has_type (Integral d) (clamp d v) = true.
Proof.
  assert (int_lowest d <= int_max d) by (destruct d as [[] []]; norm_limits; lia).
  unfold has_type, clamp. lia.
Qed.

(** X11. [ClampRawValue] to an integer storage type always yields a value
    of the storage type, which is the raw value whenever that fits; it is
    monotone in the raw value; and clamping the result again changes
    nothing. *)
Theorem ClampRawValue_clamps (d s : IntType) (ice : bool) (v w : Z) :
  has_type (Integral s) v = true ->
  has_type (Integral s) w = true ->
  exists r r' : Z,
    ClampRawValue' (Integral d) (Integral s) ice v = Some r
    /\ ClampRawValue' (Integral d) (Integral s) ice w = Some r'
    /\ has_type (Integral d) r = true
    /\ (int_lowest d <= v <= int_max d -> r = v)
    /\ (v <= w -> r <= r')
    /\ ClampRawValue' (Integral d) (Integral d) ice r = Some r.
Proof.
  intros Hv Hw. exists (clamp d v), (clamp d w).
  rewrite (ClampRawValue_int d s ice v Hv), (ClampRawValue_int d s ice w Hw).
  rewrite (ClampRawValue_int d d ice _ (clamp_has_type d v)).
  pose proof (clamp_has_type d v) as Hc.
  split; [reflexivity |]. split; [reflexivity |]. split; [exact Hc |].
  unfold has_type, clamp in *.
  split; [lia |]. split; [lia |].
  apply (f_equal (@Some Z)). lia.
Qed.

End IntegerPaths.


(** ** Floating-point sources: truncation within the checked range *)

Lemma SFtrunc_finite (s : bool) (m : positive) (e : Z) :
  SFtrunc (S754_finite s m e) = Some (cond_Zopp s (Z.shiftl (Zpos m) e)).
Proof.
  unfold SFtrunc. destruct e as [| p | p].
  - rewrite Z.shiftl_0_r. reflexivity.
  - rewrite Z.shiftl_mul_pow2 by lia. reflexivity.
  - change (Z.shiftl (Zpos m) (Zneg p)) with (Z.shiftr (Zpos m) (Zpos p)).
    rewrite Z.shiftr_div_pow2 by lia. reflexivity.
Qed.

Lemma shiftl_mono (a a' e e' : Z) :
  0 <= a <= a' -> e <= e' -> Z.shiftl a e <= Z.shiftl a' e'.
Proof.
  intros Ha He.
  assert (Hstep : forall x n, 0 <= x -> 0 <= n -> x / 2 ^ n <= x).
  { intros x n Hx Hn. assert (0 < 2 ^ n) by (apply Z.pow_pos_nonneg; lia).
    apply Z.div_le_upper_bound; [lia | nia]. }
  destruct (Z.le_gt_cases 0 e) as [H0 | H0], (Z.le_gt_cases 0 e') as [H0' | H0'];
    try lia.
  - rewrite !Z.shiftl_mul_pow2 by lia.
    assert (0 < 2 ^ e <= 2 ^ e')
      by (split; [apply Z.pow_pos_nonneg; lia | apply Z.pow_le_mono_r; lia]).
    nia.
  - rewrite (Z.shiftl_mul_pow2 a' e') by lia.
    rewrite <- (Z.opp_involutive e), Z.shiftl_opp_r, Z.shiftr_div_pow2 by lia.
    assert (0 < 2 ^ e') by (apply Z.pow_pos_nonneg; lia).
    pose proof (Hstep a (- e)). nia.
  - rewrite <- (Z.opp_involutive e), <- (Z.opp_involutive e').
    rewrite !Z.shiftl_opp_r, !Z.shiftr_div_pow2 by lia.
    assert (0 < 2 ^ (- e') <= 2 ^ (- e))
      by (split; [apply Z.pow_pos_nonneg; lia | apply Z.pow_le_mono_r; lia]).
    transitivity (a / 2 ^ (- e')).
    + apply Z.div_le_compat_l; lia.
    + apply Z.div_le_mono; lia.
Qed.

Lemma SFcompare_nonneg_le (m : positive) (e : Z) (mb : positive) (eb : Z) :
  match SFcompare (S754_finite false m e) (S754_finite false mb eb) with
  | Some (Lt | Eq) => true
  | _ => false
  end = true ->
  e < eb \/ (e = eb /\ Zpos m <= Zpos mb).
Proof.
  cbn [SFcompare]. destruct (Z.compare_spec e eb) as [He | He | He].
  - change (Pos.compare_cont Eq m mb) with (Pos.compare m mb).
    destruct (Pos.compare_spec m mb) as [Hm | Hm | Hm]; intros H;
      try discriminate H; right; split; try assumption.
    + subst. lia.
    + apply Pos2Z.pos_lt_pos in Hm. lia.
  - intros _. left. exact He.
  - intros H. discriminate H.
Qed.

Lemma SFcompare_neg_ge (m : positive) (e : Z) (mb : positive) (eb : Z) :
  match SFcompare (S754_finite true m e) (S754_finite true mb eb) with
  | Some (Gt | Eq) => true
  | _ => false
  end = true ->
  e < eb \/ (e = eb /\ Zpos m <= Zpos mb).
Proof.
  cbn [SFcompare]. destruct (Z.compare_spec e eb) as [He | He | He].
  - change (Pos.compare_cont Eq m mb) with (Pos.compare m mb).
    destruct (Pos.compare_spec m mb) as [Hm | Hm | Hm]; cbn [CompOpp]; intros H;
      try discriminate H; right; split; try assumption.
    + subst. lia.
    + apply Pos2Z.pos_lt_pos in Hm. lia.
  - intros _. left. exact He.
  - intros H. discriminate H.
Qed.

(** A canonical magnitude that compares below a bound of the same format
    truncates to at most the bound's integer. *)
Lemma magnitude_bound (k : FloatKind) (m : positive) (e : Z)
  (mb : positive) (eb : Z) (B : Z) :
  Zpos m < 2 ^ prec k ->
  e < eb \/ (e = eb /\ Zpos m <= Zpos mb) ->
  Z.shiftl (Zpos mb) eb <= B ->
  Z.shiftl (2 ^ prec k - 1) (eb - 1) <= B ->
  Z.shiftl (Zpos m) e <= B.
Proof.
  intros Hm [He | [He Hle]] Hb Hb'.
  - transitivity (Z.shiftl (2 ^ prec k - 1) (eb - 1)); [| exact Hb'].
    apply shiftl_mono; lia.
  - subst e. transitivity (Z.shiftl (Zpos mb) eb); [| exact Hb].
    apply shiftl_mono; lia.
Qed.

Lemma float_to_int_spec (d : IntType) (f : spec_float) (z : Z) :
  float_to_int d f = Some z ->
  SFtrunc f = Some z /\ int_lowest d <= z <= int_max d.
Proof.
  unfold float_to_int. destruct (SFtrunc f) as [t |]; [| discriminate].
  destruct ((int_lowest d <=? t) && (t <=? int_max d)) eqn:Hr; [| discriminate].
  intros H. injection H as <-. split; [reflexivity | lia].
Qed.

Lemma float_to_int_in_range (d : IntType) (f : spec_float) (z : Z) :
  SFtrunc f = Some z -> int_lowest d <= z <= int_max d ->
  float_to_int d f = Some z.
Proof.
  intros Ht Hr. unfold float_to_int. rewrite Ht.
  replace ((int_lowest d <=? z) && (z <=? int_max d)) with true by lia. reflexivity.
Qed.

Ltac eval_int_to_float H :=
  repeat match type of H with
    | context [int_to_float ?k ?z] =>
        let r := eval vm_compute in (int_to_float k z) in
        change (int_to_float k z) with r in H
    end.

(** A value that passes both tests of the classifier converts to an
    integer of the destination type. *)
Lemma valid_float_converts (d : IntType) (k : FloatKind) (f : spec_float) :
  has_type (Floating k) f = true ->
  DstRangeRelationToSrcRange (Integral d) std_numeric_limits (Floating k) f
  = Some (RangeCheckFlags false false) ->
  exists z, static_cast (Integral d) (Floating k) f = Some z.
Proof.
  intros Hf Hc. cbn [static_cast].
  assert (Hz : int_lowest d <= 0 <= int_max d)
    by (clear; destruct d as [[] []]; norm_limits; lia).
  destruct f as [s | s | | s m e].
  - exists 0. apply float_to_int_in_range; [reflexivity | exact Hz].
  - exfalso. destruct d as [[] []], k, s; vm_compute in Hc; discriminate Hc.
  - exfalso. destruct d as [[] []], k; vm_compute in Hc; discriminate Hc.
  - pose proof (valid_mantissa_bound k s m e Hf) as Hm.
    exists (cond_Zopp s (Z.shiftl (Zpos m) e)).
    apply float_to_int_in_range; [apply SFtrunc_finite |].
    assert (H0 : 0 <= Z.shiftl (Zpos m) e) by (apply Z.shiftl_nonneg; lia).
    destruct (int_is_signed d) eqn:Hd.
    + rewrite (classify_float_to_signed d k _ Hd) in Hc.
      injection Hc as HL HU.
      apply negb_false_iff in HL, HU.
      unfold op_ge, op_le, compare_values in HL, HU.
      destruct s; cbn [cond_Zopp].
      * (* negative: the lower test bounds the magnitude *)
        clear HU. split; [| lia].
        assert (Z.shiftl (Zpos m) e <= - int_lowest d); [| lia].
        destruct d as [[] []], k; try discriminate Hd;
          eval_int_to_float HL;
          apply SFcompare_neg_ge in HL;
          (eapply magnitude_bound; [exact Hm | exact HL | |]);
          apply Z.leb_le; reflexivity.
      * clear HL. split; [lia |].
        destruct d as [[] []], k; try discriminate Hd;
          eval_int_to_float HU;
          apply SFcompare_nonneg_le in HU;
          (eapply magnitude_bound; [exact Hm | exact HU | |]);
          apply Z.leb_le; reflexivity.
    + apply not_true_iff_false in Hd. 
      assert (Hd' : int_is_signed d = false) by (destruct (int_is_signed d); congruence).
      rewrite (classify_float_to_unsigned d k _ Hd') in Hc.
      injection Hc as HL HU.
      apply negb_false_iff in HL, HU.
      destruct s; cbn [cond_Zopp].
      * clear HU.
        assert (Hlt : op_lt (A:=Floating k) (S754_finite true m e) (int_literal 0) = true)
          by (destruct k; reflexivity).
        pose proof (trunc_above_minus_one d k _ Hd' Hf HL Hlt) as Ht.
        cbn [static_cast] in Ht. apply float_to_int_spec in Ht.
        destruct Ht as [Ht Hr]. rewrite SFtrunc_finite in Ht.
        injection Ht as Ht. cbn [cond_Zopp] in Ht. rewrite Ht. exact Hz.
      * clear HL. split; [lia |].
        unfold op_le, compare_values in HU.
        destruct d as [[] []], k; try discriminate Hd';
          eval_int_to_float HU;
          apply SFcompare_nonneg_le in HU;
          (eapply magnitude_bound; [exact Hm | exact HU | |]);
          apply Z.leb_le; reflexivity.
Qed.


Lemma classify_float_total (d : IntType) (k : FloatKind) (f : spec_float) :
  exists lower upper : bool,
    DstRangeRelationToSrcRange (Integral d) std_numeric_limits (Floating k) f
    = Some (mkRangeCheck lower upper).
Proof.
  destruct (int_is_signed d) eqn:Hd.
  - do 2 eexists. apply (classify_float_to_signed d k f Hd).
  - do 2 eexists. apply (classify_float_to_unsigned d k f Hd).
Qed.

Lemma classify_widening_float (kd ks : FloatKind) (f : spec_float) :
  emax ks <= emax kd ->
  DstRangeRelationToSrcRange (Floating kd) std_numeric_limits (Floating ks) f
  = Some (RangeCheckFlags false false).
Proof.
  destruct kd, ks; cbv [emax]; intros H; try lia; unfold_check; eval_left f;
    reflexivity.
Qed.

Section FloatPaths.
Variable IsGreaterOrEqual_Test : forall L R : NumericType, Value L -> Value R -> bool.
Variable IsLessOrEqual_Test : forall L R : NumericType, Value L -> Value R -> bool.
Variable kIsTypeInRangeForNumericType : NumericType -> NumericType -> bool.
Variable as_unsigned : IntType -> Z -> Z.
Variable SaturateFastAsmOp_is_supported : NumericType -> NumericType -> bool.
Variable SaturateFastAsmOp_Do : forall Dst Src : NumericType, Value Src -> Value Dst.

Local Abbreviation saturated_cast' :=
  (saturated_cast IsGreaterOrEqual_Test IsLessOrEqual_Test
     kIsTypeInRangeForNumericType as_unsigned
     SaturateFastAsmOp_is_supported SaturateFastAsmOp_Do).

(** X12. For a floating-point source and an integer destination the cast
    never reaches a conversion the language leaves undefined: for every
    canonical source value the classifier returns a check and
    [saturated_cast] returns a value.  When the check is valid that value
    is the source value truncated toward zero, and it lies within the
    destination's limits; with the default handler the result is a value of
    the destination type in every case. *)
Theorem float_source_always_converts
  (S : SaturationHandler) (d : IntType) (k : FloatKind) (ice : bool) (f : spec_float) :
  standard_limits S ->
  has_type (Floating k) f = true ->
  exists (c : RangeCheck) (r : Z),
    DstRangeRelationToSrcRange (Integral d) (S_bounds S) (Floating k) f = Some c
    /\ saturated_cast' (Integral d) S (Floating k) ice f = Some r
    /\ (IsValid c = true -> SFtrunc f = Some r /\ int_lowest d <= r <= int_max d)
    /\ (S = SaturationDefaultLimits -> has_type (Integral d) r = true).
Proof.
  intros HS Hf.
  rewrite (saturated_cast_float _ _ _ _ _ _ (Integral d) S k ice f), HS.
  destruct (classify_float_total d k f) as (lower & upper & Hc).
  rewrite Hc, bind_Some.
  assert (Hz : int_lowest d <= int_max d /\ int_lowest d <= 0 <= int_max d)
    by (clear; destruct d as [[] []]; norm_limits; lia).
  destruct lower, upper.
  - destruct (valid_float_converts d k f Hf Hc) as [z Hcast].
    exists (mkRangeCheck true true), z.
    split; [reflexivity |]. split; [exact Hcast |].
    cbn [static_cast] in Hcast. apply float_to_int_spec in Hcast.
    split; [intros _; exact Hcast |].
    intros _. unfold has_type. lia.
  - exists (mkRangeCheck true false), (S_Overflow S (Integral d)).
    split; [reflexivity |]. split; [reflexivity |].
    split; [intros H; discriminate H |].
    intros ->. destruct (default_handlers_int d) as (_ & -> & _). unfold has_type. lia.
  - exists (mkRangeCheck false true), (S_Underflow S (Integral d)).
    split; [reflexivity |]. split; [reflexivity |].
    split; [intros H; discriminate H |].
    intros ->. destruct (default_handlers_int d) as (-> & _ & _). unfold has_type. lia.
  - exists (mkRangeCheck false false), (S_NaN S (Integral d)).
    split; [reflexivity |]. split; [reflexivity |].
    split; [intros H; discriminate H |].
    intros ->. destruct (default_handlers_int d) as (_ & _ & ->). unfold has_type. lia.
Qed.

(** X13. The infinities of a floating-point source saturate: positive
    infinity gives the handler's overflow value and negative infinity its
    underflow value, for every integer destination. *)
Theorem infinities_saturate
  (S : SaturationHandler) (d : IntType) (k : FloatKind) (ice : bool) :
  standard_limits S ->
  saturated_cast' (Integral d) S (Floating k) ice (S754_infinity false)
  = Some (S_Overflow S (Integral d))
  /\ saturated_cast' (Integral d) S (Floating k) ice (S754_infinity true)
     = Some (S_Underflow S (Integral d)).
Proof.
  intros HS.
  rewrite !(saturated_cast_float _ _ _ _ _ _ (Integral d) S k ice), HS.
  assert (Hp : DstRangeRelationToSrcRange (Integral d) std_numeric_limits
                 (Floating k) (S754_infinity false) = Some (RangeCheckFlags false true))
    by (destruct d as [[] []], k; reflexivity).
  assert (Hn : DstRangeRelationToSrcRange (Integral d) std_numeric_limits
                 (Floating k) (S754_infinity true) = Some (RangeCheckFlags true false))
    by (destruct d as [[] []], k; reflexivity).
  rewrite Hp, Hn. split; reflexivity.
Qed.

(** X14. A conversion to a floating-point type that cannot lose range is
    never saturated: an integer of any type converts to [float] or [double]
    by rounding, and a floating-point value converts to a format at least as
    wide unchanged in value (a NaN and the infinities included), whatever
    the handler's three functions return. *)
Theorem widening_to_floating_point_is_plain_cast
  (S : SaturationHandler) (kd : FloatKind) (ice : bool) :
  standard_limits S ->
  (forall (s : IntType) (v : Z),
      saturated_cast' (Floating kd) S (Integral s) ice v = Some (int_to_float kd v))
  /\ (forall (ks : FloatKind) (f : spec_float),
        emax ks <= emax kd ->
        saturated_cast' (Floating kd) S (Floating ks) ice f
        = Some (float_to_float ks kd f)).
Proof.
  intros HS. split.
  - intros s v. unfold saturated_cast, SaturateFastOp_is_supported.
    cbn [is_integral andb]. rewrite andb_false_r. cbn [andb].
    rewrite HS, classify_int_to_float. reflexivity.
  - intros ks f Hk.
    rewrite (saturated_cast_float _ _ _ _ _ _ (Floating kd) S ks ice f), HS.
    rewrite (classify_widening_float kd ks f Hk). reflexivity.
Qed.

End FloatPaths.

(** X15. The adjusted bounds are exactly representable in the
    floating-point source type: converting them to it loses nothing.  The
    unadjusted maximum rounds up exactly when the shift is positive. *)
Theorem adjusted_bounds_are_representable (d : IntType) (k : FloatKind) :
  float_compare_int
    (int_to_float k (NarrowingRange_max (Integral d) (Floating k) std_numeric_limits))
    (NarrowingRange_max (Integral d) (Floating k) std_numeric_limits) = Some Eq
  /\ float_compare_int
       (int_to_float k (NarrowingRange_lowest (Integral d) (Floating k) std_numeric_limits))
       (NarrowingRange_lowest (Integral d) (Floating k) std_numeric_limits) = Some Eq
  /\ (0 < kShift (Integral d) (Floating k) <->
      float_compare_int (int_to_float k (int_max d)) (int_max d) = Some Gt)
  /\ (kShift (Integral d) (Floating k) = 0 <->
      float_compare_int (int_to_float k (int_max d)) (int_max d) = Some Eq).
Proof.
  destruct d as [[] []], k; vm_compute; repeat split; congruence.
Qed.


(** ** Floating-point sources: the classification is exact *)

Lemma digits2_pos_lower (m : positive) : 2 ^ (Zpos (digits2_pos m) - 1) <= Zpos m.
Proof.
  induction m as [p IH | p IH |]; cbn [digits2_pos].
  - rewrite Pos2Z.inj_succ.
    replace (Z.succ (Zpos (digits2_pos p)) - 1) with (Z.succ (Zpos (digits2_pos p) - 1)) by lia.
    rewrite Z.pow_succ_r by lia. lia.
  - rewrite Pos2Z.inj_succ.
    replace (Z.succ (Zpos (digits2_pos p)) - 1) with (Z.succ (Zpos (digits2_pos p) - 1)) by lia.
    rewrite Z.pow_succ_r by lia. lia.
  - reflexivity.
Qed.

(** Above the smallest exponent a canonical mantissa has all its digits. *)
Lemma normal_mantissa (k : FloatKind) (s : bool) (m : positive) (e : Z) :
  has_type (Floating k) (S754_finite s m e) = true ->
  3 - emax k - prec k < e ->
  2 ^ (prec k - 1) <= Zpos m.
Proof.
  cbn [has_type valid_binary]. unfold bounded, canonical_mantissa, fexp, emin.
  intros H He. pose proof (digits2_pos_lower m) as Hm.
  assert (Hd : Zpos (digits2_pos m) = prec k).
  { apply andb_prop in H. destruct H as [H _]. apply Z.eqb_eq in H.
    destruct k; cbv [prec emax] in *; lia. }
  rewrite Hd in Hm. exact Hm.
Qed.

Lemma mul_compare_r (n m p : Z) : 0 < p -> (n * p ?= m * p) = (n ?= m).
Proof.
  intros Hp. destruct (Z.compare_spec n m) as [-> | H | H].
  - apply Z.compare_refl.
  - apply Z.compare_lt_iff. nia.
  - apply Z.compare_gt_iff. nia.
Qed.

(** The exact comparison, with both sides scaled to integers. *)
Lemma float_compare_int_scaled (s : bool) (m : positive) (e B N : Z) :
  0 <= N -> 0 <= e + N ->
  float_compare_int (S754_finite s m e) B
  = Some (cond_Zopp s (Zpos m) * 2 ^ (e + N) ?= B * 2 ^ N).
Proof.
  intros HN HeN. unfold float_compare_int. cbv zeta.
  set (n := cond_Zopp s (Zpos m)).
  assert (HR : 0 < 2 ^ N) by (apply Z.pow_pos_nonneg; lia).
  destruct e as [| q | q]; f_equal.
  - rewrite Z.add_0_l, mul_compare_r by exact HR. reflexivity.
  - rewrite Z.pow_add_r, Z.mul_assoc, mul_compare_r by lia. reflexivity.
  - assert (HM : 0 < 2 ^ (Zneg q + N)) by (apply Z.pow_pos_nonneg; lia).
    replace (2 ^ N) with (2 ^ Zpos q * 2 ^ (Zneg q + N))
      by (rewrite <- Z.pow_add_r by lia; f_equal; lia).
    rewrite Z.mul_assoc, mul_compare_r by exact HM. reflexivity.
Qed.

Section ExactBound.
Variable k : FloatKind.
Variables (m : positive) (e : Z).
Variables (mb : positive) (eb : Z).
Variables A B : Z.

Hypothesis bound_normal : 2 ^ (prec k - 1) <= Zpos mb < 2 ^ prec k.
Hypothesis bound_exact : float_compare_int (S754_finite false mb eb) A = Some Eq.

Let N := Z.max 0 (Z.max (- e) (- eb)).

Lemma scaled_facts :
  0 < 2 ^ N /\ 0 < 2 ^ (e + N) /\ 0 < 2 ^ (eb + N)
  /\ Zpos mb * 2 ^ (eb + N) = A * 2 ^ N
  /\ (e < eb -> 2 * 2 ^ (e + N) <= 2 ^ (eb + N))
  /\ (eb < e -> 2 * 2 ^ (eb + N) <= 2 ^ (e + N))
  /\ 2 ^ prec k = 2 * 2 ^ (prec k - 1).
Proof.
  assert (HN : 0 <= N /\ 0 <= e + N /\ 0 <= eb + N) by (unfold N; lia).
  destruct HN as (HN & HeN & HebN).
  split; [apply Z.pow_pos_nonneg; lia |].
  split; [apply Z.pow_pos_nonneg; lia |].
  split; [apply Z.pow_pos_nonneg; lia |].
  split.
  { pose proof bound_exact as H.
    rewrite (float_compare_int_scaled false mb eb A N HN HebN) in H.
    change (cond_Zopp false (Zpos mb)) with (Zpos mb) in H.
    apply Z.compare_eq. congruence. }
  split.
  { intros Hlt. replace (eb + N) with (Z.succ (e + N) + (eb - e - 1)) by lia.
    rewrite (Z.pow_add_r 2 (Z.succ (e + N)) (eb - e - 1)), Z.pow_succ_r by lia.
    assert (1 <= 2 ^ (eb - e - 1)) by (apply (Z.pow_le_mono_r 2 0); lia).
    assert (0 < 2 ^ (e + N)) by (apply Z.pow_pos_nonneg; lia). nia. }
  split.
  { intros Hlt. replace (e + N) with (Z.succ (eb + N) + (e - eb - 1)) by lia.
    rewrite (Z.pow_add_r 2 (Z.succ (eb + N)) (e - eb - 1)), Z.pow_succ_r by lia.
    assert (1 <= 2 ^ (e - eb - 1)) by (apply (Z.pow_le_mono_r 2 0); lia).
    assert (0 < 2 ^ (eb + N)) by (apply Z.pow_pos_nonneg; lia). nia. }
  replace (prec k) with (Z.succ (prec k - 1)) at 1 by lia.
  apply Z.pow_succ_r. destruct k; cbv [prec]; lia.
Qed.

(** At or below the bound in the format's order: not above [B]. *)
Lemma below_bound_exact :
  Zpos m < 2 ^ prec k ->
  A <= B ->
  e < eb \/ (e = eb /\ Zpos m <= Zpos mb) ->
  float_compare_int (S754_finite false m e) B <> Some Gt.
Proof.
  intros Hm HAB Hle.
  destruct scaled_facts as (HR & HP & HQ & Hex & Hlt & _ & Hpow).
  assert (HN : 0 <= N /\ 0 <= e + N) by (unfold N; lia).
  rewrite (float_compare_int_scaled false m e B N (proj1 HN) (proj2 HN)).
  change (cond_Zopp false (Zpos m)) with (Zpos m).
  intros H.
  assert (H' : B * 2 ^ N < Zpos m * 2 ^ (e + N))
    by (apply Z.compare_gt_iff; congruence).
  clear H.
  assert (HABR : A * 2 ^ N <= B * 2 ^ N) by (apply Z.mul_le_mono_nonneg_r; lia).
  destruct Hle as [He | [He Hmle]].
  - specialize (Hlt He). rewrite Hpow in Hm.
    assert (Zpos m * 2 ^ (e + N) < 2 * 2 ^ (prec k - 1) * 2 ^ (e + N))
      by (apply Z.mul_lt_mono_pos_r; lia).
    assert (2 ^ (prec k - 1) * (2 * 2 ^ (e + N)) <= 2 ^ (prec k - 1) * 2 ^ (eb + N))
      by (apply Z.mul_le_mono_nonneg_l; [apply Z.pow_nonneg |]; lia).
    assert (2 ^ (prec k - 1) * 2 ^ (eb + N) <= Zpos mb * 2 ^ (eb + N))
      by (apply Z.mul_le_mono_nonneg_r; lia).
    lia.
  - subst e.
    assert (Zpos m * 2 ^ (eb + N) <= Zpos mb * 2 ^ (eb + N))
      by (apply Z.mul_le_mono_nonneg_r; lia).
    lia.
Qed.

(** Above the bound in the format's order: above [B], provided the next
    value after the bound is. *)
Lemma above_bound_exact :
  (eb < e -> 2 ^ (prec k - 1) <= Zpos m) ->
  float_compare_int (S754_finite false (mb + 1) eb) B = Some Gt ->
  eb < e \/ (e = eb /\ Zpos mb < Zpos m) ->
  float_compare_int (S754_finite false m e) B = Some Gt.
Proof.
  intros Hnorm Hnext Hgt.
  destruct scaled_facts as (HR & HP & HQ & Hex & _ & Hlt & Hpow).
  assert (HN : 0 <= N /\ 0 <= e + N /\ 0 <= eb + N) by (unfold N; lia).
  destruct HN as (HN & HeN & HebN).
  rewrite (float_compare_int_scaled false (mb + 1) eb B N HN HebN) in Hnext.
  change (cond_Zopp false (Zpos (mb + 1))) with (Zpos (mb + 1)) in Hnext.
  assert (Hnext' : B * 2 ^ N < Zpos (mb + 1) * 2 ^ (eb + N))
    by (apply Z.compare_gt_iff; congruence).
  clear Hnext. rewrite Pos2Z.inj_add in Hnext'.
  rewrite (float_compare_int_scaled false m e B N HN HeN).
  change (cond_Zopp false (Zpos m)) with (Zpos m). f_equal. apply Z.compare_gt_iff.
  destruct Hgt as [He | [He Hmgt]].
  - specialize (Hlt He). specialize (Hnorm He).
    assert ((Zpos mb + 1) * 2 ^ (eb + N) <= 2 ^ prec k * 2 ^ (eb + N))
      by (apply Z.mul_le_mono_nonneg_r; lia).
    assert (2 ^ prec k * 2 ^ (eb + N) <= 2 ^ (prec k - 1) * 2 ^ (e + N)).
    { rewrite Hpow.
      replace (2 * 2 ^ (prec k - 1) * 2 ^ (eb + N))
        with (2 ^ (prec k - 1) * (2 * 2 ^ (eb + N))) by ring.
      apply Z.mul_le_mono_nonneg_l; [| lia].
      apply Z.pow_nonneg; lia. }
    assert (2 ^ (prec k - 1) * 2 ^ (e + N) <= Zpos m * 2 ^ (e + N))
      by (apply Z.mul_le_mono_nonneg_r; lia).
    lia.
  - subst e.
    assert ((Zpos mb + 1) * 2 ^ (eb + N) <= Zpos m * 2 ^ (eb + N))
      by (apply Z.mul_le_mono_nonneg_r; lia).
    lia.
Qed.

End ExactBound.


Lemma SFcompare_nonneg_gt (m : positive) (e : Z) (mb : positive) (eb : Z) :
  match SFcompare (S754_finite false m e) (S754_finite false mb eb) with
  | Some (Lt | Eq) => true
  | _ => false
  end = false ->
  eb < e \/ (e = eb /\ Zpos mb < Zpos m).
Proof.
  cbn [SFcompare]. destruct (Z.compare_spec e eb) as [He | He | He].
  - change (Pos.compare_cont Eq m mb) with (Pos.compare m mb).
    destruct (Pos.compare_spec m mb) as [Hm | Hm | Hm]; intros H;
      try discriminate H. right. split; [exact He |].
    apply Pos2Z.pos_lt_pos in Hm. lia.
  - intros H. discriminate H.
  - intros _. left. exact He.
Qed.

Lemma SFcompare_neg_lt (m : positive) (e : Z) (mb : positive) (eb : Z) :
  match SFcompare (S754_finite true m e) (S754_finite true mb eb) with
  | Some (Gt | Eq) => true
  | _ => false
  end = false ->
  eb < e \/ (e = eb /\ Zpos mb < Zpos m).
Proof.
  cbn [SFcompare]. destruct (Z.compare_spec e eb) as [He | He | He].
  - change (Pos.compare_cont Eq m mb) with (Pos.compare m mb).
    destruct (Pos.compare_spec m mb) as [Hm | Hm | Hm]; cbn [CompOpp]; intros H;
      try discriminate H. right. split; [exact He |].
    apply Pos2Z.pos_lt_pos in Hm. lia.
  - intros H. discriminate H.
  - intros _. left. exact He.
Qed.

(** A negative value compared with [z] mirrors its magnitude compared with
    [-z]. *)
Lemma float_compare_int_neg (m : positive) (e z : Z) :
  float_compare_int (S754_finite true m e) z = Some Lt
  <-> float_compare_int (S754_finite false m e) (- z) = Some Gt.
Proof.
  set (N := Z.max 0 (- e)).
  assert (HN : 0 <= N /\ 0 <= e + N) by (unfold N; lia).
  rewrite !(float_compare_int_scaled _ m e _ N (proj1 HN) (proj2 HN)).
  change (cond_Zopp true (Zpos m)) with (- Zpos m).
  change (cond_Zopp false (Zpos m)) with (Zpos m).
  split; intros H.
  - assert (- Zpos m * 2 ^ (e + N) < z * 2 ^ N)
      by (apply Z.compare_lt_iff; congruence).
    f_equal. apply Z.compare_gt_iff. lia.
  - assert (- z * 2 ^ N < Zpos m * 2 ^ (e + N))
      by (apply Z.compare_gt_iff; congruence).
    f_equal. apply Z.compare_lt_iff. lia.
Qed.

Lemma float_compare_int_signs (m : positive) (e z : Z) :
  (z <= 0 -> float_compare_int (S754_finite false m e) z = Some Gt)
  /\ (0 <= z -> float_compare_int (S754_finite true m e) z = Some Lt).
Proof.
  set (N := Z.max 0 (- e)).
  assert (HN : 0 <= N /\ 0 <= e + N) by (unfold N; lia).
  rewrite !(float_compare_int_scaled _ m e _ N (proj1 HN) (proj2 HN)).
  change (cond_Zopp true (Zpos m)) with (- Zpos m).
  change (cond_Zopp false (Zpos m)) with (Zpos m).
  assert (HR : 0 < 2 ^ N) by (apply Z.pow_pos_nonneg; lia).
  assert (HP : 0 < 2 ^ (e + N)) by (apply Z.pow_pos_nonneg; lia).
  assert (HmP : 0 < Zpos m * 2 ^ (e + N)) by (apply Z.mul_pos_pos; lia).
  split; intros Hz; f_equal.
  - apply Z.compare_gt_iff.
    assert (z * 2 ^ N <= 0) by (apply Z.mul_nonpos_nonneg; lia). lia.
  - apply Z.compare_lt_iff.
    assert (0 <= z * 2 ^ N) by (apply Z.mul_nonneg_nonneg; lia). lia.
Qed.

(** The format's order against a normal bound agrees with the exact
    comparison against an integer [B] that lies between the bound and the
    next value after it. *)
Lemma magnitude_test_exact (k : FloatKind) (s : bool) (m : positive) (e : Z)
  (mb : positive) (eb : Z) (A B : Z) :
  has_type (Floating k) (S754_finite s m e) = true ->
  2 ^ (prec k - 1) <= Zpos mb < 2 ^ prec k ->
  float_compare_int (S754_finite false mb eb) A = Some Eq ->
  A <= B ->
  float_compare_int (S754_finite false (mb + 1) eb) B = Some Gt ->
  3 - emax k - prec k <= eb ->
  (e < eb \/ (e = eb /\ Zpos m <= Zpos mb) ->
   float_compare_int (S754_finite false m e) B <> Some Gt)
  /\ (eb < e \/ (e = eb /\ Zpos mb < Zpos m) ->
      float_compare_int (S754_finite false m e) B = Some Gt).
Proof.
  intros Hf Hnb Hex HAB Hnext Hemin. split.
  - apply (below_bound_exact k m e mb eb A B Hnb Hex).
    + apply (valid_mantissa_bound k s m e Hf).
    + exact HAB.
  - apply (above_bound_exact k m e mb eb A B Hnb Hex).
    + intros He. apply (normal_mantissa k s m e Hf). lia.
    + exact Hnext.
Qed.


Ltac closed_side :=
  first [ reflexivity
        | apply Z.leb_le; reflexivity
        | split; [apply Z.leb_le | apply Z.ltb_lt]; reflexivity ].

Ltac eval_int_to_float_goal :=
  repeat match goal with
    | |- context [int_to_float ?k ?z] =>
        let r := eval vm_compute in (int_to_float k z) in
        change (int_to_float k z) with r
    end.

(** The upper test fails exactly for the values above the maximum. *)
Lemma overflow_test_exact (d : IntType) (k : FloatKind) (s : bool) (m : positive) (e : Z) :
  has_type (Floating k) (S754_finite s m e) = true ->
  op_le (A:=Floating k) (B:=Integral d) (S754_finite s m e)
    (NarrowingRange_max (Integral d) (Floating k) std_numeric_limits) = false
  <-> float_compare_int (S754_finite s m e) (int_max d) = Some Gt.
Proof.
  intros Hf. unfold op_le, compare_values.
  assert (H0 : 0 <= int_max d) by (clear; destruct d as [[] []]; norm_limits; lia).
  destruct s.
  - rewrite (proj2 (float_compare_int_signs m e (int_max d)) H0).
    destruct d as [[] []], k; eval_int_to_float_goal; cbn [SFcompare];
      split; intros H; discriminate H.
  - destruct d as [[] []], k;
      match goal with
      | |- context [int_to_float ?K ?z] =>
          let A := eval vm_compute in z in
          let r := eval vm_compute in (int_to_float K z) in
          change (int_to_float K z) with r;
          match r with
          | S754_finite false ?mb ?eb =>
              match goal with
              | |- context [float_compare_int _ ?B] =>
                  let B' := eval vm_compute in B in
                  change B with B';
                  assert (Hex : (e < eb \/ (e = eb /\ Zpos m <= Zpos mb) ->
                                 float_compare_int (S754_finite false m e) B' <> Some Gt)
                                /\ (eb < e \/ (e = eb /\ Zpos mb < Zpos m) ->
                                    float_compare_int (S754_finite false m e) B' = Some Gt))
                    by (apply (magnitude_test_exact _ false m e mb eb A B' Hf);
                        first [closed_side | cbv [emax prec]; lia])
              end
          end
      end;
      destruct Hex as [Hle Hgt];
      match goal with
      | |- ?b = false <-> _ =>
          destruct b eqn:Hc;
          [ apply SFcompare_nonneg_le in Hc; specialize (Hle Hc);
            split; [intros H; discriminate H | intros H; contradiction]
          | apply SFcompare_nonneg_gt in Hc; specialize (Hgt Hc);
            split; [intros _; exact Hgt | reflexivity] ]
      end.
Qed.


(** The lower test of a signed destination fails exactly for the values
    below the lowest value. *)
Lemma underflow_test_exact_signed
  (d : IntType) (k : FloatKind) (s : bool) (m : positive) (e : Z) :
  int_is_signed d = true ->
  has_type (Floating k) (S754_finite s m e) = true ->
  op_ge (A:=Floating k) (B:=Integral d) (S754_finite s m e)
    (NarrowingRange_lowest (Integral d) (Floating k) std_numeric_limits) = false
  <-> float_compare_int (S754_finite s m e) (int_lowest d) = Some Lt.
Proof.
  intros Hd Hf. unfold op_ge, compare_values.
  assert (H0 : int_lowest d <= 0) by (clear; destruct d as [[] []]; norm_limits; lia).
  destruct s.
  - rewrite float_compare_int_neg.
    destruct d as [[] []], k; try discriminate Hd;
      match goal with
      | |- context [int_to_float ?K ?z] =>
          let r := eval vm_compute in (int_to_float K z) in
          change (int_to_float K z) with r;
          match r with
          | S754_finite true ?mb ?eb =>
              match goal with
              | |- context [float_compare_int _ ?B] =>
                  let B' := eval vm_compute in B in
                  change B with B';
                  assert (Hex : (e < eb \/ (e = eb /\ Zpos m <= Zpos mb) ->
                                 float_compare_int (S754_finite false m e) B' <> Some Gt)
                                /\ (eb < e \/ (e = eb /\ Zpos mb < Zpos m) ->
                                    float_compare_int (S754_finite false m e) B' = Some Gt))
                    by (apply (magnitude_test_exact _ true m e mb eb B' B' Hf);
                        first [closed_side | cbv [emax prec]; lia])
              end
          end
      end;
      destruct Hex as [Hle Hgt];
      match goal with
      | |- ?b = false <-> _ =>
          destruct b eqn:Hc;
          [ apply SFcompare_neg_ge in Hc; specialize (Hle Hc);
            split; [intros H; discriminate H | intros H; contradiction]
          | apply SFcompare_neg_lt in Hc; specialize (Hgt Hc);
            split; [intros _; exact Hgt | reflexivity] ]
      end.
  - rewrite (proj1 (float_compare_int_signs m e (int_lowest d)) H0).
    destruct d as [[] []], k; try discriminate Hd; eval_int_to_float_goal;
      cbn [SFcompare]; split; intros H; discriminate H.
Qed.

Lemma gt_minus_one_finite_conv (k : FloatKind) (m : positive) (e : Z) :
  e < 1 - prec k \/ (e = 1 - prec k /\ Zpos m < 2 ^ (prec k - 1)) ->
  op_gt (A:=Floating k) (B:=Floating k) (S754_finite true m e) (literal (Floating k) (-1))
  = true.
Proof.
  rewrite minus_one_literal. unfold op_gt, compare_values.
  replace (float_to_float k (wider_float k k) (S754_finite true m e))
    with (S754_finite true m e) by (destruct k; reflexivity).
  replace (float_to_float k (wider_float k k)
             (S754_finite true (Z.to_pos (2 ^ (prec k - 1))) (1 - prec k)))
    with (S754_finite true (Z.to_pos (2 ^ (prec k - 1))) (1 - prec k))
    by (destruct k; reflexivity).
  cbn [SFcompare].
  assert (Hpos : 0 < 2 ^ (prec k - 1)) by (destruct k; reflexivity).
  intros [He | [He Hm]].
  - apply Z.compare_lt_iff in He. rewrite He. reflexivity.
  - rewrite He, Z.compare_refl.
    change (Pos.compare_cont Eq m (Z.to_pos (2 ^ (prec k - 1))))
      with (Pos.compare m (Z.to_pos (2 ^ (prec k - 1)))).
    assert (Hc : (m ?= Z.to_pos (2 ^ (prec k - 1)))%positive = Lt).
    { assert (Hlt : Zpos m < Zpos (Z.to_pos (2 ^ (prec k - 1))))
        by (rewrite Z2Pos.id by exact Hpos; exact Hm).
      exact Hlt. }
    rewrite Hc. reflexivity.
Qed.

(** The lower test of an unsigned destination, [value > -1], holds exactly
    for the values above -1. *)
Lemma underflow_test_exact_unsigned (k : FloatKind) (s : bool) (m : positive) (e : Z) :
  has_type (Floating k) (S754_finite s m e) = true ->
  op_gt (A:=Floating k) (B:=Floating k) (S754_finite s m e) (literal (Floating k) (-1))
  = true
  <-> float_compare_int (S754_finite s m e) (-1) = Some Gt.
Proof.
  intros Hf. destruct s.
  - set (N := Z.max 0 (- e)).
    assert (HN : 0 <= N /\ 0 <= e + N) by (unfold N; lia).
    rewrite (float_compare_int_scaled true m e (-1) N (proj1 HN) (proj2 HN)).
    change (cond_Zopp true (Zpos m)) with (- Zpos m).
    assert (HR : 0 < 2 ^ N) by (apply Z.pow_pos_nonneg; lia).
    assert (HP : 0 < 2 ^ (e + N)) by (apply Z.pow_pos_nonneg; lia).
    pose proof (valid_mantissa_bound k true m e Hf) as Hm.
    assert (Hp : 24 <= prec k) by (destruct k; cbv [prec]; lia).
    split.
    + intros H. apply gt_minus_one_finite in H. f_equal. apply Z.compare_gt_iff.
      assert (He : e < 0) by lia.
      assert (EN : N = - e) by (unfold N; lia).
      replace (e + N) with 0 by lia. rewrite Z.pow_0_r, EN.
      assert (Zpos m < 2 ^ (- e)); [| lia].
      destruct H as [H | [H Hm']].
      * apply (Z.lt_le_trans _ _ _ Hm). apply Z.pow_le_mono_r; lia.
      * replace (- e) with (prec k - 1) by lia. exact Hm'.
    + intros H.
      assert (H' : -1 * 2 ^ N < - Zpos m * 2 ^ (e + N))
        by (apply Z.compare_gt_iff; congruence).
      clear H. apply gt_minus_one_finite_conv.
      destruct (Z.lt_trichotomy e (1 - prec k)) as [He | [He | He]].
      * left. exact He.
      * right. split; [exact He |].
        assert (EN : N = prec k - 1) by (unfold N; lia).
        replace (e + N) with 0 in H' by lia. rewrite Z.pow_0_r, EN in H'. lia.
      * exfalso.
        assert (Hn : 2 ^ (prec k - 1) <= Zpos m).
        { apply (normal_mantissa k true m e Hf). destruct k; cbv [prec emax] in *; lia. }
        destruct (Z.le_gt_cases 0 e) as [He0 | He0].
        -- assert (EN : N = 0) by (unfold N; lia).
           rewrite EN, Z.add_0_r, Z.pow_0_r in H'.
           assert (1 <= 2 ^ e) by (apply (Z.pow_le_mono_r 2 0); lia). nia.
        -- assert (EN : N = - e) by (unfold N; lia).
           replace (e + N) with 0 in H' by lia. rewrite Z.pow_0_r, EN in H'.
           assert (2 ^ (- e) <= 2 ^ (prec k - 1)) by (apply Z.pow_le_mono_r; lia).
           lia.
  - rewrite (proj1 (float_compare_int_signs m e (-1))) by lia.
    rewrite minus_one_literal. unfold op_gt, compare_values.
    replace (float_to_float k (wider_float k k) (S754_finite false m e))
      with (S754_finite false m e) by (destruct k; reflexivity).
    replace (float_to_float k (wider_float k k)
               (S754_finite true (Z.to_pos (2 ^ (prec k - 1))) (1 - prec k)))
      with (S754_finite true (Z.to_pos (2 ^ (prec k - 1))) (1 - prec k))
      by (destruct k; reflexivity).
    cbn [SFcompare]. split; reflexivity.
Qed.

(** X16. For a floating-point source and an integer destination the
    classification is exact on every canonical value other than a NaN: the
    overflow flag is set exactly when the value exceeds the destination's
    maximum; the underflow flag is set exactly when the value is below the
    lowest value of a signed destination, and exactly when it is not above
    -1 for an unsigned one. *)
Theorem float_classification_is_exact (d : IntType) (k : FloatKind) (f : spec_float) :
  has_type (Floating k) f = true ->
  f <> S754_nan ->
  exists c,
    DstRangeRelationToSrcRange (Integral d) std_numeric_limits (Floating k) f = Some c
    /\ (is_overflow_ c = true <-> float_compare_int f (int_max d) = Some Gt)
    /\ (int_is_signed d = true ->
        (is_underflow_ c = true <-> float_compare_int f (int_lowest d) = Some Lt))
    /\ (int_is_signed d = false ->
        (is_underflow_ c = false <-> float_compare_int f (-1) = Some Gt)).
Proof.
  intros Hf Hnan.
  destruct f as [s | s | | s m e].
  - destruct d as [[] []], k, s; eexists; (split; [reflexivity |]);
      vm_compute; repeat split; intros; congruence.
  - destruct d as [[] []], k, s; eexists; (split; [reflexivity |]);
      vm_compute; repeat split; intros; congruence.
  - contradiction.
  - destruct (int_is_signed d) eqn:Hd.
    + eexists. split; [apply (classify_float_to_signed d k _ Hd) |].
      cbn [mkRangeCheck is_overflow_ is_underflow_].
      rewrite !negb_true_iff.
      split; [apply (overflow_test_exact d k s m e Hf) |].
      split; [intros _; apply (underflow_test_exact_signed d k s m e Hd Hf) |].
      intros H; discriminate H.
    + eexists. split; [apply (classify_float_to_unsigned d k _ Hd) |].
      cbn [mkRangeCheck is_overflow_ is_underflow_].
      rewrite negb_true_iff, negb_false_iff.
      split; [apply (overflow_test_exact d k s m e Hf) |].
      split; [intros H; discriminate H |].
      intros _. apply (underflow_test_exact_unsigned k s m e Hf).
Qed.


(** ** Sign test and static constraints *)

(** X17. [IsValueNegative] is exact: on an integer type it tells whether
    the value is below zero (never, for an unsigned type); on a
    floating-point type it holds exactly for the values below zero, so not
    for a negative zero and not for a NaN. *)
Theorem IsValueNegative_exact (t : IntType) (v : Z) (k : FloatKind) (f : spec_float) :
  has_type (Integral t) v = true ->
  IsValueNegative (Integral t) v = (v <? 0)
  /\ (int_is_signed t = false -> IsValueNegative (Integral t) v = false)
  /\ (IsValueNegative (Floating k) f = true <-> float_compare_int f 0 = Some Lt)
  /\ IsValueNegative (Floating k) (S754_zero true) = false
  /\ IsValueNegative (Floating k) S754_nan = false.
Proof.
  intros Hv. split; [apply (IsValueNegative_int t v Hv) |].
  split; [intros Hs; unfold IsValueNegative; cbn [is_signed]; rewrite Hs; reflexivity |].
  split; [| split; destruct k; reflexivity].
  unfold IsValueNegative. cbn [is_signed]. unfold op_lt, compare_values, int_literal.
  replace (int_to_float k 0) with (S754_zero false) by (destruct k; reflexivity).
  destruct f as [s | s | | s m e].
  - cbn. split; intros H; discriminate H.
  - destruct s; cbn; split; intros H; try discriminate H; reflexivity.
  - cbn. split; intros H; discriminate H.
  - destruct s; cbn [SFcompare].
    + rewrite (proj2 (float_compare_int_signs m e 0)) by lia. split; reflexivity.
    + rewrite (proj1 (float_compare_int_signs m e 0)) by lia.
      split; intros H; discriminate H.
Qed.

(** X18. The static constraints hold for every pair of types with the
    standard limits, so that no instantiation is rejected: the constraint
    of [Adjust], and [lowest() < max()] for the classifier.  The shift is
    positive only for a floating-point source and an integer destination
    with more digits than the source's mantissa, and it is then the
    difference of the digits. *)
Theorem static_constraints_hold (Dst Src : NumericType) :
  Adjust_requires Dst Src = true
  /\ DstRangeRelationToSrcRange_requires Dst std_numeric_limits = true
  /\ (0 < kShift Dst Src <->
      is_floating_point Src = true /\ is_integral Dst = true
      /\ digits Src < digits Dst)
  /\ (0 < kShift Dst Src -> kShift Dst Src = digits Dst - digits Src).
Proof.
  destruct Dst as [[[] []] | []], Src as [[[] []] | []]; vm_compute;
    repeat split; intros; try congruence;
    repeat match goal with H : _ /\ _ |- _ => destruct H end; congruence.
Qed.


(* ================================================================== *)
(** ** Narrowing between the floating-point types *)

Lemma above_max_not_below_lowest (f hi : spec_float) (m : positive) (e : Z) :
  hi = S754_finite false m e ->
  SFcompare f hi = Some Gt ->
  SFcompare f (S754_finite true m e) = Some Gt.
Proof.
  intros -> H. destruct f as [s | s | | s m' e']; cbn [SFcompare] in *;
    try discriminate H; destruct s; try discriminate H; reflexivity.
Qed.

Lemma below_lowest_not_above_max (f : spec_float) (m : positive) (e : Z) :
  SFcompare f (S754_finite true m e) = Some Lt ->
  SFcompare f (S754_finite false m e) = Some Lt.
Proof.
  intros H. destruct f as [s | s | | s m' e']; cbn [SFcompare] in *;
    try discriminate H; destruct s; try discriminate H; reflexivity.
Qed.

Section FloatNarrowing.
Variable IsGreaterOrEqual_Test : forall L R : NumericType, Value L -> Value R -> bool.
Variable IsLessOrEqual_Test : forall L R : NumericType, Value L -> Value R -> bool.
Variable kIsTypeInRangeForNumericType : NumericType -> NumericType -> bool.
Variable as_unsigned : IntType -> Z -> Z.
Variable SaturateFastAsmOp_is_supported : NumericType -> NumericType -> bool.
Variable SaturateFastAsmOp_Do : forall Dst Src : NumericType, Value Src -> Value Dst.

Local Abbreviation saturated_cast' :=
  (saturated_cast IsGreaterOrEqual_Test IsLessOrEqual_Test
     kIsTypeInRangeForNumericType as_unsigned
     SaturateFastAsmOp_is_supported SaturateFastAsmOp_Do).

(** X19. Narrowing [double] to [float]: a value above the maximum of
    [float] gives the handler's overflow value and a value below its lowest
    value the underflow value, a NaN gives the handler's NaN value, and
    every other value is converted by rounding.  The comparisons are made
    in [double], without rounding the value first.  The default handler's
    three values are the two infinities and the NaN. *)
Theorem double_to_float_saturates
  (S : SaturationHandler) (ice : bool) (f : spec_float) :
  standard_limits S ->
  let hi := float_to_float Binary32 Binary64 (float_max Binary32) in
  let lo := float_to_float Binary32 Binary64 (SFopp (float_max Binary32)) in
  (SFcompare f hi = Some Gt ->
   saturated_cast' (Floating Binary32) S (Floating Binary64) ice f
   = Some (S_Overflow S (Floating Binary32)))
  /\ (SFcompare f lo = Some Lt ->
      saturated_cast' (Floating Binary32) S (Floating Binary64) ice f
      = Some (S_Underflow S (Floating Binary32)))
  /\ (SFcompare f hi = None ->
      saturated_cast' (Floating Binary32) S (Floating Binary64) ice f
      = Some (S_NaN S (Floating Binary32)))
  /\ (SFcompare f lo <> Some Lt -> SFcompare f lo <> None ->
      SFcompare f hi <> Some Gt ->
      saturated_cast' (Floating Binary32) S (Floating Binary64) ice f
      = Some (float_to_float Binary64 Binary32 f))
  /\ S_Overflow SaturationDefaultLimits (Floating Binary32) = S754_infinity false
  /\ S_Underflow SaturationDefaultLimits (Floating Binary32) = S754_infinity true
  /\ S_NaN SaturationDefaultLimits (Floating Binary32) = S754_nan.
Proof.
  intros HS hi lo.
  rewrite (saturated_cast_float _ _ _ _ _ _ (Floating Binary32) S Binary64 ice f), HS.
  assert (Hc : DstRangeRelationToSrcRange (Floating Binary32) std_numeric_limits
                 (Floating Binary64) f
               = Some (mkRangeCheck
                         (match SFcompare f lo with
                          | Some Gt | Some Eq => true | _ => false end)
                         (match SFcompare f hi with
                          | Some Lt | Some Eq => true | _ => false end))).
  { reflexivity. }
  rewrite Hc, bind_Some. clear Hc.
  assert (Ehi : hi = S754_finite false 9007198717870080 75) by reflexivity.
  assert (Elo : lo = S754_finite true 9007198717870080 75) by reflexivity.
  split; [| split; [| split; [| split]]].
  - intros H. rewrite H, Elo, (above_max_not_below_lowest f hi _ _ Ehi H).
    reflexivity.
  - intros H. rewrite H. rewrite Elo in H.
    rewrite Ehi, (below_lowest_not_above_max f _ _ H). reflexivity.
  - intros H. rewrite H.
    assert (Hl : SFcompare f lo = None).
    { rewrite Ehi in H. rewrite Elo.
      destruct f as [s | s | | s m' e']; cbn [SFcompare] in *;
        try discriminate H; try reflexivity; destruct s; discriminate H. }
    rewrite Hl. reflexivity.
  - intros H1 H2 H3.
    assert (Hn : SFcompare f hi = None -> SFcompare f lo = None).
    { rewrite Ehi, Elo. intros H.
      destruct f as [s | s | | s m' e']; cbn [SFcompare] in *;
        try discriminate H; try reflexivity; destruct s; discriminate H. }
    destruct (SFcompare f hi) as [[] |]; try congruence;
      try (specialize (Hn eq_refl); congruence);
      destruct (SFcompare f lo) as [[] |]; try congruence; reflexivity.
  - repeat split.
Qed.

End FloatNarrowing.


(* ================================================================== *)
(** ** A floating-point source: the clamped integer part *)

(** The integer part of a finite value lies on the same side of an integer
    as the value. *)
Lemma trunc_compare (s : bool) (m : positive) (e M z : Z) :
  SFtrunc (S754_finite s m e) = Some z ->
  (float_compare_int (S754_finite s m e) M = Some Gt -> M <= z)
  /\ (float_compare_int (S754_finite s m e) M = Some Lt -> z <= M)
  /\ (float_compare_int (S754_finite s m e) M <> Some Gt -> z <= M).
Proof.
  intros H. rewrite SFtrunc_finite in H.
  assert (Ez : z = cond_Zopp s (Z.shiftl (Zpos m) e)) by congruence.
  clear H. subst z. unfold float_compare_int. cbv zeta.
  assert (Hc : forall a b : Z,
             (Some (a ?= b) = Some Gt -> b < a)
             /\ (Some (a ?= b) = Some Lt -> a < b)
             /\ (Some (a ?= b) <> Some Gt -> a <= b)).
  { intros a b. destruct (Z.compare_spec a b); repeat split; intros; 
      try congruence; lia. }
  destruct e as [| p | p].
  - rewrite Z.shiftl_0_r. destruct (Hc (cond_Zopp s (Zpos m)) M) as (H1 & H2 & H3).
    repeat split; intros H; [apply H1 in H | apply H2 in H | apply H3 in H]; lia.
  - rewrite Z.shiftl_mul_pow2 by lia.
    destruct (Hc (cond_Zopp s (Zpos m) * 2 ^ Zpos p) M) as (H1 & H2 & H3).
    assert (E : cond_Zopp s (Zpos m * 2 ^ Zpos p) = cond_Zopp s (Zpos m) * 2 ^ Zpos p)
      by (destruct s; unfold cond_Zopp; lia).
    rewrite E.
    repeat split; intros H; [apply H1 in H | apply H2 in H | apply H3 in H]; lia.
  - change (Z.shiftl (Zpos m) (Zneg p)) with (Z.shiftr (Zpos m) (Zpos p)).
    rewrite Z.shiftr_div_pow2 by lia.
    destruct (Hc (cond_Zopp s (Zpos m)) (M * 2 ^ Zpos p)) as (H1 & H2 & H3).
    assert (HP : 0 < 2 ^ Zpos p) by (apply Z.pow_pos_nonneg; lia).
    set (P := 2 ^ Zpos p) in *. clearbody P.
    destruct s; unfold cond_Zopp in *.
    + repeat split; intros H; [apply H1 in H | apply H2 in H | apply H3 in H].
      * assert (Zpos m / P < - M) by (apply Z.div_lt_upper_bound; lia). lia.
      * assert (- M <= Zpos m / P) by (apply Z.div_le_lower_bound; lia). lia.
      * assert (- M <= Zpos m / P) by (apply Z.div_le_lower_bound; lia). lia.
    + repeat split; intros H; [apply H1 in H | apply H2 in H | apply H3 in H].
      * apply Z.div_le_lower_bound; lia.
      * apply Z.div_le_upper_bound; lia.
      * apply Z.div_le_upper_bound; lia.
Qed.

Section FloatClamp.
Variable IsGreaterOrEqual_Test : forall L R : NumericType, Value L -> Value R -> bool.
Variable IsLessOrEqual_Test : forall L R : NumericType, Value L -> Value R -> bool.
Variable kIsTypeInRangeForNumericType : NumericType -> NumericType -> bool.
Variable as_unsigned : IntType -> Z -> Z.
Variable SaturateFastAsmOp_is_supported : NumericType -> NumericType -> bool.
Variable SaturateFastAsmOp_Do : forall Dst Src : NumericType, Value Src -> Value Dst.

Local Abbreviation saturated_cast' :=
  (saturated_cast IsGreaterOrEqual_Test IsLessOrEqual_Test
     kIsTypeInRangeForNumericType as_unsigned
     SaturateFastAsmOp_is_supported SaturateFastAsmOp_Do).

(** X20. With the default handler, a finite floating-point value converts
    to an integer type as its integer part (the value truncated toward
    zero) clamped to the limits of the destination, for every integer
    destination, on either branch. *)
Theorem float_source_is_clamped_truncation
  (d : IntType) (k : FloatKind) (ice : bool) (f : spec_float) (z : Z) :
  has_type (Floating k) f = true ->
  SFtrunc f = Some z ->
  saturated_cast' (Integral d) SaturationDefaultLimits (Floating k) ice f
  = Some (clamp d z).
Proof.
  intros Hf Ht.
  rewrite (saturated_cast_float _ _ _ _ _ _ (Integral d) SaturationDefaultLimits k ice f).
  change (S_bounds SaturationDefaultLimits) with std_numeric_limits.
  assert (Hz : int_lowest d < int_max d /\ int_lowest d <= 0 <= int_max d)
    by (clear; destruct d as [[] []]; norm_limits; lia).
  destruct f as [s | s | | s m e]; try discriminate Ht.
  - injection Ht as <-.
    assert (Hc : DstRangeRelationToSrcRange (Integral d) std_numeric_limits
                   (Floating k) (S754_zero s) = Some (RangeCheckFlags false false))
      by (destruct d as [[] []], k, s; reflexivity).
    rewrite Hc, bind_Some.
    unfold saturated_cast_impl, IsOverflowFlagSet, IsUnderflowFlagSet.
    cbn [is_overflow_ is_underflow_ negb static_cast].
    rewrite (float_to_int_in_range d (S754_zero s) 0 eq_refl (proj2 Hz)).
    apply (f_equal (@Some Z)). unfold clamp. lia.
  - destruct (trunc_compare s m e (int_max d) z Ht) as (Hmax_gt & _ & Hmax_le).
    destruct (trunc_compare s m e (int_lowest d) z Ht) as (_ & Hlow_lt & Hlow_ge).
    destruct (trunc_compare s m e (-1) z Ht) as (_ & _ & Hm1).
    pose proof (overflow_test_exact d k s m e Hf) as Hover.
    destruct (default_handlers_int d) as (EU & EO & _).
    destruct (int_is_signed d) eqn:Hd.
    + pose proof (underflow_test_exact_signed d k s m e Hd Hf) as Hunder.
      pose proof (valid_float_converts d k (S754_finite s m e) Hf) as Hvalid.
      rewrite (classify_float_to_signed d k _ Hd) in Hvalid |- *.
      rewrite bind_Some.
      unfold saturated_cast_impl, IsOverflowFlagSet, IsUnderflowFlagSet.
      cbn [mkRangeCheck is_overflow_ is_underflow_ is_integral orb] in Hvalid |- *.
      rewrite !negb_involutive.
      destruct (op_le _ _) eqn:EU'.
      * destruct (op_ge _ _) eqn:EL'.
        -- destruct (Hvalid eq_refl) as [r Hr]. rewrite Hr.
           cbn [static_cast] in Hr. apply float_to_int_spec in Hr.
           destruct Hr as [Hr Hrange]. rewrite Ht in Hr. injection Hr as <-.
           apply (f_equal (@Some Z)). unfold clamp. lia.
        -- rewrite EU. apply proj1 in Hunder. specialize (Hunder eq_refl).
           apply Hlow_lt in Hunder.
           apply (f_equal (@Some Z)). unfold clamp. lia.
      * apply proj1 in Hover. specialize (Hover eq_refl). apply Hmax_gt in Hover.
        assert (EL' : op_ge (A:=Floating k) (B:=Integral d) (S754_finite s m e)
                        (NarrowingRange_lowest (Integral d) (Floating k)
                           std_numeric_limits) = true).
        { destruct (op_ge _ _) eqn:EL'; [reflexivity |].
          apply proj1 in Hunder. specialize (Hunder eq_refl).
          apply Hlow_lt in Hunder. lia. }
        rewrite EL'. cbn [negb]. rewrite EO.
        apply (f_equal (@Some Z)). unfold clamp. lia.
    + pose proof (underflow_test_exact_unsigned k s m e Hf) as Hunder.
      pose proof (valid_float_converts d k (S754_finite s m e) Hf) as Hvalid.
      rewrite (classify_float_to_unsigned d k _ Hd) in Hvalid |- *.
      rewrite bind_Some.
      unfold saturated_cast_impl, IsOverflowFlagSet, IsUnderflowFlagSet.
      cbn [mkRangeCheck is_overflow_ is_underflow_ is_integral orb] in Hvalid |- *.
      rewrite !negb_involutive.
      assert (Hl0 : int_lowest d = 0)
        by (clear - Hd; destruct d as [[] []]; try discriminate Hd; reflexivity).
      destruct (op_le _ _) eqn:EU'.
      * destruct (op_gt _ _) eqn:EL'.
        -- destruct (Hvalid eq_refl) as [r Hr]. rewrite Hr.
           cbn [static_cast] in Hr. apply float_to_int_spec in Hr.
           destruct Hr as [Hr Hrange]. rewrite Ht in Hr. injection Hr as <-.
           apply (f_equal (@Some Z)). unfold clamp. lia.
        -- rewrite EU.
           assert (Hn : float_compare_int (S754_finite s m e) (-1) <> Some Gt).
           { intros H. apply Hunder in H. congruence. }
           apply Hm1 in Hn.
           apply (f_equal (@Some Z)). unfold clamp. lia.
      * apply proj1 in Hover. specialize (Hover eq_refl). apply Hmax_gt in Hover.
        assert (EL' : op_gt (A:=Floating k) (B:=Floating k) (S754_finite s m e)
                        (literal (Floating k) (-1)) = true).
        { destruct (op_gt _ _) eqn:EL'; [reflexivity |].
          assert (Hn : float_compare_int (S754_finite s m e) (-1) <> Some Gt).
          { intros H. apply Hunder in H. congruence. }
          apply Hm1 in Hn. lia. }
        rewrite EL'. cbn [negb]. rewrite EO.
        apply (f_equal (@Some Z)). unfold clamp. lia.
Qed.

End FloatClamp.


Lemma float_compare_int_finite (s : bool) (m : positive) (e z : Z) :
  exists c, float_compare_int (S754_finite s m e) z = Some c.
Proof. unfold float_compare_int. destruct e; eexists; reflexivity. Qed.

Section FloatRangeTest.
Variable IsGreaterOrEqual_Test : forall L R : NumericType, Value L -> Value R -> bool.
Variable kIsTypeInRangeForNumericType : NumericType -> NumericType -> bool.
Variable as_unsigned : IntType -> Z -> Z.

(** X21. For a floating-point source and an integer destination
    [IsValueInRangeForNumericType] uses the classifier.  It returns true
    exactly when the value is at most the destination's maximum and, for a
    signed destination, at least its lowest value, for an unsigned one,
    above -1; so never for a NaN or an infinity.  When it returns true the
    conversion to the destination is defined and gives the integer part of
    the value, within the destination's limits. *)
Theorem IsValueInRangeForNumericType_float_source
  (d : IntType) (k : FloatKind) (f : spec_float) :
  has_type (Floating k) f = true ->
  exists b : bool,
    IsValueInRangeForNumericType IsGreaterOrEqual_Test
      kIsTypeInRangeForNumericType as_unsigned (Integral d) (Floating k) f = Some b
    /\ (b = true <->
        (float_compare_int f (int_max d) = Some Lt
         \/ float_compare_int f (int_max d) = Some Eq)
        /\ (if int_is_signed d
            then float_compare_int f (int_lowest d) = Some Gt
                 \/ float_compare_int f (int_lowest d) = Some Eq
            else float_compare_int f (-1) = Some Gt))
    /\ (b = true ->
        exists z, static_cast (Integral d) (Floating k) f = Some z
                  /\ SFtrunc f = Some z /\ int_lowest d <= z <= int_max d).
Proof.
  intros Hf.
  assert (Hsup : IsValueInRangeFastOp_is_supported kIsTypeInRangeForNumericType
                   (Integral d) (Floating k) = false).
  { unfold IsValueInRangeFastOp_is_supported, IsValueInRangeFastOp_signed_signed,
      IsValueInRangeFastOp_signed_unsigned.
    cbn [is_integral]. rewrite !andb_false_r. reflexivity. }
  unfold IsValueInRangeForNumericType. rewrite Hsup. clear Hsup.
  assert (Hsafe : forall c,
             DstRangeRelationToSrcRange (Integral d) std_numeric_limits (Floating k) f
             = Some c ->
             IsValid c = true ->
             exists z, static_cast (Integral d) (Floating k) f = Some z
                       /\ SFtrunc f = Some z /\ int_lowest d <= z <= int_max d).
  { intros c Hc Hv. destruct c as [[] []]; try discriminate Hv.
    destruct (valid_float_converts d k f Hf Hc) as [z Hz]. exists z.
    split; [exact Hz |]. cbn [static_cast] in Hz.
    apply float_to_int_spec in Hz. exact Hz. }
  destruct f as [s | s | | s m e].
  - eexists. split; [| split; [| apply (Hsafe (RangeCheckFlags false false))]].
    + destruct d as [[] []], k, s; reflexivity.
    + destruct d as [[] []], k, s; vm_compute; intuition congruence.
    + destruct d as [[] []], k, s; reflexivity.
  - exists false. split; [| split; [| intros H; discriminate H]].
    + destruct d as [[] []], k, s; reflexivity.
    + destruct d as [[] []], s; vm_compute; intuition congruence.
  - exists false. split; [| split; [| intros H; discriminate H]].
    + destruct d as [[] []], k; reflexivity.
    + destruct d as [[] []]; vm_compute; intuition congruence.
  - pose proof (overflow_test_exact d k s m e Hf) as Hover.
    destruct (float_compare_int_finite s m e (int_max d)) as [cmax Emax].
    destruct (int_is_signed d) eqn:Hd.
    + pose proof (underflow_test_exact_signed d k s m e Hd Hf) as Hunder.
      destruct (float_compare_int_finite s m e (int_lowest d)) as [clow Elow].
      specialize (Hsafe _ (classify_float_to_signed d k _ Hd)).
      rewrite (classify_float_to_signed d k _ Hd), bind_Some.
      eexists. split; [reflexivity |]. split; [| exact Hsafe].
      unfold IsValid. cbn [mkRangeCheck is_overflow_ is_underflow_].
      rewrite !negb_involutive, andb_true_iff.
      rewrite Emax, Elow in *.
      destruct (op_le _ _), (op_ge _ _), cmax, clow;
        intuition congruence.
    + pose proof (underflow_test_exact_unsigned k s m e Hf) as Hunder.
      specialize (Hsafe _ (classify_float_to_unsigned d k _ Hd)).
      rewrite (classify_float_to_unsigned d k _ Hd), bind_Some.
      eexists. split; [reflexivity |]. split; [| exact Hsafe].
      unfold IsValid. cbn [mkRangeCheck is_overflow_ is_underflow_].
      rewrite !negb_involutive, andb_true_iff.
      rewrite Emax in *.
      destruct (op_le _ _), (op_gt _ _), cmax;
        intuition congruence.
Qed.

End FloatRangeTest.


(* ================================================================== *)
(** * The adjusted bound of the classifier, and round trips *)

(** ** The rounded maximum *)

Section RoundedMaximum.
Variable IsGreaterOrEqual_Test : forall L R : NumericType, Value L -> Value R -> bool.
Variable IsLessOrEqual_Test : forall L R : NumericType, Value L -> Value R -> bool.
Variable kIsTypeInRangeForNumericType : NumericType -> NumericType -> bool.
Variable as_unsigned : IntType -> Z -> Z.
Variable SaturateFastAsmOp_is_supported : NumericType -> NumericType -> bool.
Variable SaturateFastAsmOp_Do : forall Dst Src : NumericType, Value Src -> Value Dst.

Local Abbreviation saturated_cast' :=
  (saturated_cast IsGreaterOrEqual_Test IsLessOrEqual_Test
     kIsTypeInRangeForNumericType as_unsigned
     SaturateFastAsmOp_is_supported SaturateFastAsmOp_Do).

(** C3. For a floating-point source and an integer destination, take the
    destination's maximum converted to the source type.  Whenever that
    value exceeds the maximum, the narrowing range has a positive shift and
    its maximum is the destination's maximum with the low [kShift] bits
    cleared, a value below the maximum that the source type represents
    exactly.  The classifier's upper test is, for every source value, the
    comparison with that adjusted bound, and it fails exactly for the
    values above the destination's maximum.  So the rounded maximum, which
    passes a comparison with the unadjusted maximum, has the overflow flag
    set (alone) and [saturated_cast] returns the handler's overflow value,
    while the adjusted bound itself is in range and is returned
    unchanged. *)
Theorem rounded_maximum_overflows
  (S : SaturationHandler) (d : IntType) (k : FloatKind) (ice : bool) :
  standard_limits S ->
  float_compare_int (int_to_float k (int_max d)) (int_max d) = Some Gt ->
  let shift : Z := kShift (Integral d) (Floating k) in
  let bound : Z := NarrowingRange_max (Integral d) (Floating k) (S_bounds S) in
  let rounded : spec_float := int_to_float k (int_max d) in
  static_cast (Floating k) (Integral d) (int_max d) = Some rounded
  /\ 0 < shift
  /\ bound = Z.ldiff (int_max d) (Z.ones shift)
  /\ bound = int_max d - (2 ^ shift - 1)
  /\ float_compare_int (int_to_float k bound) bound = Some Eq
  /\ (forall f : spec_float,
        exists lower : bool,
          DstRangeRelationToSrcRange (Integral d) (S_bounds S) (Floating k) f
          = Some (mkRangeCheck lower
                    (op_le (A:=Floating k) (B:=Integral d) f bound)))
  /\ (forall (s : bool) (m : positive) (e : Z),
        has_type (Floating k) (S754_finite s m e) = true ->
        (op_le (A:=Floating k) (B:=Integral d) (S754_finite s m e) bound = false
         <-> float_compare_int (S754_finite s m e) (int_max d) = Some Gt))
  /\ op_le (A:=Floating k) (B:=Integral d) rounded (int_max d) = true
  /\ op_le (A:=Floating k) (B:=Integral d) rounded bound = false
  /\ DstRangeRelationToSrcRange (Integral d) (S_bounds S) (Floating k) rounded
     = Some (RangeCheckFlags false true)
  /\ saturated_cast' (Integral d) S (Floating k) ice rounded
     = Some (S_Overflow S (Integral d))
  /\ saturated_cast' (Integral d) S (Floating k) ice (int_to_float k bound)
     = Some bound.
Proof.
  intros HS Hgt. cbv zeta. rewrite !saturated_cast_float, HS.
  assert (Hcls : forall f : spec_float,
             exists lower : bool,
               DstRangeRelationToSrcRange (Integral d) std_numeric_limits (Floating k) f
               = Some (mkRangeCheck lower
                         (op_le (A:=Floating k) (B:=Integral d) f
                            (NarrowingRange_max (Integral d) (Floating k)
                               std_numeric_limits)))).
  { intros f. destruct (int_is_signed d) eqn:Hd; eexists.
    - apply (classify_float_to_signed d k f Hd).
    - apply (classify_float_to_unsigned d k f Hd). }
  pose proof (overflow_test_exact d k) as Hexact.
  destruct d as [[] []], k; vm_compute in Hgt; try discriminate Hgt; clear Hgt.
  all: split; [reflexivity |]; split; [reflexivity |]; split; [reflexivity |];
    split; [reflexivity |]; split; [reflexivity |]; split; [exact Hcls |];
    split; [exact Hexact |]; split; [reflexivity |]; split; [reflexivity |].
  all: repeat match goal with
       | |- context [DstRangeRelationToSrcRange ?D ?B ?T ?x] =>
           let r := eval vm_compute in (DstRangeRelationToSrcRange D B T x) in
           change (DstRangeRelationToSrcRange D B T x) with r
       end.
  all: split; [reflexivity |]; split; [reflexivity |].
  all: rewrite bind_Some; vm_compute; reflexivity.
Qed.

End RoundedMaximum.

(** The maximum of [uint32_t] rounds up to 2^32 as a [float]. *)
Lemma rounded_maximum_overflows_witness :
  standard_limits SaturationDefaultLimits
  /\ float_compare_int (int_to_float Binary32 (int_max UInt32)) (int_max UInt32) = Some Gt
  /\ NarrowingRange_max (Integral UInt32) (Floating Binary32)
       (S_bounds SaturationDefaultLimits)
     = Z.ldiff (int_max UInt32) (Z.ones (kShift (Integral UInt32) (Floating Binary32)))
  /\ Portable.saturated_cast (Integral UInt32) SaturationDefaultLimits
       (Floating Binary32) false (int_to_float Binary32 (int_max UInt32))
     = Some (S_Overflow SaturationDefaultLimits (Integral UInt32)).
Proof.
  split; [reflexivity |]. split; [reflexivity |].
  pose proof (rounded_maximum_overflows
                Portable.IsGreaterOrEqual_Test Portable.IsLessOrEqual_Test
                Portable.kIsTypeInRangeForNumericType Portable.as_unsigned
                Portable.SaturateFastAsmOp_is_supported Portable.SaturateFastAsmOp_Do
                SaturationDefaultLimits UInt32 Binary32 false eq_refl eq_refl) as H.
  cbv zeta in H.
  destruct H as (_ & _ & Hbound & _ & _ & _ & _ & _ & _ & _ & Hcast & _).
  split; [exact Hbound | exact Hcast].
Defined.

(* ================================================================== *)
(** ** Rounding of exactly representable values *)

(** The iteration of the rounding functions is the standard one. *)
Lemma iter_pos_eq (A : Type) (f : A -> A) (n : positive) (x : A) :
  iter_pos f n x = Pos.iter f x n.
Proof.
  revert x. induction n as [n IH | n IH |]; intros x; cbn [iter_pos Pos.iter].
  - rewrite !IH, !Pos.iter_swap. reflexivity.
  - rewrite !IH. reflexivity.
  - reflexivity.
Qed.

Lemma iter_xO_value (m d : positive) :
  Zpos (Pos.iter xO m d) = Zpos m * 2 ^ Zpos d.
Proof.
  induction d as [| d IH] using Pos.peano_ind.
  - cbn [Pos.iter]. lia.
  - rewrite Pos.iter_succ, Pos2Z.inj_succ, Z.pow_succ_r by lia.
    rewrite Pos2Z.inj_xO, IH. lia.
Qed.

Lemma iter_xO_digits (m d : positive) :
  Zpos (digits2_pos (Pos.iter xO m d)) = Zpos (digits2_pos m) + Zpos d.
Proof.
  induction d as [| d IH] using Pos.peano_ind.
  - cbn [Pos.iter digits2_pos]. lia.
  - rewrite Pos.iter_succ. cbn [digits2_pos]. rewrite Pos2Z.inj_succ, IH. lia.
Qed.

(** Shifting out bits that are zero is exact. *)
Lemma iter_shr_exact (m d : positive) :
  iter_pos shr_1 d
    {| shr_m := Zpos (Pos.iter xO m d); shr_r := false; shr_s := false |}
  = {| shr_m := Zpos m; shr_r := false; shr_s := false |}.
Proof.
  rewrite iter_pos_eq.
  induction d as [| d IH] using Pos.peano_ind.
  - reflexivity.
  - rewrite (Pos.iter_succ d _ xO), (Pos.iter_succ_r d _ shr_1).
    exact IH.
Qed.

(** A positive number that is another one shifted. *)
Lemma shifted_mantissa (m m' : positive) (n : Z) :
  0 < n -> Zpos m = Zpos m' * 2 ^ n -> m = Pos.iter xO m' (Z.to_pos n).
Proof.
  intros Hn H. apply Pos2Z.inj. rewrite iter_xO_value, Z2Pos.id by exact Hn.
  exact H.
Qed.

Section ExactRounding.
Variables prec emax : Z.

(** A mantissa that is already in place, or has only zeros to shift out,
    is not rounded. *)
Lemma binary_round_aux_exact (s : bool) (m : positive) (e : Z) (m' : positive) (e' : Z) :
  bounded prec emax m' e' = true ->
  (e = e' /\ m = m') \/ (e < e' /\ m = Pos.iter xO m' (Z.to_pos (e' - e))) ->
  binary_round_aux prec emax s (Zpos m) e loc_Exact = S754_finite s m' e'.
Proof.
  intros Hb Hm. unfold bounded, canonical_mantissa in Hb.
  apply andb_true_iff in Hb. destruct Hb as [Hc Hle].
  apply Z.eqb_eq in Hc.
  assert (Hstay : shr_fexp prec emax (Zpos m') e' loc_Exact
                  = ({| shr_m := Zpos m'; shr_r := false; shr_s := false |}, e')).
  { unfold shr_fexp, shr_record_of_loc. cbn [Zdigits2].
    rewrite Hc, Z.sub_diag. reflexivity. }
  assert (Hfirst : shr_fexp prec emax (Zpos m) e loc_Exact
                   = ({| shr_m := Zpos m'; shr_r := false; shr_s := false |}, e')).
  { destruct Hm as [[-> ->] | [Hlt ->]]; [exact Hstay |].
    unfold shr_fexp, shr_record_of_loc. cbn [Zdigits2].
    rewrite iter_xO_digits, Z2Pos.id by lia.
    replace (Zpos (digits2_pos m') + (e' - e) + e)
      with (Zpos (digits2_pos m') + e') by lia.
    rewrite Hc.
    assert (Hd : e' - e = Zpos (Z.to_pos (e' - e))) by (rewrite Z2Pos.id; lia).
    rewrite Hd at 2. unfold shr. rewrite iter_shr_exact.
    f_equal. lia. }
  unfold binary_round_aux. rewrite Hfirst.
  cbn [shr_m loc_of_shr_record round_nearest_even].
  rewrite Hstay. cbn [shr_m]. rewrite Hle. reflexivity.
Qed.

(** Rounding a value that the format represents gives its canonical
    representation. *)
Lemma binary_round_exact (s : bool) (m : positive) (e : Z) (m' : positive) (e' : Z) :
  bounded prec emax m' e' = true ->
  (e' <= e /\ Zpos m' = Zpos m * 2 ^ (e - e'))
  \/ (e <= e' /\ Zpos m = Zpos m' * 2 ^ (e' - e)) ->
  binary_round prec emax s m e = S754_finite s m' e'.
Proof.
  intros Hb Hv.
  assert (Hcases : (e = e' /\ m = m')
                   \/ (e' < e /\ m' = Pos.iter xO m (Z.to_pos (e - e')))
                   \/ (e < e' /\ m = Pos.iter xO m' (Z.to_pos (e' - e)))).
  { destruct (Z.lt_trichotomy e e') as [Hlt | [Heq | Hgt]].
    - right; right. split; [exact Hlt |].
      destruct Hv as [[H _] | [_ H]]; [lia |].
      apply shifted_mantissa; [lia | exact H].
    - left. split; [exact Heq |]. subst e'.
      rewrite Z.sub_diag, Z.pow_0_r in Hv. destruct Hv as [[_ H] | [_ H]]; lia.
    - right; left. split; [exact Hgt |].
      destruct Hv as [[_ H] | [H _]]; [| lia].
      apply shifted_mantissa; [lia | exact H]. }
  clear Hv.
  assert (Hpos : bounded prec emax m' e' = true) by exact Hb.
  unfold bounded, canonical_mantissa in Hb.
  apply andb_true_iff in Hb. destruct Hb as [Hc _]. apply Z.eqb_eq in Hc.
  assert (HD : Zpos (digits2_pos m) + e = Zpos (digits2_pos m') + e').
  { destruct Hcases as [[-> ->] | [[Hlt ->] | [Hlt ->]]]; [reflexivity | |];
      rewrite iter_xO_digits, Z2Pos.id by lia; lia. }
  unfold binary_round. rewrite HD, Hc. unfold shl_align.
  destruct Hcases as [[-> ->] | [[Hlt ->] | [Hlt Hm]]].
  - rewrite Z.sub_diag. apply binary_round_aux_exact; [exact Hpos |].
    left. split; reflexivity.
  - assert (Hd : e' - e = Zneg (Z.to_pos (e - e'))).
    { rewrite <- Pos2Z.opp_pos, Z2Pos.id by lia. lia. }
    rewrite Hd. apply binary_round_aux_exact; [exact Hpos |].
    left. split; reflexivity.
  - assert (Hd : e' - e = Zpos (Z.to_pos (e' - e))) by (rewrite Z2Pos.id; lia).
    rewrite Hd. apply binary_round_aux_exact; [exact Hpos |].
    right. split; [exact Hlt | exact Hm].
Qed.

End ExactRounding.

(** ** Conversions of exactly representable values *)

Lemma compare_eq_inv (a b : Z) : Some (a ?= b) = Some Eq -> a = b.
Proof. intros H. apply Z.compare_eq. congruence. Qed.

(** A datum that denotes an integer has that integer as its integer
    part. *)
Lemma trunc_exact (f : spec_float) (z : Z) :
  float_compare_int f z = Some Eq -> SFtrunc f = Some z.
Proof.
  destruct f as [s | s | | s m e]; unfold float_compare_int.
  - intros H. apply compare_eq_inv in H. subst z. reflexivity.
  - destruct s; discriminate.
  - discriminate.
  - cbv zeta. rewrite SFtrunc_finite. intros H. f_equal.
    destruct e as [| p | p]; apply compare_eq_inv in H.
    + rewrite Z.shiftl_0_r. exact H.
    + rewrite Z.shiftl_mul_pow2 by lia. subst z.
      destruct s; unfold cond_Zopp; lia.
    + change (Z.shiftl (Zpos m) (Zneg p)) with (Z.shiftr (Zpos m) (Zpos p)).
      rewrite Z.shiftr_div_pow2 by lia.
      assert (HP : 0 < 2 ^ Zpos p) by (apply Z.pow_pos_nonneg; lia).
      destruct s; unfold cond_Zopp in *.
      * replace (Zpos m) with (- z * 2 ^ Zpos p) by lia.
        rewrite Z.div_mul by lia. lia.
      * rewrite H, Z.div_mul by lia. reflexivity.
Qed.

(** An integer that a datum of the format denotes converts to that
    datum. *)
Lemma int_to_float_exact (k : FloatKind) (s : bool) (m : positive) (e z : Z) :
  has_type (Floating k) (S754_finite s m e) = true ->
  float_compare_int (S754_finite s m e) z = Some Eq ->
  int_to_float k z = S754_finite s m e.
Proof.
  cbn [has_type valid_binary]. intros Hb H.
  unfold float_compare_int in H. cbv zeta in H.
  assert (Hz : exists M : positive,
             z = cond_Zopp s (Zpos M)
             /\ ((e <= 0 /\ Zpos m = Zpos M * 2 ^ (0 - e))
                 \/ (0 <= e /\ Zpos M = Zpos m * 2 ^ (e - 0)))).
  { destruct e as [| p | p]; apply compare_eq_inv in H.
    - exists m. split; [symmetry; exact H |]. left. split; [lia |].
      rewrite Z.pow_0_r. lia.
    - exists (Pos.iter xO m p). rewrite iter_xO_value. split.
      + subst z. destruct s; unfold cond_Zopp; lia.
      + right. split; [lia |]. rewrite Z.sub_0_r. reflexivity.
    - assert (HP : 0 < 2 ^ Zpos p) by (apply Z.pow_pos_nonneg; lia).
      destruct z as [| M | M].
      + exfalso. destruct s; unfold cond_Zopp in H; lia.
      + destruct s; unfold cond_Zopp in H; [exfalso; lia |].
        exists M. split; [reflexivity |]. left. split; [lia |].
        replace (0 - Zneg p) with (Zpos p) by lia. exact H.
      + destruct s; unfold cond_Zopp in H; [| exfalso; lia].
        exists M. split; [reflexivity |]. left. split; [lia |].
        replace (0 - Zneg p) with (Zpos p) by lia. lia. }
  destruct Hz as (M & -> & Hv).
  unfold int_to_float.
  destruct s; unfold cond_Zopp; cbn [Z.opp binary_normalize];
    apply binary_round_exact; assumption.
Qed.

(** The order of a datum that denotes [z] against another integer. *)
Lemma float_compare_int_of_exact (s : bool) (m : positive) (e z M : Z) :
  float_compare_int (S754_finite s m e) z = Some Eq ->
  float_compare_int (S754_finite s m e) M = Some (z ?= M).
Proof.
  set (N := Z.max 0 (- e)).
  assert (HN : 0 <= N /\ 0 <= e + N) by (unfold N; lia).
  rewrite !(float_compare_int_scaled s m e _ N (proj1 HN) (proj2 HN)).
  intros H. apply compare_eq_inv in H. rewrite H.
  f_equal. apply mul_compare_r. apply Z.pow_pos_nonneg; lia.
Qed.

(** A value that denotes an integer within the destination's limits is
    classified as valid. *)
Lemma classify_exact_float (d : IntType) (k : FloatKind) (f : spec_float) (z : Z) :
  has_type (Floating k) f = true ->
  float_compare_int f z = Some Eq ->
  int_lowest d <= z <= int_max d ->
  DstRangeRelationToSrcRange (Integral d) std_numeric_limits (Floating k) f
  = Some (RangeCheckFlags false false).
Proof.
  intros Hf Hz Hr.
  destruct f as [s | s | | s m e].
  - destruct d as [[] []], k, s; reflexivity.
  - destruct s; discriminate Hz.
  - discriminate Hz.
  - pose proof (float_compare_int_of_exact s m e z) as Hcmp.
    pose proof (overflow_test_exact d k s m e Hf) as Hover.
    rewrite (Hcmp (int_max d) Hz) in Hover.
    assert (Hup : op_le (A:=Floating k) (B:=Integral d) (S754_finite s m e)
                    (NarrowingRange_max (Integral d) (Floating k) std_numeric_limits)
                  = true).
    { destruct (op_le _ _); [reflexivity |].
      apply proj1 in Hover. specialize (Hover eq_refl).
      assert (int_max d < z) by (apply Z.compare_gt_iff; congruence). lia. }
    destruct (int_is_signed d) eqn:Hd.
    + rewrite (classify_float_to_signed d k _ Hd), Hup.
      pose proof (underflow_test_exact_signed d k s m e Hd Hf) as Hunder.
      rewrite (Hcmp (int_lowest d) Hz) in Hunder.
      destruct (op_ge _ _); [reflexivity |].
      apply proj1 in Hunder. specialize (Hunder eq_refl).
      assert (z < int_lowest d) by (apply Z.compare_lt_iff; congruence). lia.
    + rewrite (classify_float_to_unsigned d k _ Hd), Hup.
      pose proof (underflow_test_exact_unsigned k s m e Hf) as Hunder.
      rewrite (Hcmp (-1) Hz) in Hunder.
      assert (Hl0 : int_lowest d = 0)
        by (clear - Hd; destruct d as [[] []]; try discriminate Hd; reflexivity).
      assert (Hg : Some (z ?= -1) = Some Gt)
        by (f_equal; apply Z.compare_gt_iff; lia).
      apply Hunder in Hg. rewrite Hg. reflexivity.
Qed.

(** Rounding a datum to a format that has a datum for the same number
    gives that datum. *)
Lemma binary_round_same_float
  (prec emax : Z) (s s' : bool) (m m' : positive) (e e' : Z) :
  bounded prec emax m' e' = true ->
  same_float (S754_finite s' m' e') (S754_finite s m e) = true ->
  binary_round prec emax s m e = S754_finite s' m' e'.
Proof.
  intros Hb H. cbn [same_float] in H.
  apply andb_true_iff in H. destruct H as [Hs Hv].
  apply Bool.eqb_prop in Hs. subst s'. apply Z.eqb_eq in Hv.
  apply binary_round_exact; [exact Hb |].
  destruct (Z.le_ge_cases e' e) as [Hle | Hle].
  - left. split; [exact Hle |].
    rewrite Z.min_l, Z.sub_diag, Z.pow_0_r in Hv by exact Hle. lia.
  - right. split; [exact Hle |].
    rewrite Z.min_r, Z.sub_diag, Z.pow_0_r in Hv by exact Hle. lia.
Qed.

Lemma same_float_sym (r v : spec_float) : same_float r v = same_float v r.
Proof.
  destruct r as [s1 | s1 | | s1 m1 e1], v as [s2 | s2 | | s2 m2 e2];
    cbn [same_float]; try reflexivity.
  - destruct s1, s2; reflexivity.
  - rewrite (Z.min_comm e1 e2), (Z.eqb_sym (Zpos m1 * _)).
    destruct s1, s2; reflexivity.
Qed.

Lemma same_float_refl (s : bool) (m : positive) (e : Z) :
  same_float (S754_finite s m e) (S754_finite s m e) = true.
Proof.
  cbn [same_float]. rewrite Z.eqb_refl. destruct s; reflexivity.
Qed.

(** Conversion between formats of a value that the target format has a
    datum for. *)
Lemma float_to_float_exact (from to : FloatKind) (r v : spec_float) :
  has_type (Floating from) v = true ->
  has_type (Floating to) r = true ->
  same_float r v = true ->
  float_to_float from to v = r.
Proof.
  intros Hv Hr H.
  destruct v as [s | s | | s m e], r as [s' | s' | | s' m' e'];
    cbn [same_float] in H; try discriminate H.
  - apply Bool.eqb_prop in H. subst s'. destruct from, to; reflexivity.
  - cbn [has_type valid_binary] in Hv, Hr.
    assert (E : binary_round (prec to) (emax to) s m e = S754_finite s' m' e')
      by (apply binary_round_same_float; assumption).
    destruct from, to; cbn [float_to_float]; try exact E.
    + rewrite <- E. symmetry.
      apply binary_round_same_float; [exact Hv | apply same_float_refl].
    + rewrite <- E. symmetry.
      apply binary_round_same_float; [exact Hv | apply same_float_refl].
Qed.

Lemma same_float_cases (s s' : bool) (m m' : positive) (e e' : Z) :
  same_float (S754_finite s' m' e') (S754_finite s m e) = true ->
  s' = s
  /\ ((e' <= e /\ Zpos m' = Zpos m * 2 ^ (e - e'))
      \/ (e <= e' /\ Zpos m = Zpos m' * 2 ^ (e' - e))).
Proof.
  intros H. cbn [same_float] in H.
  apply andb_true_iff in H. destruct H as [Hs Hv].
  apply Bool.eqb_prop in Hs. apply Z.eqb_eq in Hv. split; [exact Hs |].
  destruct (Z.le_ge_cases e' e) as [Hle | Hle].
  - left. split; [exact Hle |].
    rewrite Z.min_l, Z.sub_diag, Z.pow_0_r in Hv by exact Hle. lia.
  - right. split; [exact Hle |].
    rewrite Z.min_r, Z.sub_diag, Z.pow_0_r in Hv by exact Hle. lia.
Qed.

(** Two mantissas of the same number end at the same binary position. *)
Lemma same_value_digits (m m' : positive) (e e' : Z) :
  (e' <= e /\ Zpos m' = Zpos m * 2 ^ (e - e'))
  \/ (e <= e' /\ Zpos m = Zpos m' * 2 ^ (e' - e)) ->
  Zpos (digits2_pos m) + e = Zpos (digits2_pos m') + e'.
Proof.
  intros [[Hle H] | [Hle H]].
  - destruct (Z.eq_dec e e') as [-> | Hne].
    + rewrite Z.sub_diag, Z.pow_0_r in H.
      assert (m' = m) by lia. subst m'. reflexivity.
    + rewrite (shifted_mantissa m' m (e - e')) by (lia || exact H).
      rewrite iter_xO_digits, Z2Pos.id by lia. lia.
  - destruct (Z.eq_dec e e') as [-> | Hne].
    + rewrite Z.sub_diag, Z.pow_0_r in H.
      assert (m = m') by lia. subst m'. reflexivity.
    + rewrite (shifted_mantissa m m' (e' - e)) by (lia || exact H).
      rewrite iter_xO_digits, Z2Pos.id by lia. lia.
Qed.

(** Every finite [float] has a [double] for the same number. *)
Lemma widen_target (s : bool) (m : positive) (e : Z) :
  bounded 24 128 m e = true ->
  exists (m' : positive) (e' : Z),
    bounded 53 1024 m' e' = true
    /\ same_float (S754_finite s m' e') (S754_finite s m e) = true.
Proof.
  intros Hb. unfold bounded, canonical_mantissa in Hb.
  apply andb_true_iff in Hb. destruct Hb as [Hc Hle].
  apply Z.eqb_eq in Hc. apply Z.leb_le in Hle.
  set (D := Zpos (digits2_pos m) + e) in *.
  set (e' := fexp 53 1024 D).
  assert (He : e' < e) by (unfold e', fexp, emin in *; lia).
  exists (Pos.iter xO m (Z.to_pos (e - e'))), e'. split.
  - unfold bounded, canonical_mantissa.
    rewrite iter_xO_digits, Z2Pos.id by lia.
    replace (Zpos (digits2_pos m) + (e - e') + e') with D by (unfold D; lia).
    fold e'. rewrite Z.eqb_refl. cbn [andb]. apply Z.leb_le. lia.
  - cbn [same_float]. rewrite iter_xO_value, Z2Pos.id by lia.
    rewrite Z.min_l, Z.sub_diag, Z.pow_0_r by lia.
    rewrite Bool.eqb_reflx. cbn [andb]. apply Z.eqb_eq. lia.
Qed.

(** Every integer of fewer bits than the mantissa has a datum. *)
Lemma small_int_target (k : FloatKind) (v : Z) :
  v <> 0 -> Z.abs v < 2 ^ prec k ->
  exists (m : positive) (e : Z),
    has_type (Floating k) (S754_finite (v <? 0) m e) = true
    /\ float_compare_int (S754_finite (v <? 0) m e) v = Some Eq.
Proof.
  intros Hv0 Hv.
  set (M := Z.to_pos (Z.abs v)).
  assert (HM : Zpos M = Z.abs v) by (unfold M; rewrite Z2Pos.id; lia).
  pose proof (digits2_pos_lower M) as Hlow.
  assert (Hdg : Zpos (digits2_pos M) <= prec k).
  { destruct (Z.le_gt_cases (Zpos (digits2_pos M)) (prec k)) as [H | H]; [exact H |].
    exfalso.
    assert (2 ^ prec k <= 2 ^ (Zpos (digits2_pos M) - 1))
      by (apply Z.pow_le_mono_r; lia).
    lia. }
  assert (Hsign : cond_Zopp (v <? 0) (Z.abs v) = v)
    by (destruct (v <? 0) eqn:E; unfold cond_Zopp; lia).
  destruct (Z.eq_dec (Zpos (digits2_pos M)) (prec k)) as [Heq | Hne].
  - exists M, 0. split.
    + cbn [has_type valid_binary]. unfold bounded, canonical_mantissa, fexp, emin.
      rewrite Z.add_0_r, Heq.
      destruct k; cbv [prec emax]; reflexivity.
    + unfold float_compare_int. cbv zeta. rewrite HM, Hsign, Z.compare_refl.
      reflexivity.
  - set (p := Z.to_pos (prec k - Zpos (digits2_pos M))).
    assert (Hp : Zpos p = prec k - Zpos (digits2_pos M))
      by (unfold p; rewrite Z2Pos.id; lia).
    exists (Pos.iter xO M p), (Zneg p). split.
    + cbn [has_type valid_binary]. unfold bounded, canonical_mantissa, fexp, emin.
      rewrite iter_xO_digits.
      replace (Zpos (digits2_pos M) + Zpos p + Zneg p) with (Zpos (digits2_pos M))
        by lia.
      apply andb_true_iff. split; [apply Z.eqb_eq | apply Z.leb_le];
        destruct k; cbv [prec emax] in *; lia.
    + unfold float_compare_int. cbv zeta. rewrite iter_xO_value, HM.
      f_equal. apply Z.compare_eq_iff.
      destruct (v <? 0) eqn:E; unfold cond_Zopp; lia.
Qed.

Lemma compare_cont_Z (p q : positive) :
  Pos.compare_cont Eq p q = (Zpos p ?= Zpos q).
Proof. reflexivity. Qed.

(** A [double] that a [float] represents is within the range of [float]. *)
Lemma classify_narrowing_exact (r v : spec_float) :
  has_type (Floating Binary64) v = true ->
  has_type (Floating Binary32) r = true ->
  same_float r v = true ->
  DstRangeRelationToSrcRange (Floating Binary32) std_numeric_limits
    (Floating Binary64) v
  = Some (RangeCheckFlags false false).
Proof.
  intros Hv Hr H.
  assert (Hc : DstRangeRelationToSrcRange (Floating Binary32) std_numeric_limits
                 (Floating Binary64) v
               = Some (mkRangeCheck
                         (match SFcompare v (S754_finite true 9007198717870080 75) with
                          | Some Gt | Some Eq => true | _ => false end)
                         (match SFcompare v (S754_finite false 9007198717870080 75) with
                          | Some Lt | Some Eq => true | _ => false end)))
    by reflexivity.
  rewrite Hc. clear Hc.
  destruct v as [s | s | | s m e], r as [s' | s' | | s' m' e'];
    cbn [same_float] in H; try discriminate H.
  - reflexivity.
  - destruct (same_float_cases _ _ _ _ _ _ H) as [_ Hval].
    pose proof (same_value_digits _ _ _ _ Hval) as HD.
    pose proof (digits2_pos_bound m') as Hm'.
    cbn [has_type valid_binary] in Hv, Hr. unfold bounded, canonical_mantissa in Hv, Hr.
    apply andb_true_iff in Hv, Hr. destruct Hv as [Hcv _], Hr as [Hcr Hler].
    apply Z.eqb_eq in Hcv, Hcr. apply Z.leb_le in Hler.
    unfold fexp, emin in Hcv, Hcr. cbv [prec emax] in Hcv, Hcr, Hler.
    assert (He : e <= 75) by (clear - Hcv Hcr Hler HD; lia).
    assert (Hm : e = 75 -> Zpos m <= 9007198717870080).
    { intros ->.
      assert (Her : e' = 104) by (clear - Hcv Hcr Hler HD; lia).
      assert (Hdg : Zpos (digits2_pos m') = 24) by (clear - Hcv Hcr Hler HD Her; lia).
      rewrite Hdg in Hm'. subst e'.
      destruct Hval as [[Hle _] | [_ Hval]]; [exfalso; clear - Hle; lia |].
      change (104 - 75) with 29 in Hval. rewrite Hval.
      change (2 ^ 29) with 536870912. change (2 ^ 24) with 16777216 in Hm'.
      clear - Hm'. lia. }
    clear - He Hm. cbn [SFcompare].
    rewrite !compare_cont_Z.
    destruct (Z.compare_spec e 75) as [E | E | E]; [| | exfalso; lia].
    + specialize (Hm E).
      destruct (Z.compare_spec (Zpos m) 9007198717870080) as [E' | E' | E'];
        [| | exfalso; lia]; destruct s; reflexivity.
    + destruct s; reflexivity.
Qed.

Lemma represents_float_int (r : spec_float) (v : Z) :
  match r with
  | S754_zero true => false
  | _ => match float_compare_int r v with Some Eq => true | _ => false end
  end = true ->
  float_compare_int r v = Some Eq /\ r <> S754_zero true.
Proof.
  intros H. split.
  - destruct r as [[] | | |]; try discriminate H;
      destruct (float_compare_int _ v) as [[] |]; try discriminate H; reflexivity.
  - intros ->. discriminate H.
Qed.

Lemma int_to_float_represented (k : FloatKind) (r : spec_float) (v : Z) :
  has_type (Floating k) r = true ->
  float_compare_int r v = Some Eq -> r <> S754_zero true ->
  int_to_float k v = r.
Proof.
  intros Hr Hc Hz. destruct r as [s | s | | s m e].
  - unfold float_compare_int in Hc. apply compare_eq_inv in Hc. subst v.
    destruct s; [contradiction |]. destruct k; reflexivity.
  - destruct s; discriminate Hc.
  - discriminate Hc.
  - apply int_to_float_exact; assumption.
Qed.

Section RoundTrip.
Variable IsGreaterOrEqual_Test : forall L R : NumericType, Value L -> Value R -> bool.
Variable IsLessOrEqual_Test : forall L R : NumericType, Value L -> Value R -> bool.
Variable kIsTypeInRangeForNumericType : NumericType -> NumericType -> bool.
Variable as_unsigned : IntType -> Z -> Z.
Variable SaturateFastAsmOp_is_supported : NumericType -> NumericType -> bool.
Variable SaturateFastAsmOp_Do : forall Dst Src : NumericType, Value Src -> Value Dst.

Hypothesis IsGreaterOrEqual_int :
  forall (L R : IntType) (x y : Z),
    IsGreaterOrEqual_Test (Integral L) (Integral R) x y = (y <=? x).
Hypothesis IsLessOrEqual_int :
  forall (L R : IntType) (x y : Z),
    IsLessOrEqual_Test (Integral L) (Integral R) x y = (x <=? y).
Hypothesis as_unsigned_int :
  forall (T : IntType) (z : Z), as_unsigned T z = wrap (make_unsigned T) z.

Local Abbreviation saturated_cast' :=
  (saturated_cast IsGreaterOrEqual_Test IsLessOrEqual_Test
     kIsTypeInRangeForNumericType as_unsigned
     SaturateFastAsmOp_is_supported SaturateFastAsmOp_Do).

(** An integer source and a floating-point destination: the conversion. *)
Lemma saturated_cast_to_float
  (S : SaturationHandler) (k : FloatKind) (s : IntType) (ice : bool) (v : Z) :
  standard_limits S ->
  saturated_cast' (Floating k) S (Integral s) ice v = Some (int_to_float k v).
Proof.
  intros HS. unfold saturated_cast, SaturateFastOp_is_supported.
  cbn [is_integral andb]. rewrite andb_false_r. cbn [andb].
  rewrite HS, classify_int_to_float. reflexivity.
Qed.

(** A floating-point source whose check is valid: the conversion. *)
Lemma saturated_cast_valid_float
  (S : SaturationHandler) (Dst : NumericType) (k : FloatKind) (ice : bool)
  (f : spec_float) :
  standard_limits S ->
  DstRangeRelationToSrcRange Dst std_numeric_limits (Floating k) f
  = Some (RangeCheckFlags false false) ->
  saturated_cast' Dst S (Floating k) ice f = static_cast Dst (Floating k) f.
Proof.
  intros HS Hc. rewrite saturated_cast_float, HS, Hc. reflexivity.
Qed.

(** Conversion to a format at least as wide, and back. *)
Lemma widen_and_back (kd ks : FloatKind) (v : spec_float) :
  emax ks <= emax kd ->
  has_type (Floating ks) v = true ->
  float_to_float kd ks (float_to_float ks kd v) = v.
Proof.
  intros Hk Hv. destruct kd, ks; cbv [emax] in Hk; try lia; try reflexivity.
  destruct v as [s | s | | s m e]; try reflexivity.
  cbn [has_type valid_binary] in Hv.
  destruct (widen_target s m e Hv) as (m' & e' & Hb & Hsame).
  rewrite (float_to_float_exact Binary32 Binary64 (S754_finite s m' e')
             (S754_finite s m e) Hv Hb Hsame).
  apply float_to_float_exact; [exact Hb | exact Hv |].
  rewrite same_float_sym. exact Hsame.
Qed.

(** C4, amended.  The cast round-trips on the values that the destination
    represents exactly.  If a value [r] of the destination type denotes the
    same number as the source value [v], then [saturated_cast] returns
    [r], whatever the handler and on either branch, and converting [r]
    back to the source type gives [v] (a zero that went through an integer
    type comes back as the positive zero).  That is the case of every
    in-range value between integer types and of every floating-point value
    without a fractional part within an integer destination's limits.
    Every value of a floating-point type, the infinities and the NaN
    included, survives the conversion to a format at least as wide and
    back, and so does every integer of fewer bits than the mantissa of a
    floating-point destination. *)
Theorem saturated_cast_round_trip :
  (forall (S : SaturationHandler) (Dst Src : NumericType) (ice : bool)
          (v : Value Src) (r : Value Dst),
      SaturateFastAsmOp_is_supported Dst Src = false ->
      standard_limits S ->
      has_type Src v = true ->
      has_type Dst r = true ->
      represents Dst Src r v = true ->
      saturated_cast' Dst S Src ice v = Some r
      /\ static_cast Src Dst r = Some (round_trip_value Dst Src v))
  /\ (forall (S : SaturationHandler) (d s : IntType) (ice : bool) (v : Z),
        SaturateFastAsmOp_is_supported (Integral d) (Integral s) = false ->
        standard_limits S ->
        has_type (Integral s) v = true ->
        int_lowest d <= v <= int_max d ->
        saturated_cast' (Integral d) S (Integral s) ice v = Some v
        /\ static_cast (Integral s) (Integral d) v = Some v)
  /\ (forall (S : SaturationHandler) (kd ks : FloatKind) (ice : bool)
             (v : spec_float),
        standard_limits S ->
        emax ks <= emax kd ->
        has_type (Floating ks) v = true ->
        exists r : spec_float,
          saturated_cast' (Floating kd) S (Floating ks) ice v = Some r
          /\ static_cast (Floating ks) (Floating kd) r = Some v)
  /\ (forall (S : SaturationHandler) (k : FloatKind) (s : IntType) (ice : bool)
             (v : Z),
        standard_limits S ->
        has_type (Integral s) v = true ->
        Z.abs v < 2 ^ prec k ->
        exists r : spec_float,
          saturated_cast' (Floating k) S (Integral s) ice v = Some r
          /\ static_cast (Integral s) (Floating k) r = Some v).
Proof.
  pose proof (round_trip_int IsGreaterOrEqual_Test IsLessOrEqual_Test
                kIsTypeInRangeForNumericType as_unsigned
                SaturateFastAsmOp_is_supported SaturateFastAsmOp_Do
                IsGreaterOrEqual_int IsLessOrEqual_int as_unsigned_int) as Hint.
  split; [| split; [exact Hint | split]].
  - intros S Dst Src ice v r Hasm HS Hv Hr Hrep.
    destruct Dst as [d | kd], Src as [s | ks]; cbn [represents round_trip_value] in *.
    + apply Z.eqb_eq in Hrep. subst r.
      apply Hint; [exact Hasm | exact HS | exact Hv |].
      unfold has_type in Hr. lia.
    + assert (Hc : float_compare_int v r = Some Eq)
        by (destruct (float_compare_int v r) as [[] |]; try discriminate Hrep;
            reflexivity).
      assert (Hrange : int_lowest d <= r <= int_max d)
        by (unfold has_type in Hr; lia).
      split.
      * rewrite (saturated_cast_valid_float S (Integral d) ks ice v HS
                   (classify_exact_float d ks v r Hv Hc Hrange)).
        cbn [static_cast].
        apply (float_to_int_in_range d v r (trunc_exact v r Hc) Hrange).
      * cbn [static_cast]. apply (f_equal (@Some spec_float)).
        destruct v as [sv | sv | | sv m e].
        -- unfold float_compare_int in Hc. apply compare_eq_inv in Hc. subst r.
           destruct ks; reflexivity.
        -- destruct sv; discriminate Hc.
        -- discriminate Hc.
        -- exact (int_to_float_exact ks sv m e r Hv Hc).
    + destruct (represents_float_int r v Hrep) as [Hc Hz].
      rewrite (saturated_cast_to_float S kd s ice v HS).
      rewrite (int_to_float_represented kd r v Hr Hc Hz).
      split; [reflexivity |].
      cbn [static_cast].
      apply (float_to_int_in_range s r v (trunc_exact r v Hc)).
      unfold has_type in Hv. lia.
    + assert (Hvalid : DstRangeRelationToSrcRange (Floating kd) std_numeric_limits
                         (Floating ks) v = Some (RangeCheckFlags false false)).
      { destruct kd, ks.
        - apply classify_widening_float. reflexivity.
        - apply (classify_narrowing_exact r v Hv Hr Hrep).
        - apply classify_widening_float. cbv [emax]. lia.
        - apply classify_widening_float. reflexivity. }
      rewrite (saturated_cast_valid_float S (Floating kd) ks ice v HS Hvalid).
      cbn [static_cast].
      rewrite (float_to_float_exact ks kd r v Hv Hr Hrep).
      split; [reflexivity |]. apply (f_equal (@Some spec_float)).
      apply float_to_float_exact; [exact Hr | exact Hv |].
      rewrite same_float_sym. exact Hrep.
  - intros S kd ks ice v HS Hk Hv.
    exists (float_to_float ks kd v). split.
    + rewrite (saturated_cast_valid_float S (Floating kd) ks ice v HS
                 (classify_widening_float kd ks v Hk)).
      reflexivity.
    + cbn [static_cast]. apply (f_equal (@Some spec_float)).
      apply widen_and_back; assumption.
  - intros S k s ice v HS Hv Hsmall.
    rewrite (saturated_cast_to_float S k s ice v HS).
    exists (int_to_float k v). split; [reflexivity |].
    cbn [static_cast].
    assert (Hrange : int_lowest s <= v <= int_max s) by (unfold has_type in Hv; lia).
    destruct (Z.eq_dec v 0) as [-> | Hne].
    + replace (int_to_float k 0) with (S754_zero false) by (destruct k; reflexivity).
      apply float_to_int_in_range; [reflexivity | exact Hrange].
    + destruct (small_int_target k v Hne Hsmall) as (m & e & Hb & Hc).
      rewrite (int_to_float_exact k _ m e v Hb Hc).
      apply (float_to_int_in_range s _ v (trunc_exact _ v Hc) Hrange).
Qed.

End RoundTrip.

(** 2.0f is the integer 2: it survives [float] to [int32_t] and back. *)
Lemma saturated_cast_round_trip_witness :
  represents (Integral Int32) (Floating Binary32) 2 (S754_finite false 8388608 (-22))
  = true
  /\ Portable.saturated_cast (Integral Int32) SaturationDefaultLimits
       (Floating Binary32) false (S754_finite false 8388608 (-22))
     = Some 2
  /\ static_cast (Floating Binary32) (Integral Int32) 2
     = Some (S754_finite false 8388608 (-22)).
Proof.
  split; [reflexivity |].
  exact (proj1 (saturated_cast_round_trip
                  Portable.IsGreaterOrEqual_Test Portable.IsLessOrEqual_Test
                  Portable.kIsTypeInRangeForNumericType Portable.as_unsigned
                  Portable.SaturateFastAsmOp_is_supported Portable.SaturateFastAsmOp_Do
                  Portable_IsGreaterOrEqual_int Portable_IsLessOrEqual_int
                  Portable_as_unsigned_int)
           SaturationDefaultLimits (Integral Int32) (Floating Binary32) false
           (S754_finite false 8388608 (-22)) 2
           eq_refl eq_refl eq_refl eq_refl eq_refl).
Defined.

(* ================================================================== *)
(** ** The further properties at concrete inputs *)

Lemma Portable_no_asm_op (Dst Src : NumericType) :
  Portable.SaturateFastAsmOp_is_supported Dst Src = false.
Proof. reflexivity. Defined.

(** 300 as [int32_t] overflows [uint8_t]. *)
Lemma classifier_exact_on_integers_witness :
  has_type (Integral Int32) 300 = true
  /\ exists c,
       DstRangeRelationToSrcRange (Integral UInt8) std_numeric_limits
         (Integral Int32) 300 = Some c
       /\ (is_underflow_ c = true <-> 300 < int_lowest UInt8)
       /\ (is_overflow_ c = true <-> int_max UInt8 < 300)
       /\ (IsValid c = true <-> int_lowest UInt8 <= 300 <= int_max UInt8).
Proof.
  split; [reflexivity |].
  exact (classifier_exact_on_integers UInt8 Int32 300 eq_refl).
Defined.

(** [int32_t] contains [int8_t]. *)
Lemma static_relation_is_range_inclusion_witness :
  kStaticDstRangeRelationToSrcRange (Integral Int32) (Integral Int8) = kContained
  /\ int_lowest Int32 <= int_lowest Int8 /\ int_max Int8 <= int_max Int32.
Proof.
  split; [reflexivity |].
  exact (proj1 (static_relation_is_range_inclusion Int32 Int8) eq_refl).
Defined.

(** -5 and the lowest [int8_t]. *)
Lemma ConditionalNegate_signed_witness :
  int_is_signed Int8 = true /\ has_type (Integral Int8) (-5) = true
  /\ ConditionalNegate Int8 (-5) false = -5
  /\ ConditionalNegate Int8 (ConditionalNegate Int8 (-5) true) true = -5.
Proof.
  split; [reflexivity |]. split; [reflexivity |].
  split.
  - exact (proj1 (ConditionalNegate_signed Int8 (-5) eq_refl eq_refl)).
  - exact (proj1 (proj2 (proj2 (proj2
             (ConditionalNegate_signed Int8 (-5) eq_refl eq_refl))))).
Defined.

(** 200 as [uint8_t] is above [2^7]: the result is 56. *)
Lemma ConditionalNegate_unsigned_witness :
  int_is_signed UInt8 = false /\ has_type (Integral UInt8) 200 = true
  /\ 2 ^ (bits (int_width UInt8) - 1) < 200
  /\ ConditionalNegate UInt8 200 true = 2 ^ bits (int_width UInt8) - 200.
Proof.
  split; [reflexivity |]. split; [reflexivity |]. split; [reflexivity |].
  exact (proj1 (proj1 (proj2 (ConditionalNegate_unsigned UInt8 200 eq_refl eq_refl))
                  eq_refl)).
Defined.

(** The lowest [int8_t] survives the split into sign and magnitude. *)
Lemma abs_then_negate_round_trip_witness :
  int_is_signed Int8 = true /\ has_type (Integral Int8) (-128) = true
  /\ ConditionalNegate (make_unsigned Int8) (SafeUnsignedAbs Int8 (-128))
       (IsValueNegative (Integral Int8) (-128)) = -128.
Proof.
  split; [reflexivity |]. split; [reflexivity |].
  exact (abs_then_negate_round_trip Int8 (-128) eq_refl eq_refl).
Defined.

(** The maximum of [int32_t] adjusted twice for a [float] source. *)
Lemma Adjust_idempotent_witness :
  has_type (Integral Int32) 2147483647 = true
  /\ Adjust (Integral Int32) (Floating Binary32)
       (Adjust (Integral Int32) (Floating Binary32) 2147483647)
     = Adjust (Integral Int32) (Floating Binary32) 2147483647.
Proof.
  split; [reflexivity |].
  exact (Adjust_idempotent Int32 (Floating Binary32) 2147483647 eq_refl).
Defined.

(** -1 as [int32_t] is not in the range of [uint32_t]. *)
Lemma IsValueInRangeForNumericType_exact_witness :
  has_type (Integral Int32) (-1) = true
  /\ IsValueInRangeForNumericType Portable.IsGreaterOrEqual_Test
       Portable.kIsTypeInRangeForNumericType Portable.as_unsigned
       (Integral UInt32) (Integral Int32) (-1)
     = Some ((int_lowest UInt32 <=? -1) && (-1 <=? int_max UInt32)).
Proof.
  split; [reflexivity |].
  exact (IsValueInRangeForNumericType_exact
           Portable.IsGreaterOrEqual_Test Portable.kIsTypeInRangeForNumericType
           Portable.as_unsigned Portable_IsGreaterOrEqual_int Portable_as_unsigned_int
           UInt32 Int32 (-1) eq_refl).
Defined.

(** The common limits of [int8_t] and [uint16_t]. *)
Lemma common_limits_intersect_witness :
  kCommonMax Portable.IsGreaterOrEqual_Test (Integral Int8) (Integral UInt16)
  = Some (Z.min (int_max Int8) (int_max UInt16))
  /\ kCommonMin Portable.IsLessOrEqual_Test (Integral Int8) (Integral UInt16)
     = Some (Z.max (int_lowest Int8) (int_lowest UInt16)).
Proof.
  split.
  - exact (proj1 (common_limits_intersect
                    Portable.IsGreaterOrEqual_Test Portable.IsLessOrEqual_Test
                    Portable_IsGreaterOrEqual_int Portable_IsLessOrEqual_int
                    Int8 UInt16 false)).
  - exact (proj1 (proj2 (common_limits_intersect
                           Portable.IsGreaterOrEqual_Test Portable.IsLessOrEqual_Test
                           Portable_IsGreaterOrEqual_int Portable_IsLessOrEqual_int
                           Int8 UInt16 false))).
Defined.

(** -300 as [int32_t] underflows [int8_t]. *)
Lemma saturated_cast_integers_witness :
  standard_limits SaturationDefaultLimits
  /\ has_type (Integral Int32) (-300) = true
  /\ -300 < int_lowest Int8
  /\ Portable.saturated_cast (Integral Int8) SaturationDefaultLimits
       (Integral Int32) false (-300)
     = Some (S_Underflow SaturationDefaultLimits (Integral Int8)).
Proof.
  split; [reflexivity |]. split; [reflexivity |]. split; [reflexivity |].
  exact (proj1 (saturated_cast_integers
                  Portable.IsGreaterOrEqual_Test Portable.IsLessOrEqual_Test
                  Portable.kIsTypeInRangeForNumericType Portable.as_unsigned
                  Portable.SaturateFastAsmOp_is_supported Portable.SaturateFastAsmOp_Do
                  Portable_IsGreaterOrEqual_int Portable_IsLessOrEqual_int
                  Portable_as_unsigned_int Portable_no_asm_op
                  SaturationDefaultLimits Int8 Int32 false (-300) eq_refl eq_refl)
           eq_refl).
Defined.

(** 300 and 400 clamped to [uint8_t] storage. *)
Lemma ClampRawValue_clamps_witness :
  has_type (Integral Int32) 300 = true /\ has_type (Integral Int32) 400 = true
  /\ exists r r' : Z,
       ClampRawValue Portable.IsGreaterOrEqual_Test Portable.IsLessOrEqual_Test
         Portable.kIsTypeInRangeForNumericType Portable.as_unsigned
         Portable.SaturateFastAsmOp_is_supported Portable.SaturateFastAsmOp_Do
         (Integral UInt8) (Integral Int32) false 300 = Some r
       /\ ClampRawValue Portable.IsGreaterOrEqual_Test Portable.IsLessOrEqual_Test
            Portable.kIsTypeInRangeForNumericType Portable.as_unsigned
            Portable.SaturateFastAsmOp_is_supported Portable.SaturateFastAsmOp_Do
            (Integral UInt8) (Integral Int32) false 400 = Some r'
       /\ has_type (Integral UInt8) r = true
       /\ (int_lowest UInt8 <= 300 <= int_max UInt8 -> r = 300)
       /\ (300 <= 400 -> r <= r')
       /\ ClampRawValue Portable.IsGreaterOrEqual_Test Portable.IsLessOrEqual_Test
            Portable.kIsTypeInRangeForNumericType Portable.as_unsigned
            Portable.SaturateFastAsmOp_is_supported Portable.SaturateFastAsmOp_Do
            (Integral UInt8) (Integral UInt8) false r = Some r.
Proof.
  split; [reflexivity |]. split; [reflexivity |].
  exact (ClampRawValue_clamps
           Portable.IsGreaterOrEqual_Test Portable.IsLessOrEqual_Test
           Portable.kIsTypeInRangeForNumericType Portable.as_unsigned
           Portable.SaturateFastAsmOp_is_supported Portable.SaturateFastAsmOp_Do
           Portable_IsGreaterOrEqual_int Portable_IsLessOrEqual_int
           Portable_as_unsigned_int Portable_no_asm_op
           UInt8 Int32 false 300 400 eq_refl eq_refl).
Defined.

(** 1.5f converts to [int32_t]. *)
Lemma float_source_always_converts_witness :
  standard_limits SaturationDefaultLimits
  /\ has_type (Floating Binary32) (S754_finite false 12582912 (-23)) = true
  /\ exists (c : RangeCheck) (r : Z),
       DstRangeRelationToSrcRange (Integral Int32) (S_bounds SaturationDefaultLimits)
         (Floating Binary32) (S754_finite false 12582912 (-23)) = Some c
       /\ Portable.saturated_cast (Integral Int32) SaturationDefaultLimits
            (Floating Binary32) false (S754_finite false 12582912 (-23)) = Some r
       /\ (IsValid c = true ->
           SFtrunc (S754_finite false 12582912 (-23)) = Some r
           /\ int_lowest Int32 <= r <= int_max Int32)
       /\ (SaturationDefaultLimits = SaturationDefaultLimits ->
           has_type (Integral Int32) r = true).
Proof.
  split; [reflexivity |]. split; [reflexivity |].
  exact (float_source_always_converts
           Portable.IsGreaterOrEqual_Test Portable.IsLessOrEqual_Test
           Portable.kIsTypeInRangeForNumericType Portable.as_unsigned
           Portable.SaturateFastAsmOp_is_supported Portable.SaturateFastAsmOp_Do
           SaturationDefaultLimits Int32 Binary32 false
           (S754_finite false 12582912 (-23)) eq_refl eq_refl).
Defined.

(** The infinities of [double] to [int64_t]. *)
Lemma infinities_saturate_witness :
  standard_limits SaturationDefaultLimits
  /\ Portable.saturated_cast (Integral Int64) SaturationDefaultLimits
       (Floating Binary64) false (S754_infinity false)
     = Some (S_Overflow SaturationDefaultLimits (Integral Int64))
  /\ Portable.saturated_cast (Integral Int64) SaturationDefaultLimits
       (Floating Binary64) false (S754_infinity true)
     = Some (S_Underflow SaturationDefaultLimits (Integral Int64)).
Proof.
  split; [reflexivity |].
  exact (infinities_saturate
           Portable.IsGreaterOrEqual_Test Portable.IsLessOrEqual_Test
           Portable.kIsTypeInRangeForNumericType Portable.as_unsigned
           Portable.SaturateFastAsmOp_is_supported Portable.SaturateFastAsmOp_Do
           SaturationDefaultLimits Int64 Binary64 false eq_refl).
Defined.

(** The maximum of [int64_t] to [float]. *)
Lemma widening_to_floating_point_is_plain_cast_witness :
  standard_limits SaturationDefaultLimits
  /\ Portable.saturated_cast (Floating Binary32) SaturationDefaultLimits
       (Integral Int64) false (int_max Int64)
     = Some (int_to_float Binary32 (int_max Int64)).
Proof.
  split; [reflexivity |].
  exact (proj1 (widening_to_floating_point_is_plain_cast
                  Portable.IsGreaterOrEqual_Test Portable.IsLessOrEqual_Test
                  Portable.kIsTypeInRangeForNumericType Portable.as_unsigned
                  Portable.SaturateFastAsmOp_is_supported Portable.SaturateFastAsmOp_Do
                  SaturationDefaultLimits Binary32 false eq_refl)
           Int64 (int_max Int64)).
Defined.

(** [uint32_t] and [float]: the shift is positive and the maximum rounds
    up. *)
Lemma adjusted_bounds_are_representable_witness :
  0 < kShift (Integral UInt32) (Floating Binary32)
  /\ float_compare_int (int_to_float Binary32 (int_max UInt32)) (int_max UInt32)
     = Some Gt.
Proof.
  split; [reflexivity |].
  exact (proj1 (proj1 (proj2 (proj2
           (adjusted_bounds_are_representable UInt32 Binary32)))) eq_refl).
Defined.

(** 127.5f is above the maximum of [int8_t]. *)
Lemma float_classification_is_exact_witness :
  has_type (Floating Binary32) (S754_finite false 16711680 (-17)) = true
  /\ S754_finite false 16711680 (-17) <> S754_nan
  /\ exists c,
       DstRangeRelationToSrcRange (Integral Int8) std_numeric_limits
         (Floating Binary32) (S754_finite false 16711680 (-17)) = Some c
       /\ (is_overflow_ c = true <->
           float_compare_int (S754_finite false 16711680 (-17)) (int_max Int8) = Some Gt)
       /\ (int_is_signed Int8 = true ->
           (is_underflow_ c = true <->
            float_compare_int (S754_finite false 16711680 (-17)) (int_lowest Int8)
            = Some Lt))
       /\ (int_is_signed Int8 = false ->
           (is_underflow_ c = false <->
            float_compare_int (S754_finite false 16711680 (-17)) (-1) = Some Gt)).
Proof.
  split; [reflexivity |]. split; [discriminate |].
  apply (float_classification_is_exact Int8 Binary32 (S754_finite false 16711680 (-17))).
  - reflexivity.
  - discriminate.
Defined.

(** -5 as [int8_t], and -0.5f. *)
Lemma IsValueNegative_exact_witness :
  has_type (Integral Int8) (-5) = true
  /\ IsValueNegative (Integral Int8) (-5) = (-5 <? 0)
  /\ (IsValueNegative (Floating Binary32) (S754_finite true 8388608 (-24)) = true
      <-> float_compare_int (S754_finite true 8388608 (-24)) 0 = Some Lt).
Proof.
  split; [reflexivity |].
  split.
  - exact (proj1 (IsValueNegative_exact Int8 (-5) Binary32
                    (S754_finite true 8388608 (-24)) eq_refl)).
  - exact (proj1 (proj2 (proj2 (IsValueNegative_exact Int8 (-5) Binary32
                                  (S754_finite true 8388608 (-24)) eq_refl)))).
Defined.

(** [float] to [int32_t]: the shift is 7. *)
Lemma static_constraints_hold_witness :
  0 < kShift (Integral Int32) (Floating Binary32)
  /\ kShift (Integral Int32) (Floating Binary32)
     = digits (Integral Int32) - digits (Floating Binary32).
Proof.
  split; [reflexivity |].
  exact (proj2 (proj2 (proj2
           (static_constraints_hold (Integral Int32) (Floating Binary32)))) eq_refl).
Defined.


(** [2^129] as a [double] is above the maximum of [float]. *)
Lemma double_to_float_saturates_witness :
  standard_limits SaturationDefaultLimits
  /\ SFcompare (S754_finite false 4503599627370496 77)
       (float_to_float Binary32 Binary64 (float_max Binary32)) = Some Gt
  /\ Portable.saturated_cast (Floating Binary32) SaturationDefaultLimits
       (Floating Binary64) false (S754_finite false 4503599627370496 77)
     = Some (S_Overflow SaturationDefaultLimits (Floating Binary32)).
Proof.
  split; [reflexivity |]. split; [reflexivity |].
  exact (proj1 (double_to_float_saturates
                  Portable.IsGreaterOrEqual_Test Portable.IsLessOrEqual_Test
                  Portable.kIsTypeInRangeForNumericType Portable.as_unsigned
                  Portable.SaturateFastAsmOp_is_supported Portable.SaturateFastAsmOp_Do
                  SaturationDefaultLimits false
                  (S754_finite false 4503599627370496 77) eq_refl)
           eq_refl).
Defined.

(** 300.5f to [uint8_t]: the integer part is 300, the result 255. *)
Lemma float_source_is_clamped_truncation_witness :
  has_type (Floating Binary32) (S754_finite false 9846784 (-15)) = true
  /\ SFtrunc (S754_finite false 9846784 (-15)) = Some 300
  /\ Portable.saturated_cast (Integral UInt8) SaturationDefaultLimits
       (Floating Binary32) false (S754_finite false 9846784 (-15))
     = Some (clamp UInt8 300).
Proof.
  split; [reflexivity |]. split; [reflexivity |].
  exact (float_source_is_clamped_truncation
           Portable.IsGreaterOrEqual_Test Portable.IsLessOrEqual_Test
           Portable.kIsTypeInRangeForNumericType Portable.as_unsigned
           Portable.SaturateFastAsmOp_is_supported Portable.SaturateFastAsmOp_Do
           UInt8 Binary32 false (S754_finite false 9846784 (-15)) 300
           eq_refl eq_refl).
Defined.

(** 1.5f is in the range of [int32_t]. *)
Lemma IsValueInRangeForNumericType_float_source_witness :
  has_type (Floating Binary32) (S754_finite false 12582912 (-23)) = true
  /\ exists b : bool,
       IsValueInRangeForNumericType Portable.IsGreaterOrEqual_Test
         Portable.kIsTypeInRangeForNumericType Portable.as_unsigned
         (Integral Int32) (Floating Binary32) (S754_finite false 12582912 (-23))
       = Some b
       /\ (b = true <->
           (float_compare_int (S754_finite false 12582912 (-23)) (int_max Int32)
            = Some Lt
            \/ float_compare_int (S754_finite false 12582912 (-23)) (int_max Int32)
               = Some Eq)
           /\ (if int_is_signed Int32
               then float_compare_int (S754_finite false 12582912 (-23))
                      (int_lowest Int32) = Some Gt
                    \/ float_compare_int (S754_finite false 12582912 (-23))
                         (int_lowest Int32) = Some Eq
               else float_compare_int (S754_finite false 12582912 (-23)) (-1)
                    = Some Gt))
       /\ (b = true ->
           exists z, static_cast (Integral Int32) (Floating Binary32)
                       (S754_finite false 12582912 (-23)) = Some z
                     /\ SFtrunc (S754_finite false 12582912 (-23)) = Some z
                     /\ int_lowest Int32 <= z <= int_max Int32).
Proof.
  split; [reflexivity |].
  exact (IsValueInRangeForNumericType_float_source
           Portable.IsGreaterOrEqual_Test Portable.kIsTypeInRangeForNumericType
           Portable.as_unsigned Int32 Binary32
           (S754_finite false 12582912 (-23)) eq_refl).
Defined.
